(** * Sokoban: the puzzle state engine of [main.py]

    A shallow embedding of the grid model, the movement engine, the undo
    history and the level parser, together with the properties of the
    specification that concern them.

    Python objects that the program mutates in place are the row lists of a
    grid ([Vector2.set] performs [a[x][y] = val]).  They live in a store and
    are named by locations, so that aliasing between snapshots is visible.
    The outer lists and the attributes of a [State] are never assigned after
    construction; they are plain values here.  Python integers are [Z]. *)

From Stdlib Require Import Ascii String.
From stdpp Require Import base decidable option numbers list gmap strings.

Local Open Scope Z_scope.

(** ** Exceptions and results *)

Inductive exn : Type :=
  | IndexError
  | ValueError
  | RecursionError
  | SystemError
  | InvalidTile (c : ascii)
  | InvalidBackgroundTile (c : ascii).

Inductive result (A : Type) : Type :=
  | Ok (a : A)
  | Raise (e : exn).

Arguments Ok {A} a.
Arguments Raise {A} e.

Definition rbind {A B : Type} (m : result A) (k : A → result B) : result B :=
  match m with
  | Ok a => k a
  | Raise e => Raise e
  end.

Notation "x <- m ;; k" := (rbind m (fun x => k))
  (at level 100, m at next level, right associativity).

(** [map] of a raising function over a list, left to right, as
    [list(map(f, xs))] runs it. *)
Fixpoint rmap {A B : Type} (f : A → result B) (xs : list A) : result (list B) :=
  match xs with
  | [] => Ok []
  | a :: xs' => b <- f a ;; bs <- rmap f xs' ;; Ok (b :: bs)
  end.

(** ** Tiles *)

Inductive Tile : Type := EMPTY | PLAYER | WALL | BOX.

Inductive BackgroundTile : Type := BG_EMPTY | TARGET.

Global Instance Tile_eq_dec : EqDecision Tile.
Proof. solve_decision. Defined.

Global Instance BackgroundTile_eq_dec : EqDecision BackgroundTile.
Proof. solve_decision. Defined.

(** ** Python sequences: indexing, item assignment, slices, [range] *)

(** The position a Python index denotes in a sequence of length [n]:
    negative indices count from the end. *)
Definition norm_index (n : nat) (i : Z) : option nat :=
  if bool_decide (0 ≤ i < Z.of_nat n) then Some (Z.to_nat i)
  else if bool_decide (- Z.of_nat n ≤ i < 0) then Some (Z.to_nat (Z.of_nat n + i))
  else None.

Definition getitem {A : Type} (l : list A) (i : Z) : result A :=
  match norm_index (length l) i with
  | Some k => match l !! k with Some a => Ok a | None => Raise IndexError end
  | None => Raise IndexError
  end.

Definition setitem {A : Type} (l : list A) (i : Z) (val : A) : result (list A) :=
  match norm_index (length l) i with
  | Some k => Ok (<[k := val]> l)
  | None => Raise IndexError
  end.

(** A slice bound, clamped as [l[a:b]] clamps it. *)
Definition slice_bound (n : nat) (i : Z) : nat :=
  if bool_decide (i < 0) then Z.to_nat (Z.max 0 (Z.of_nat n + i))
  else Z.to_nat (Z.min i (Z.of_nat n)).

Definition slice {A : Type} (l : list A) (a b : Z) : list A :=
  let lo := slice_bound (length l) a in
  let hi := slice_bound (length l) b in
  take (hi - lo)%nat (drop lo l).

Definition range (n : Z) : list Z := Z.of_nat <$> seq 0 (Z.to_nat n).

(** ** The store *)

(** A heap of row lists: location [l] names the [l]-th row ever allocated.
    Nothing is reclaimed, so a fresh location is the current size. *)
Abbreviation loc := nat (only parsing).

Definition alloc {A : Type} (row : list A) (h : list (list A)) : loc * list (list A) :=
  (length h, h ++ [row]).

(** The row a reference names.  A reference always names a live object; a
    location beyond the heap is given an error of its own, which no Python
    run shows. *)
Definition read_row {A : Type} (h : list (list A)) (l : loc) : result (list A) :=
  match h !! l with
  | Some r => Ok r
  | None => Raise SystemError
  end.

Record Store : Type := mkStore {
  tile_rows : list (list Tile);
  bg_rows : list (list BackgroundTile)
}.

(** ** Vector2 *)

Record Vector2 : Type := mkVector2 { x : Z; y : Z }.

Global Instance Vector2_eq_dec : EqDecision Vector2.
Proof. solve_decision. Defined.

Definition Vector2_add (self other : Vector2) : Vector2 :=
  mkVector2 (x self + x other) (y self + y other).

(** [a[self.x][self.y]] *)
Definition access {A : Type} (self : Vector2) (a : list loc) (h : list (list A)) : result A :=
  l <- getitem a (x self) ;;
  row <- read_row h l ;;
  getitem row (y self).

(** [a[self.x][self.y] = val] *)
Definition set {A : Type} (self : Vector2) (a : list loc) (val : A) (h : list (list A))
    : result (list (list A)) :=
  l <- getitem a (x self) ;;
  row <- read_row h l ;;
  row' <- setitem row (y self) val ;;
  Ok (<[l := row']> h).

Definition UP : Vector2 := mkVector2 (-1) 0.
Definition DOWN : Vector2 := mkVector2 1 0.
Definition LEFT : Vector2 := mkVector2 0 (-1).
Definition RIGHT : Vector2 := mkVector2 0 1.

Definition CAN_MULTIPUSH : bool := false.

(** Depth at which the interpreter gives up on a recursion. *)
Definition recursion_limit : nat := 1000.

(** ** State *)

Record State : Type := mkState {
  length : Z;
  width : Z;
  tiles : list loc;
  background : list loc
}.

(** [State.__init__]: the dimensions are read off the tile layer. *)
Definition State_init (tiles background : list loc) (h : list (list Tile)) : result State :=
  l0 <- getitem tiles 0 ;;
  row0 <- read_row h l0 ;;
  Ok {| length := Z.of_nat (List.length tiles);
        width := Z.of_nat (List.length row0);
        tiles := tiles;
        background := background |}.

Definition is_inbounds (self : State) (p : Vector2) : bool :=
  bool_decide (0 ≤ x p < length self) && bool_decide (0 ≤ y p < width self).

Definition positions (self : State) : list Vector2 :=
  i ← range (length self); j ← range (width self); [mkVector2 i j].

Fixpoint move_box (depth : nat) (self : State) (box_pos direction : Vector2)
    (h : list (list Tile)) : result (bool * list (list Tile)) :=
  let target := Vector2_add box_pos direction in
  let commit h :=
    h1 <- set box_pos (tiles self) EMPTY h ;;
    h2 <- set target (tiles self) BOX h1 ;;
    Ok (true, h2) in
  if negb (is_inbounds self target) then Ok (false, h) else
  t <- access target (tiles self) h ;;
  if bool_decide (t = WALL) then Ok (false, h) else
  t' <- access target (tiles self) h ;;
  if bool_decide (t' = BOX) then
    if negb CAN_MULTIPUSH then Ok (false, h) else
    match depth with
    | O => Raise RecursionError
    | S depth' =>
        r <- move_box depth' self target direction h ;;
        if negb r.1 then Ok (false, r.2) else commit r.2
    end
  else commit h.

Definition move_player (self : State) (player_pos direction : Vector2)
    (h : list (list Tile)) : result (bool * list (list Tile)) :=
  let target := Vector2_add player_pos direction in
  let commit h :=
    h1 <- set player_pos (tiles self) EMPTY h ;;
    h2 <- set target (tiles self) PLAYER h1 ;;
    Ok (true, h2) in
  if negb (is_inbounds self target) then Ok (false, h) else
  t <- access target (tiles self) h ;;
  if bool_decide (t = WALL) then Ok (false, h) else
  t' <- access target (tiles self) h ;;
  if bool_decide (t' = BOX) then
    r <- move_box recursion_limit self target direction h ;;
    if negb r.1 then Ok (false, r.2) else commit r.2
  else commit h.

(** [win]: the inner loop over one row, then the loop over the rows. *)
Fixpoint win_row (self : State) (σ : Store) (i : Z) (js : list Z) : result bool :=
  match js with
  | [] => Ok true
  | j :: js' =>
      t <- access (mkVector2 i j) (tiles self) (tile_rows σ) ;;
      if bool_decide (t = BOX) then
        b <- access (mkVector2 i j) (background self) (bg_rows σ) ;;
        if bool_decide (b ≠ TARGET) then Ok false else win_row self σ i js'
      else win_row self σ i js'
  end.

Fixpoint win_rows (self : State) (σ : Store) (ks : list Z) : result bool :=
  match ks with
  | [] => Ok true
  | i :: ks' =>
      r <- win_row self σ i (range (width self)) ;;
      if r then win_rows self σ ks' else Ok false
  end.

Definition win (self : State) (σ : Store) : result bool :=
  win_rows self σ (range (length self)).

(** ** deepcopy *)

(** [deepcopy] of a list of rows.  The memo maps a row already copied to its
    copy, so a row that occurs twice is copied once.  The elements of a row
    are enum members, which [deepcopy] returns as they are. *)
Fixpoint deepcopy_rows {A : Type} (ls : list loc) (memo : gmap loc loc)
    (h : list (list A)) : result (list loc * gmap loc loc * list (list A)) :=
  match ls with
  | [] => Ok ([], memo, h)
  | l :: ls' =>
      match memo !! l with
      | Some l' =>
          r <- deepcopy_rows ls' memo h ;;
          Ok (l' :: r.1.1, r.1.2, r.2)
      | None =>
          row <- read_row h l ;;
          let l' := (alloc row h).1 in
          r <- deepcopy_rows ls' (<[l := l']> memo) (alloc row h).2 ;;
          Ok (l' :: r.1.1, r.1.2, r.2)
      end
  end.

(** [deepcopy(state)]: the attributes are copied in the order [__init__]
    assigned them. *)
Definition deepcopy (self : State) (σ : Store) : result (State * Store) :=
  ts <- deepcopy_rows (tiles self) ∅ (tile_rows σ) ;;
  bs <- deepcopy_rows (background self) ∅ (bg_rows σ) ;;
  Ok ({| length := length self; width := width self;
         tiles := ts.1.1; background := bs.1.1 |},
      {| tile_rows := ts.2; bg_rows := bs.2 |}).

(** ** Game *)

Record Game : Type := mkGame { state : list State }.

Definition Game_init (initial_state : State) : Game :=
  {| state := [initial_state] |}.

(** The loop of [Game.move] over [state_copy.positions()]. *)
Fixpoint move_scan (state_copy : State) (direction : Vector2) (ps : list Vector2)
    (h : list (list Tile)) : result (bool * list (list Tile)) :=
  match ps with
  | [] => Ok (false, h)
  | p :: ps' =>
      t <- access p (tiles state_copy) h ;;
      if bool_decide (t = PLAYER) then
        r <- move_player state_copy p direction h ;;
        if r.1 then Ok (true, r.2) else move_scan state_copy direction ps' r.2
      else move_scan state_copy direction ps' h
  end.

Definition Game_move (self : Game) (direction : Vector2) (σ : Store)
    : result (bool * Game * Store) :=
  cur <- getitem (state self) (-1) ;;
  c <- deepcopy cur σ ;;
  let state_copy := c.1 in
  r <- move_scan state_copy direction (positions state_copy) (tile_rows c.2) ;;
  let σ' := {| tile_rows := r.2; bg_rows := bg_rows c.2 |} in
  if r.1 then Ok (true, {| state := state self ++ [state_copy] |}, σ')
  else Ok (false, self, σ').

Definition Game_undo (self : Game) : bool * Game :=
  if bool_decide (1 < Z.of_nat (List.length (state self)))
  then (true, {| state := removelast (state self) |})
  else (false, self).

(** [game.state[-1]], the grid the surrounding loop draws and tests. *)
Definition current (self : Game) : result State := getitem (state self) (-1).

(** The commands the surrounding loop feeds to the game, and a run of
    them.  A run stops at the first exception, as the loop does. *)
Inductive command : Type :=
  | Move (direction : Vector2)
  | Undo.

Fixpoint run (cs : list command) (g : Game) (σ : Store) : result (Game * Store) :=
  match cs with
  | [] => Ok (g, σ)
  | Move d :: cs' => r <- Game_move g d σ ;; run cs' r.1.2 r.2
  | Undo :: cs' => run cs' (Game_undo g).2 σ
  end.

(** ** What a store holds for a state *)

(** The rows a list of locations names, by value. *)
Definition rows_at {A : Type} (h : list (list A)) (ls : list loc) : list (list A) :=
  (λ l, default [] (h !! l)) <$> ls.

Record Grid : Type := mkGrid {
  g_length : Z;
  g_width : Z;
  g_tiles : list (list Tile);
  g_background : list (list BackgroundTile)
}.

Definition view (σ : Store) (self : State) : Grid :=
  {| g_length := length self;
     g_width := width self;
     g_tiles := rows_at (tile_rows σ) (tiles self);
     g_background := rows_at (bg_rows σ) (background self) |}.

(** Every reference of a live object names an object of the store. *)
Definition allocated (σ : Store) (self : State) : Prop :=
  Forall (λ l, (l < List.length (tile_rows σ))%nat) (tiles self) ∧
  Forall (λ l, (l < List.length (bg_rows σ))%nat) (background self).

(** The tile layer is [length] rows of [width] tiles each. *)
Definition rectangular (σ : Store) (self : State) : Prop :=
  Forall (λ l, (l < List.length (tile_rows σ))%nat) (tiles self) ∧
  length self = Z.of_nat (List.length (tiles self)) ∧
  Forall (λ row, Z.of_nat (List.length row) = width self) (g_tiles (view σ self)).

Definition count_tile (t : Tile) (rows : list (list Tile)) : nat :=
  List.length (filter (λ u, u = t) (mjoin rows)).

Definition boxes (σ : Store) (self : State) : nat :=
  count_tile BOX (g_tiles (view σ self)).

(** No row object is shared: neither inside a snapshot nor between two
    snapshots of the history. *)
Definition separated (g : Game) : Prop :=
  NoDup (mjoin (tiles <$> state g)) ∧ NoDup (mjoin (background <$> state g)).

(** ** Python strings

    A text is a [string] whose characters stand for the code points 0 to
    255. *)

Definition chars (s : string) : list ascii := list_ascii_of_string s.

(** The characters at which [str.splitlines] breaks a line (a carriage
    return followed by a line feed is one break). *)
Definition is_linebreak (c : ascii) : bool :=
  let n := nat_of_ascii c in
  bool_decide (n ∈ [10; 11; 12; 13; 28; 29; 30; 133]%nat).

(** The characters [str.split] takes as separators ([str.isspace]). *)
Definition is_space (c : ascii) : bool :=
  let n := nat_of_ascii c in
  bool_decide (n ∈ [9; 10; 11; 12; 13; 28; 29; 30; 31; 32; 133; 160]%nat).

(** [splitlines_from cur s]: [cur] holds, in reverse, the characters of
    the line being read.  No empty last line is produced. *)
Fixpoint splitlines_from (cur : list ascii) (s : list ascii) : list string :=
  match s with
  | [] => match cur with [] => [] | _ => [string_of_list_ascii (rev cur)] end
  | c :: s' =>
      if bool_decide (nat_of_ascii c = 13%nat) then
        match s' with
        | c' :: s'' =>
            if bool_decide (nat_of_ascii c' = 10%nat)
            then string_of_list_ascii (rev cur) :: splitlines_from [] s''
            else string_of_list_ascii (rev cur) :: splitlines_from [] s'
        | [] => string_of_list_ascii (rev cur) :: splitlines_from [] s'
        end
      else if is_linebreak c then string_of_list_ascii (rev cur) :: splitlines_from [] s'
      else splitlines_from (c :: cur) s'
  end.

Definition splitlines (s : string) : list string := splitlines_from [] (chars s).

(** [s.split()]: the maximal runs of characters that are not spaces. *)
Fixpoint split_from (cur : list ascii) (s : list ascii) : list string :=
  match s with
  | [] => match cur with [] => [] | _ => [string_of_list_ascii (rev cur)] end
  | c :: s' =>
      if is_space c then
        match cur with
        | [] => split_from [] s'
        | _ => string_of_list_ascii (rev cur) :: split_from [] s'
        end
      else split_from (c :: cur) s'
  end.

Definition split (s : string) : list string := split_from [] (chars s).

Definition digit_of (c : ascii) : option Z :=
  let n := nat_of_ascii c in
  if bool_decide (48 ≤ n ≤ 57)%nat then Some (Z.of_nat n - 48) else None.

(** The digits of an integer literal: a single underscore may stand
    between two digits.  [acc] is the value read so far; [after_digit] tells
    whether the previous character was a digit. *)
Fixpoint int_digits (acc : Z) (after_digit : bool) (s : list ascii) : result Z :=
  match s with
  | [] => if after_digit then Ok acc else Raise ValueError
  | c :: s' =>
      match digit_of c with
      | Some d => int_digits (10 * acc + d) true s'
      | None =>
          if bool_decide (nat_of_ascii c = 95%nat) && after_digit
          then int_digits acc false s'
          else Raise ValueError
      end
  end.

(** The most digits [int] converts: the default of
    [sys.int_max_str_digits], which the program leaves as it is. *)
Definition int_max_str_digits : Z := 4300.

(** The digits of a literal; underscores and the sign are not digits. *)
Definition digit_count (s : list ascii) : nat :=
  List.length (filter (λ c, is_Some (digit_of c)) s).

(** The literal after the sign: it is checked and read, and turned down
    with the same exception when it has more digits than [int] converts. *)
Definition int_literal (s : list ascii) : result Z :=
  n <- int_digits 0 false s ;;
  if bool_decide (int_max_str_digits < Z.of_nat (digit_count s))
  then Raise ValueError
  else Ok n.

(** [int(s)] for a string without spaces: an optional sign, then a
    literal. *)
Definition int (s : string) : result Z :=
  match chars s with
  | [] => Raise ValueError
  | c :: s' =>
      if bool_decide (nat_of_ascii c = 45%nat) then n <- int_literal s' ;; Ok (- n)
      else if bool_decide (nat_of_ascii c = 43%nat) then int_literal s'
      else int_literal (c :: s')
  end.

(** ** The level parser *)

Definition parse_tile (c : ascii) : result Tile :=
  if bool_decide (c = "."%char) then Ok EMPTY
  else if bool_decide (c = "p"%char) then Ok PLAYER
  else if bool_decide (c = "#"%char) then Ok WALL
  else if bool_decide (c = "x"%char) then Ok BOX
  else Raise (InvalidTile c).

Definition parse_background_tile (c : ascii) : result BackgroundTile :=
  if bool_decide (c = "."%char) then Ok BG_EMPTY
  else if bool_decide (c = "o"%char) then Ok TARGET
  else Raise (InvalidBackgroundTile c).

(** [length, width = map(int, lines[0].split())]: anything but two
    integer literals that [int] converts is a [ValueError]. *)
Definition parse_header (line : string) : result (Z * Z) :=
  match split line with
  | [a; b] => length <- int a ;; width <- int b ;; Ok (length, width)
  | _ => Raise ValueError
  end.

(** The rows that [list(tiles)] builds, each a new list object. *)
Fixpoint alloc_rows {A : Type} (rows : list (list A)) (h : list (list A))
    : list loc * list (list A) :=
  match rows with
  | [] => ([], h)
  | row :: rows' =>
      let r := alloc_rows rows' (alloc row h).2 in
      ((alloc row h).1 :: r.1, r.2)
  end.

(** The body of the [try] block of [parse_level]. *)
Definition parse_level_try (level_str : string) (σ : Store) : result (State * Store) :=
  let lines := splitlines level_str in
  line0 <- getitem lines 0 ;;
  hd <- parse_header line0 ;;
  let length := hd.1 in
  let width := hd.2 in
  tiles <- rmap (λ ln, rmap parse_tile (chars ln)) (slice lines 1 (length + 1)) ;;
  background_tiles <-
    rmap (λ ln, rmap parse_background_tile (chars ln))
         (slice lines (length + 1) (length * 2 + 1)) ;;
  let ts := alloc_rows tiles (tile_rows σ) in
  let bs := alloc_rows background_tiles (bg_rows σ) in
  st <- State_init ts.1 bs.1 ts.2 ;;
  Ok (st, {| tile_rows := ts.2; bg_rows := bs.2 |}).

(** [parse_level]: every exception of the body becomes [None] (the
    message it prints is not modelled); what the body had built is then
    unreachable and the store is as before. *)
Definition parse_level (level_str : string) (σ : Store) : option State * Store :=
  match parse_level_try level_str σ with
  | Ok r => (Some r.1, r.2)
  | Raise _ => (None, σ)
  end.

Definition empty_store : Store := {| tile_rows := []; bg_rows := [] |}.

(** ** Invariants and auxiliary notions *)

(** [frame ls h h']: from [h] to [h'] only rows named in [ls] changed, and
    no row changed its size. *)
Definition frame {A : Type} (ls : list loc) (h h' : list (list A)) : Prop :=
  (List.length <$> h') = (List.length <$> h) ∧ ∀ l, l ∉ ls → h' !! l = h !! l.

(** [extends σ σ']: every row of [σ] is in [σ'] at the same location, with
    the same contents; [σ'] may hold more rows. *)
Definition extends (σ σ' : Store) : Prop :=
  tile_rows σ `prefix_of` tile_rows σ' ∧ bg_rows σ `prefix_of` bg_rows σ'.

(** What [deepcopy] keeps true of its memo while it copies into a heap that
    had [b] rows at the start: a copy is a new row, it holds what the row
    it copies holds, and no two rows share a copy. *)
Definition copy_inv {A : Type} (b : nat) (memo : gmap loc loc) (h : list (list A)) : Prop :=
  (∀ l l', memo !! l = Some l' →
     (b ≤ l' < List.length h)%nat ∧ (l < List.length h)%nat ∧ h !! l' = h !! l) ∧
  (∀ l1 l2 l', memo !! l1 = Some l' → memo !! l2 = Some l' → l1 = l2).

(** [rows[p.x][p.y]] on a grid given by value. *)
Definition grid_get {A : Type} (rows : list (list A)) (p : Vector2) : result A :=
  row <- getitem rows (x p) ;; getitem row (y p).

(** Every position within the bounds of a state can be read in [h]. *)
Definition readable (self : State) (h : list (list Tile)) : Prop :=
  ∀ p, is_inbounds self p = true → ∃ t, access p (tiles self) h = Ok t.

(** A game the engine handles without exception: a history that is not
    empty, of allocated snapshots with rectangular tile layers. *)
Definition sound (σ : Store) (g : Game) : Prop :=
  state g ≠ [] ∧ Forall (allocated σ) (state g) ∧ Forall (rectangular σ) (state g).

(** 1 if the tile is [t], else 0. *)
Definition is_tile (t u : Tile) : nat := if decide (u = t) then 1%nat else 0%nat.

(** A history every snapshot of which is allocated, has no row twice and
    holds [n] boxes. *)
Definition holds_boxes (n : nat) (σ : Store) (g : Game) : Prop :=
  state g ≠ [] ∧
  Forall (λ st, allocated σ st ∧ NoDup (tiles st) ∧ boxes σ st = n) (state g).

(** [moved ds g σ g' σ']: the moves [ds], made one after the other from
    [g] in [σ], all returned true and led to [g'] in [σ']. *)
Fixpoint moved (ds : list Vector2) (g : Game) (σ : Store) (g' : Game) (σ' : Store) : Prop :=
  match ds with
  | [] => g' = g ∧ σ' = σ
  | d :: ds' => ∃ g1 σ1, Game_move g d σ = Ok (true, g1, σ1) ∧ moved ds' g1 σ1 g' σ'
  end.

(** [k] calls of [undo], with what each returned. *)
Fixpoint undo_times (k : nat) (g : Game) : list bool * Game :=
  match k with
  | O => ([], g)
  | S k' =>
      let r := undo_times k' (Game_undo g).2 in
      ((Game_undo g).1 :: r.1, r.2)
  end.

(** ** What the parser rejects *)

Definition raises {A : Type} (r : result A) : bool :=
  match r with
  | Ok _ => false
  | Raise _ => true
  end.

Definition tile_chars : list ascii := ["."; "p"; "#"; "x"]%char.

Definition background_chars : list ascii := ["."; "o"]%char.

(** A line with a character outside [ok]. *)
Definition bad_row (ok : list ascii) (ln : string) : bool :=
  existsb (λ c, negb (bool_decide (c ∈ ok))) (chars ln).

(** The texts [parse_level] turns down: no line at all, a first line that
    is not two integer literals that [int] converts, a sliced row of either
    layer with a character that is not a tile of that layer, or no tile row
    sliced. *)
Definition rejects (level_str : string) : bool :=
  let lines := splitlines level_str in
  match lines with
  | [] => true
  | line0 :: _ =>
      match parse_header line0 with
      | Raise _ => true
      | Ok hd =>
          let tile_lines := slice lines 1 (hd.1 + 1) in
          let background_lines := slice lines (hd.1 + 1) (hd.1 * 2 + 1) in
          existsb (bad_row tile_chars) tile_lines
          || existsb (bad_row background_chars) background_lines
          || bool_decide (tile_lines = [])
      end
  end.

(** ** Example levels *)

(** A level text from its lines, each ended by a line feed. *)
Definition text_of_lines (ls : list string) : string :=
  foldr (λ l acc, (l ++ String (ascii_of_nat 10) acc)%string) EmptyString ls.

(** The game a level text starts, in a store that held nothing before. *)
Definition start (level_str : string) : option (Game * Store) :=
  match parse_level level_str empty_store with
  | (Some st, σ) => Some (Game_init st, σ)
  | (None, _) => None
  end.

(** The player between a wall and a free cell. *)
Definition corridor : string := text_of_lines ["1 3"; "#p."; ".o."].

Definition corridor_state : State :=
  {| length := 1; width := 3; tiles := [0%nat]; background := [0%nat] |}.

Definition corridor_game : Game := Game_init corridor_state.

Definition corridor_store : Store :=
  {| tile_rows := [[WALL; PLAYER; EMPTY]]; bg_rows := [[BG_EMPTY; TARGET; BG_EMPTY]] |}.

(** The corridor after the player stepped right: two snapshots. *)
Definition corridor_stepped_state : State :=
  {| length := 1; width := 3; tiles := [1%nat]; background := [1%nat] |}.

Definition corridor_stepped : Game :=
  {| state := [corridor_state; corridor_stepped_state] |}.

Definition corridor_stepped_store : Store :=
  {| tile_rows := [[WALL; PLAYER; EMPTY]; [WALL; EMPTY; PLAYER]];
     bg_rows := [[BG_EMPTY; TARGET; BG_EMPTY]; [BG_EMPTY; TARGET; BG_EMPTY]] |}.

(** The corridor after a step right and a step back. *)
Definition corridor_walked : Game * Store :=
  Eval vm_compute in
    match run [Move RIGHT; Move LEFT] corridor_game corridor_store with
    | Ok r => r
    | Raise _ => (corridor_game, corridor_store)
    end.


Definition walled_state : State :=
  {| length := 3; width := 3; tiles := [0; 1; 2]%nat; background := [0; 1; 2]%nat |}.

Definition walled_store : Store :=
  {| tile_rows := [[WALL; WALL; WALL]; [WALL; PLAYER; EMPTY]; [WALL; WALL; WALL]];
     bg_rows := [[BG_EMPTY; TARGET; BG_EMPTY]; [BG_EMPTY; BG_EMPTY; BG_EMPTY];
                 [BG_EMPTY; BG_EMPTY; BG_EMPTY]] |}.

(** A box between the player and a target. *)
Definition push_level : string := text_of_lines ["1 4"; "px.."; "...o"].

Definition push_state : State :=
  {| length := 1; width := 4; tiles := [0%nat]; background := [0%nat] |}.

Definition push_store : Store :=
  {| tile_rows := [[PLAYER; BOX; EMPTY; EMPTY]];
     bg_rows := [[BG_EMPTY; BG_EMPTY; BG_EMPTY; TARGET]] |}.

Definition push_commands : list command :=
  [Move RIGHT; Move RIGHT; Move RIGHT; Undo; Move LEFT].

(** Where the commands lead. *)
Definition push_end : Game * Store :=
  Eval vm_compute in
    match run push_commands (Game_init push_state) push_store with
    | Ok r => r
    | Raise _ => (Game_init push_state, push_store)
    end.

(** The player facing two boxes in a row. *)
Definition two_boxes : string := text_of_lines ["1 4"; "pxx."; "...."].

Definition two_boxes_state : State :=
  {| length := 1; width := 4; tiles := [0%nat]; background := [0%nat] |}.

Definition two_boxes_store : Store :=
  {| tile_rows := [[PLAYER; BOX; BOX; EMPTY]];
     bg_rows := [[BG_EMPTY; BG_EMPTY; BG_EMPTY; BG_EMPTY]] |}.

(** Two players side by side. *)
Definition two_players : string := text_of_lines ["1 3"; "pp."; "..."].

Definition two_players_state : State :=
  {| length := 1; width := 3; tiles := [0%nat]; background := [0%nat] |}.

Definition two_players_store : Store :=
  {| tile_rows := [[PLAYER; PLAYER; EMPTY]]; bg_rows := [[BG_EMPTY; BG_EMPTY; BG_EMPTY]] |}.

(** A grid without a player. *)
Definition no_player_state : State :=
  {| length := 1; width := 2; tiles := [0%nat]; background := [0%nat] |}.

Definition no_player_store : Store :=
  {| tile_rows := [[BOX; EMPTY]]; bg_rows := [[BG_EMPTY; TARGET]] |}.

(** A level whose second tile row is shorter than its first. *)
Definition ragged : string := text_of_lines ["2 2"; "p."; "."; ".."; ".."].

Definition ragged_state : State :=
  {| length := 2; width := 2; tiles := [0; 1]%nat; background := [0; 1]%nat |}.

Definition ragged_game : Game := Game_init ragged_state.

Definition ragged_store : Store :=
  {| tile_rows := [[PLAYER; EMPTY]; [EMPTY]];
     bg_rows := [[BG_EMPTY; BG_EMPTY]; [BG_EMPTY; BG_EMPTY]] |}.

(** The ragged level under a header that announces seven columns. *)
Definition ragged_wide : string := text_of_lines ["2 7"; "p."; "."; ".."; ".."].

(** A header that announces one row of five tiles and one row of five
    markings, followed by a single row of two tiles. *)
Definition short_level : string := text_of_lines ["1 5"; "p."].




(** ** Printing a state *)

(** [Tile.name]: the [match] covers every member of the enumeration, so
    its last case, which raises, is never taken. *)
Definition Tile_name (self : Tile) : string :=
  match self with
  | EMPTY => "."
  | PLAYER => "p"
  | WALL => "#"
  | BOX => "x"
  end.

(** [BackgroundTile.name] *)
Definition BackgroundTile_name (self : BackgroundTile) : string :=
  match self with
  | BG_EMPTY => "."
  | TARGET => "o"
  end.

(** [zip2(xs, ys)], that is [map(zip, xs, ys)]: both [map] and [zip] stop
    at the shorter of their arguments. *)
Definition zip2 {A B : Type} (xs : list (list A)) (ys : list (list B)) : list (list (A * B)) :=
  zip_with zip xs ys.

(** [State.print_tile] *)
Definition print_tile (tile : Tile) (background_tile : BackgroundTile) : string :=
  if bool_decide (tile = EMPTY) then BackgroundTile_name background_tile
  else Tile_name tile.

(** [sep.join(ls)] *)
Fixpoint str_join (sep : string) (ls : list string) : string :=
  match ls with
  | [] => EmptyString
  | [a] => a
  | a :: ls' => (a ++ sep ++ str_join sep ls')%string
  end.

(** The line [__str__] makes of one zipped row. *)
Definition print_row (row : list (Tile * BackgroundTile)) : string :=
  str_join EmptyString ((λ xs, print_tile xs.1 xs.2) <$> row).

(** [State.__str__], on the rows that the two layers name. *)
Definition State_str (self : State) (σ : Store) : result string :=
  tiles <- rmap (read_row (tile_rows σ)) (tiles self) ;;
  background <- rmap (read_row (bg_rows σ)) (background self) ;;
  Ok (str_join (String (ascii_of_nat 10) EmptyString)
        (print_row <$> zip2 tiles background)).

(** The line feed. *)
Definition nl : string := String (ascii_of_nat 10) EmptyString.

(** What [__str__] shows for a tile line and a background line of a level
    text: the tile character, or the background character under a dot. *)
Definition merge_lines (tile_line background_line : string) : string :=
  string_of_list_ascii
    (zip_with (λ c d, if bool_decide (c = "."%char) then d else c)
       (chars tile_line) (chars background_line)).

(** ** Further example grids *)

(** The player in front of a wall, in a room two cells wide. *)
Definition cell_state : State :=
  {| length := 1; width := 2; tiles := [0%nat]; background := [0%nat] |}.

Definition cell_store : Store :=
  {| tile_rows := [[PLAYER; WALL]]; bg_rows := [[BG_EMPTY; BG_EMPTY]] |}.

(** A box between the player and the only target. *)
Definition goal_state : State :=
  {| length := 1; width := 3; tiles := [0%nat]; background := [0%nat] |}.

Definition goal_store : Store :=
  {| tile_rows := [[PLAYER; BOX; EMPTY]]; bg_rows := [[BG_EMPTY; BG_EMPTY; TARGET]] |}.

(** ** Steps of a player *)

(** [keeps P]: a step of a player that [move_player] carries out keeps
    the property [P] of the grid it is made in. *)
Definition keeps (P : Grid → Prop) : Prop :=
  ∀ (c : State) (p d : Vector2) (σ : Store) (h' : list (list Tile)),
    allocated σ c → NoDup (tiles c) →
    is_inbounds c p = true → access p (tiles c) (tile_rows σ) = Ok PLAYER →
    move_player c p d (tile_rows σ) = Ok (true, h') →
    P (view σ c) → P (view {| tile_rows := h'; bg_rows := bg_rows σ |} c).

(** A history every snapshot of which is allocated, has no row twice and
    holds a grid with the property [P]. *)
Definition holds (P : Grid → Prop) (σ : Store) (g : Game) : Prop :=
  Forall (λ st, allocated σ st ∧ NoDup (tiles st) ∧ P (view σ st)) (state g).

(** What a step of the player from [p] in direction [d] leaves at [q],
    where [t] was ahead of the player and [before] tells what the cells
    held. *)
Definition after_step (p d : Vector2) (t : Tile) (before : Vector2 → result Tile)
    (q : Vector2) : result Tile :=
  if decide (q = Vector2_add p d) then Ok PLAYER
  else if decide (q = p) then Ok EMPTY
  else if decide (t = BOX ∧ q = Vector2_add (Vector2_add p d) d) then Ok BOX
  else before q.

(** The player at [p] has room in direction [d]: the cell ahead is in the
    grid and no wall, and if it holds a box, the cell behind the box is in
    the grid and holds neither a wall nor a box. *)
Definition has_room (self : State) (h : list (list Tile)) (p d : Vector2) (t : Tile) : Prop :=
  is_inbounds self (Vector2_add p d) = true ∧
  access (Vector2_add p d) (tiles self) h = Ok t ∧ t ≠ WALL ∧
  (t = BOX →
   is_inbounds self (Vector2_add (Vector2_add p d) d) = true ∧
   ∃ u, access (Vector2_add (Vector2_add p d) d) (tiles self) h = Ok u ∧
        u ≠ WALL ∧ u ≠ BOX).

(** The number of players a grid holds. *)
Definition players (σ : Store) (self : State) : nat :=
  count_tile PLAYER (g_tiles (view σ self)).

(** ** The renderer

    What the renderer does is a sequence of calls on the display. A
    computation that draws returns the calls it made, in order, together
    with its result; the calls made before an exception stay made. *)

Inductive image : Type :=
  groundImg | crateImg | playerImg | wallImg | targetImg | solvedImg.

Inductive call : Type :=
  | fill (r g b : Z)
  | blit (img : image) (px py : Z)
  | update.

Definition drawn (A : Type) : Type := list call * result A.

Definition dret {A : Type} (a : A) : drawn A := ([], Ok a).

Definition dbind {A B : Type} (m : drawn A) (k : A → drawn B) : drawn B :=
  match m.2 with
  | Ok a => (m.1 ++ (k a).1, (k a).2)
  | Raise e => (m.1, Raise e)
  end.

Notation "x <~ m ;; k" := (dbind m (fun x => k))
  (at level 100, m at next level, right associativity).

Definition emit (c : call) : drawn unit := ([c], Ok tt).

Definition lift {A : Type} (r : result A) : drawn A := ([], r).

(** A [for] loop whose body draws. *)
Fixpoint dfor {A : Type} (xs : list A) (body : A → drawn unit) : drawn unit :=
  match xs with
  | [] => dret tt
  | a :: xs' => _ <~ body a ;; dfor xs' body
  end.

Definition cell_size : Z := 80.

(** The window [Renderer.__init__] opens. *)
Record Renderer : Type := mkRenderer { screen_x : Z; screen_y : Z }.

Definition Renderer_init (state : State) : Renderer :=
  {| screen_y := cell_size * length state; screen_x := cell_size * width state |}.

(** The body of the loop of [update_state]; each test of the chain reads
    the cell anew. *)
Definition draw_cell (state : State) (σ : Store) (p : Vector2) : drawn unit :=
  let py := cell_size * x p in
  let px := cell_size * y p in
  t <~ lift (access p (tiles state) (tile_rows σ)) ;;
  if bool_decide (t = WALL) then emit (blit wallImg px py) else
  t <~ lift (access p (tiles state) (tile_rows σ)) ;;
  if bool_decide (t = EMPTY) then
    _ <~ emit (blit groundImg px py) ;;
    b <~ lift (access p (background state) (bg_rows σ)) ;;
    if bool_decide (b = TARGET) then emit (blit targetImg px py) else dret tt
  else
  t <~ lift (access p (tiles state) (tile_rows σ)) ;;
  if bool_decide (t = BOX) then
    b <~ lift (access p (background state) (bg_rows σ)) ;;
    _ <~ (if bool_decide (b = BG_EMPTY) then emit (blit crateImg px py) else dret tt) ;;
    b <~ lift (access p (background state) (bg_rows σ)) ;;
    if bool_decide (b = TARGET) then emit (blit solvedImg px py) else dret tt
  else
  t <~ lift (access p (tiles state) (tile_rows σ)) ;;
  if bool_decide (t = PLAYER) then emit (blit playerImg px py) else dret tt.

(** [Renderer.update_state] *)
Definition update_state (state : State) (σ : Store) : drawn unit :=
  _ <~ emit (fill 50 50 50) ;;
  _ <~ dfor (positions state) (draw_cell state σ) ;;
  emit update.

(** ** Grids by value *)

(** [rows[p.x][p.y] = val] on a grid given by value. *)
Definition grid_set {A : Type} (rows : list (list A)) (p : Vector2) (val : A)
    : result (list (list A)) :=
  match norm_index (List.length rows) (x p) with
  | Some k =>
      row <- getitem rows (x p) ;;
      row' <- setitem row (y p) val ;;
      Ok (<[k := row']> rows)
  | None => Raise IndexError
  end.

(** Two states, each in its heap, that hold the same tile grid in rows of
    their own. *)
Definition alike (s1 : State) (h1 : list (list Tile)) (s2 : State) (h2 : list (list Tile))
    : Prop :=
  length s1 = length s2 ∧ width s1 = width s2 ∧
  NoDup (tiles s1) ∧ NoDup (tiles s2) ∧
  Forall (λ l, (l < List.length h1)%nat) (tiles s1) ∧
  Forall (λ l, (l < List.length h2)%nat) (tiles s2) ∧
  rows_at h1 (tiles s1) = rows_at h2 (tiles s2).

(** Two outcomes of the movement engine that agree: the same exception, or
    the same boolean and heaps that hold the same grid. *)
Definition alike_result (s1 s2 : State) (r1 r2 : result (bool * list (list Tile))) : Prop :=
  match r1, r2 with
  | Ok o1, Ok o2 => o1.1 = o2.1 ∧ alike s1 o1.2 s2 o2.2
  | Raise e1, Raise e2 => e1 = e2
  | _, _ => False
  end.

(** * Properties *)

(** ** Results *)

Lemma rbind_Ok {A B : Type} (m : result A) (k : A → result B) (b : B) :
  rbind m k = Ok b ↔ ∃ a, m = Ok a ∧ k a = Ok b.
Proof.
  destruct m as [a|e]; simpl; split.
  - intros H. by exists a.
  - by intros (a' & [= ->] & H).
  - done.
  - by intros (a' & [=] & _).
Qed.

Ltac inv_bind H :=
  let a := fresh "a" in
  let E := fresh "E" in
  apply rbind_Ok in H as (a & E & H).

(** ** Sequences *)

Section sequences.
Context {A : Type}.

Lemma norm_index_Some (n : nat) (i : Z) (k : nat) :
  norm_index n i = Some k → (k < n)%nat ∧ (0 ≤ i → k = Z.to_nat i).
Proof.
  unfold norm_index. repeat case_bool_decide; intros [= <-]; split; lia.
Qed.

Lemma norm_index_nonneg (n : nat) (i : Z) :
  0 ≤ i < Z.of_nat n → norm_index n i = Some (Z.to_nat i).
Proof. intros H. unfold norm_index. by rewrite bool_decide_eq_true_2. Qed.

Lemma getitem_Ok (l : list A) (i : Z) (a : A) :
  getitem l i = Ok a ↔ ∃ k, norm_index (List.length l) i = Some k ∧ l !! k = Some a.
Proof.
  unfold getitem. destruct (norm_index _ i) as [k|].
  - destruct (l !! k) as [a'|] eqn:E; split.
    + intros [= ->]. by exists k.
    + intros (k' & [= <-] & Hk). congruence.
    + done.
    + intros (k' & [= <-] & Hk). congruence.
  - split; [done|]. by intros (k & [=] & _).
Qed.

Lemma getitem_nonneg (l : list A) (i : Z) (a : A) :
  0 ≤ i → getitem l i = Ok a ↔ l !! Z.to_nat i = Some a.
Proof.
  intros Hi. rewrite getitem_Ok. split.
  - intros (k & Hk & Ha). apply norm_index_Some in Hk as [_ Hk]. by rewrite <- Hk.
  - intros Ha. exists (Z.to_nat i). split; [|done].
    apply norm_index_nonneg. apply lookup_lt_Some in Ha. lia.
Qed.

Lemma getitem_last (l : list A) (a : A) : getitem (l ++ [a]) (-1) = Ok a.
Proof.
  apply getitem_Ok. exists (List.length l). split.
  - unfold norm_index. rewrite length_app. cbn [List.length].
    rewrite bool_decide_eq_false_2 by lia. rewrite bool_decide_eq_true_2 by lia.
    f_equal. lia.
  - by rewrite lookup_app_r, Nat.sub_diag.
Qed.

Lemma getitem_last_Ok (l : list A) (a : A) :
  getitem l (-1) = Ok a ↔ ∃ l', l = l' ++ [a].
Proof.
  split.
  - intros (k & Hk & Ha)%getitem_Ok.
    unfold norm_index in Hk. repeat case_bool_decide; try lia; [|done].
    injection Hk as <-.
    destruct l as [|b l _] using rev_ind; [done|]. exists l.
    rewrite length_app in Ha. cbn [List.length] in Ha.
    replace (Z.to_nat _) with (List.length l + 0)%nat in Ha by lia.
    rewrite lookup_app_r in Ha by lia.
    replace (_ - _)%nat with 0%nat in Ha by lia. simpl in Ha. congruence.
  - intros [l' ->]. apply getitem_last.
Qed.

Lemma setitem_Ok (l : list A) (i : Z) (v : A) (l' : list A) :
  setitem l i v = Ok l' ↔ ∃ k, norm_index (List.length l) i = Some k ∧ l' = <[k := v]> l.
Proof.
  unfold setitem. destruct (norm_index _ i) as [k|]; split.
  - intros [= <-]. by exists k.
  - by intros (k' & [= <-] & ->).
  - done.
  - by intros (k' & [=] & _).
Qed.

Lemma elem_of_range (n z : Z) : z ∈ range n ↔ 0 ≤ z < n.
Proof.
  unfold range. rewrite list_elem_of_fmap. split.
  - intros (k & -> & Hk). apply elem_of_seq in Hk. lia.
  - intros Hz. exists (Z.to_nat z). split; [lia|]. apply elem_of_seq. lia.
Qed.

End sequences.

(** ** Reading and writing a cell *)

Section cells.
Context {A : Type}.

Lemma read_row_Ok (h : list (list A)) (l : loc) (row : list A) :
  read_row h l = Ok row ↔ h !! l = Some row.
Proof. unfold read_row. destruct (h !! l); split; congruence. Qed.

Lemma access_Ok (p : Vector2) (a : list loc) (h : list (list A)) (t : A) :
  access p a h = Ok t ↔
  ∃ l row, getitem a (x p) = Ok l ∧ h !! l = Some row ∧ getitem row (y p) = Ok t.
Proof.
  unfold access. rewrite rbind_Ok. setoid_rewrite rbind_Ok.
  setoid_rewrite read_row_Ok. split.
  - intros (l & Hl & row & Hrow & Ht). by exists l, row.
  - intros (l & row & Hl & Hrow & Ht). exists l. split; [done|]. by exists row.
Qed.

Lemma set_Ok (p : Vector2) (a : list loc) (v : A) (h h' : list (list A)) :
  set p a v h = Ok h' ↔
  ∃ l row k, getitem a (x p) = Ok l ∧ h !! l = Some row ∧
             norm_index (List.length row) (y p) = Some k ∧
             h' = <[l := <[k := v]> row]> h.
Proof.
  unfold set. rewrite rbind_Ok. setoid_rewrite rbind_Ok. setoid_rewrite rbind_Ok.
  setoid_rewrite read_row_Ok. setoid_rewrite setitem_Ok. split.
  - intros (l & Hl & row & Hrow & row' & (k & Hk & ->) & [= <-]). by exists l, row, k.
  - intros (l & row & k & Hl & Hrow & Hk & ->).
    exists l. split; [done|]. exists row. split; [done|].
    exists (<[k:=v]> row). split; [|done]. by exists k.
Qed.

(** A write succeeds exactly where a read does. *)
Lemma set_after_access (p : Vector2) (a : list loc) (v t : A) (h : list (list A)) :
  access p a h = Ok t → ∃ h', set p a v h = Ok h'.
Proof.
  intros (l & row & Hl & Hrow & (k & Hk & _)%getitem_Ok)%access_Ok.
  eexists. apply set_Ok. by exists l, row, k.
Qed.

End cells.

(** ** Frames: a write touches one row of the layer and keeps every size *)

Section frames.
Context {A : Type}.

Lemma frame_refl (ls : list loc) (h : list (list A)) : frame ls h h.
Proof. by split. Qed.

Lemma frame_trans (ls : list loc) (h1 h2 h3 : list (list A)) :
  frame ls h1 h2 → frame ls h2 h3 → frame ls h1 h3.
Proof.
  intros [S1 F1] [S2 F2]. split; [congruence|].
  intros l Hl. by rewrite F2, F1.
Qed.

Lemma frame_length (ls : list loc) (h h' : list (list A)) :
  frame ls h h' → List.length h' = List.length h.
Proof. intros [S _]. apply (f_equal List.length) in S. by rewrite !length_fmap in S. Qed.

Lemma frame_row_length (ls : list loc) (h h' : list (list A)) (l : loc) :
  frame ls h h' → List.length <$> (h' !! l) = List.length <$> (h !! l).
Proof. intros [S _]. by rewrite <- !list_lookup_fmap, S. Qed.

Lemma set_frame (p : Vector2) (a : list loc) (v : A) (h h' : list (list A)) :
  set p a v h = Ok h' → frame a h h'.
Proof.
  intros (l & row & k & Hl & Hrow & Hk & ->)%set_Ok. split.
  - rewrite list_fmap_insert, length_insert.
    apply list_insert_id. by rewrite list_lookup_fmap, Hrow.
  - intros l' Hl'. apply list_lookup_insert_ne. intros ->. apply Hl'.
    apply getitem_Ok in Hl as (i & _ & Hi). by eapply list_elem_of_lookup_2.
Qed.

End frames.

(** ** The movement engine, case by case *)

(** With [CAN_MULTIPUSH] off, [move_box] never calls itself: it fails on
    an edge, a wall or a second box, and otherwise writes two cells. *)
Lemma move_box_unfold (depth : nat) (self : State) (box_pos direction : Vector2)
    (h : list (list Tile)) :
  move_box depth self box_pos direction h =
  let target := Vector2_add box_pos direction in
  if negb (is_inbounds self target) then Ok (false, h) else
  t <- access target (tiles self) h ;;
  if bool_decide (t = WALL) then Ok (false, h) else
  if bool_decide (t = BOX) then Ok (false, h) else
  h1 <- set box_pos (tiles self) EMPTY h ;;
  h2 <- set target (tiles self) BOX h1 ;;
  Ok (true, h2).
Proof.
  destruct depth; simpl; destruct (is_inbounds _ _); simpl; try done;
    destruct (access _ _ _) as [t|]; simpl; try done;
    destruct (bool_decide (t = WALL)); try done;
    destruct (bool_decide (t = BOX)); done.
Qed.

Lemma move_box_Ok (depth : nat) (self : State) (box_pos direction : Vector2)
    (h h' : list (list Tile)) (b : bool) :
  move_box depth self box_pos direction h = Ok (b, h') →
  (b = false ∧ h' = h) ∨
  (b = true ∧ is_inbounds self (Vector2_add box_pos direction) = true ∧
   ∃ t h1, access (Vector2_add box_pos direction) (tiles self) h = Ok t ∧
           t ≠ WALL ∧ t ≠ BOX ∧
           set box_pos (tiles self) EMPTY h = Ok h1 ∧
           set (Vector2_add box_pos direction) (tiles self) BOX h1 = Ok h').
Proof.
  rewrite move_box_unfold. cbv zeta.
  destruct (is_inbounds _ _) eqn:Hin; simpl; [|intros [= <- <-]; by left].
  intros H. inv_bind H.
  case_bool_decide as Hw; [injection H as <- <-; by left|].
  case_bool_decide as Hb; [injection H as <- <-; by left|].
  inv_bind H. inv_bind H. injection H as <- <-.
  right. split; [done|]. split; [done|]. by exists a, a0.
Qed.

Lemma move_player_Ok (self : State) (player_pos direction : Vector2)
    (h h' : list (list Tile)) (b : bool) :
  move_player self player_pos direction h = Ok (b, h') →
  (b = false ∧ h' = h) ∨
  (b = true ∧ is_inbounds self (Vector2_add player_pos direction) = true ∧
   ∃ t h0 h1, access (Vector2_add player_pos direction) (tiles self) h = Ok t ∧
     t ≠ WALL ∧
     (t ≠ BOX ∧ h0 = h ∨
      t = BOX ∧ move_box recursion_limit self (Vector2_add player_pos direction)
                  direction h = Ok (true, h0)) ∧
     set player_pos (tiles self) EMPTY h0 = Ok h1 ∧
     set (Vector2_add player_pos direction) (tiles self) PLAYER h1 = Ok h').
Proof.
  unfold move_player.
  destruct (is_inbounds _ _) eqn:Hin; cbn [negb]; [|intros [= <- <-]; by left].
  intros H. inv_bind H.
  case_bool_decide as Hw; [injection H as <- <-; by left|].
  inv_bind H. assert (a0 = a) as -> by congruence.
  case_bool_decide as Hb.
  - inv_bind H. destruct a0 as [pushed h0]. cbn [fst snd] in H.
    destruct pushed; cbn [negb] in H.
    + inv_bind H. inv_bind H. injection H as <- <-.
      right. split; [done|]. split; [done|]. exists a, h0, a0. split_and!; [done|done|by right|done|done].
    + injection H as <- <-. left.
      apply move_box_Ok in E1 as [[_ ->]|[? _]]; done.
  - inv_bind H. inv_bind H. injection H as <- <-.
    right. split; [done|]. split; [done|]. exists a, h, a0. split_and!; [done|done|by left|done|done].
Qed.

Lemma move_scan_Ok (state_copy : State) (direction : Vector2) (ps : list Vector2)
    (h h' : list (list Tile)) (b : bool) :
  move_scan state_copy direction ps h = Ok (b, h') →
  (b = false ∧ h' = h) ∨
  (b = true ∧ ∃ p, p ∈ ps ∧ access p (tiles state_copy) h = Ok PLAYER ∧
                   move_player state_copy p direction h = Ok (true, h')).
Proof.
  induction ps as [|p ps IH]; simpl.
  - intros [= <- <-]. by left.
  - intros H. inv_bind H. case_bool_decide as Hp.
    + subst a. inv_bind H. destruct a as [moved h1]. simpl in H.
      destruct moved.
      * injection H as <- <-. right. split; [done|].
        exists p. split; [left|]. done.
      * apply move_player_Ok in E0 as [[_ ->]|[? _]]; [|done].
        apply IH in H as [?|(? & q & ? & ?)]; [by left|].
        right. split; [done|]. exists q. split; [by right|done].
    + apply IH in H as [?|(? & q & ? & ?)]; [by left|].
      right. split; [done|]. exists q. split; [by right|done].
Qed.

Lemma move_box_frame (depth : nat) (self : State) (box_pos direction : Vector2)
    (h h' : list (list Tile)) (b : bool) :
  move_box depth self box_pos direction h = Ok (b, h') → frame (tiles self) h h'.
Proof.
  intros [[_ ->]|(_ & _ & t & h1 & _ & _ & _ & H1 & H2)]%move_box_Ok.
  - apply frame_refl.
  - eapply frame_trans; [eapply set_frame, H1|eapply set_frame, H2].
Qed.

Lemma move_player_frame (self : State) (player_pos direction : Vector2)
    (h h' : list (list Tile)) (b : bool) :
  move_player self player_pos direction h = Ok (b, h') → frame (tiles self) h h'.
Proof.
  intros [[_ ->]|(_ & _ & t & h0 & h1 & _ & _ & H0 & H1 & H2)]%move_player_Ok.
  - apply frame_refl.
  - eapply frame_trans; [|eapply frame_trans; [eapply set_frame, H1|eapply set_frame, H2]].
    destruct H0 as [[_ ->]|[_ H0]]; [apply frame_refl|eapply move_box_frame, H0].
Qed.

Lemma move_scan_frame (state_copy : State) (direction : Vector2) (ps : list Vector2)
    (h h' : list (list Tile)) (b : bool) :
  move_scan state_copy direction ps h = Ok (b, h') → frame (tiles state_copy) h h'.
Proof.
  intros [[_ ->]|(_ & p & _ & _ & H)]%move_scan_Ok.
  - apply frame_refl.
  - eapply move_player_frame, H.
Qed.

(** ** deepcopy *)

Lemma copy_inv_empty {A : Type} (b : nat) (h : list (list A)) : copy_inv b ∅ h.
Proof. split; intros *; by rewrite lookup_empty. Qed.

Lemma deepcopy_rows_Ok {A : Type} (b : nat) (ls : list loc) :
  ∀ (memo : gmap loc loc) (h : list (list A)) out memo' h',
    deepcopy_rows ls memo h = Ok (out, memo', h') →
    (b ≤ List.length h)%nat →
    copy_inv b memo h →
    h `prefix_of` h' ∧ copy_inv b memo' h' ∧ memo ⊆ memo' ∧
    Forall2 (λ l l', memo' !! l = Some l') ls out.
Proof.
  induction ls as [|l ls IH]; intros memo h out memo' h' H Hb Hinv; simpl in H.
  - injection H as <- <- <-. by split_and!.
  - destruct (memo !! l) as [l'|] eqn:Hl.
    + inv_bind H. destruct a as [[out1 memo1] h1]. injection H as <- <- <-.
      destruct (IH _ _ _ _ _ E Hb Hinv) as (Hp & Hi & Hm & Hf).
      split_and!; try done. constructor; [|done]. by eapply lookup_weaken.
    + inv_bind H. apply read_row_Ok in E. rename a into row.
      inv_bind H. destruct a as [[out1 memo1] h1]. injection H as <- <- <-.
      unfold alloc in E0. cbn [fst snd] in E0.
      assert (copy_inv b (<[l:=List.length h]> memo) (h ++ [row])) as Hinv1.
      { destruct Hinv as [Hv Hj]. pose proof (lookup_lt_Some _ _ _ E) as Hlt. split.
        - intros k k'. rewrite lookup_insert. case_decide as Hk.
          + intros [= <-]. subst k. rewrite length_app. cbn [List.length].
            split_and!; [lia|lia|lia|].
            rewrite lookup_app_r, Nat.sub_diag by lia.
            by rewrite lookup_app_l by lia.
          + intros Hk'. destruct (Hv _ _ Hk') as (? & ? & ?).
            rewrite length_app. cbn [List.length].
            split_and!; [lia|lia|lia|].
            by rewrite !lookup_app_l by lia.
        - intros l1 l2 k. rewrite !lookup_insert.
          repeat case_decide; try congruence.
          + intros [= <-] H2. apply Hv in H2. lia.
          + intros H1 [= <-]. apply Hv in H1. lia.
          + apply Hj. }
      assert (b ≤ List.length (h ++ [row]))%nat as Hb1.
      { rewrite length_app. lia. }
      destruct (IH _ _ _ _ _ E0 Hb1 Hinv1) as (Hp & Hi & Hm & Hf).
      split_and!.
      * etrans; [|exact Hp]. by apply prefix_app_r.
      * done.
      * etrans; [|exact Hm]. by apply insert_subseteq.
      * constructor; [|done]. eapply lookup_weaken; [|exact Hm].
        apply lookup_insert_eq.
Qed.

(** The copies of allocated rows: new locations, the same contents, and as
    many distinct ones as there were distinct rows. *)
Lemma deepcopy_rows_spec {A : Type} (ls : list loc) (h : list (list A)) out memo' h' :
  deepcopy_rows ls ∅ h = Ok (out, memo', h') →
  h `prefix_of` h' ∧
  Forall (λ l', (List.length h ≤ l' < List.length h')%nat) out ∧
  (Forall (λ l, (l < List.length h)%nat) ls → rows_at h' out = rows_at h ls) ∧
  (NoDup ls → NoDup out).
Proof.
  intros H.
  destruct (deepcopy_rows_Ok (List.length h) _ _ _ _ _ _ H) as (Hp & [Hv Hj] & _ & Hf);
    [lia|apply copy_inv_empty|].
  split_and!; [done|..].
  - clear H. induction Hf as [|l l' ls out Hl _ IH]; constructor; [|done].
    by apply Hv in Hl as (? & _).
  - intros Hall. unfold rows_at.
    clear H. induction Hf as [|l l' ls out Hl _ IH]; [done|].
    apply Forall_cons in Hall as [Hlt Hall]. cbn [fmap list_fmap]. f_equal; [|by apply IH].
    apply Hv in Hl as (_ & _ & ->). f_equal.
    destruct (lookup_lt_is_Some_2 h l Hlt) as [row Hrow].
    rewrite Hrow. by eapply prefix_lookup_Some.
  - clear H. induction Hf as [|l l' ls out Hl Hf IH]; [constructor|].
    intros [Hnin Hnd]%NoDup_cons. apply NoDup_cons. split; [|by apply IH].
    intros Hin. apply Hnin.
    apply list_elem_of_lookup in Hin as [i Hi].
    destruct (Forall2_lookup_r _ _ _ _ _ Hf Hi) as (l2 & Hl2 & Hm).
    rewrite (Hj _ _ _ Hl Hm). by eapply list_elem_of_lookup_2.
Qed.

Lemma deepcopy_rows_total {A : Type} (ls : list loc) :
  ∀ (memo : gmap loc loc) (h : list (list A)),
    Forall (λ l, (l < List.length h)%nat) ls →
    ∃ r, deepcopy_rows ls memo h = Ok r.
Proof.
  induction ls as [|l ls IH]; intros memo h Hall; simpl; [by eexists|].
  apply Forall_cons in Hall as [Hlt Hall].
  destruct (memo !! l) as [l'|].
  - destruct (IH memo h Hall) as [r ->]. by eexists.
  - destruct (lookup_lt_is_Some_2 h l Hlt) as [row Hrow].
    unfold read_row. rewrite Hrow. cbn [rbind]. cbv zeta.
    destruct (IH (<[l:=List.length h]> memo) (h ++ [row])) as [r ->]; [|by eexists].
    rewrite length_app.
    eapply Forall_impl; [exact Hall|]. intros; simpl in *; lia.
Qed.

(** ** Stores that grow *)

Lemma prefix_of_lookups {A : Type} (l k : list A) :
  (List.length l ≤ List.length k)%nat →
  (∀ i, (i < List.length l)%nat → k !! i = l !! i) →
  l `prefix_of` k.
Proof.
  intros Hlen Hi. exists (drop (List.length l) k). apply list_eq. intros i.
  destruct (decide (i < List.length l)%nat) as [Hlt|Hge].
  - rewrite lookup_app_l by done. by apply Hi.
  - rewrite lookup_app_r by lia. rewrite lookup_drop. f_equal. lia.
Qed.

Lemma frame_prefix {A : Type} (ls : list loc) (h0 h h' : list (list A)) :
  h0 `prefix_of` h → frame ls h h' →
  Forall (λ l, (List.length h0 ≤ l)%nat) ls →
  h0 `prefix_of` h'.
Proof.
  intros Hp Hf Hls. pose proof (prefix_length _ _ Hp) as Hlen.
  apply prefix_of_lookups.
  - by rewrite (frame_length _ _ _ Hf).
  - intros i Hi. destruct Hf as [_ Hf]. rewrite Hf.
    + destruct (lookup_lt_is_Some_2 h0 i Hi) as [row Hrow].
      rewrite Hrow. by eapply prefix_lookup_Some.
    + intros Hin. rewrite Forall_forall in Hls. apply Hls in Hin. lia.
Qed.

Lemma rows_at_prefix {A : Type} (h h' : list (list A)) (ls : list loc) :
  h `prefix_of` h' → Forall (λ l, (l < List.length h)%nat) ls →
  rows_at h' ls = rows_at h ls.
Proof.
  intros Hp Hls. unfold rows_at. apply Forall_fmap_ext_1.
  eapply Forall_impl; [exact Hls|]. intros l Hl. cbv beta in *.
  destruct (lookup_lt_is_Some_2 h l Hl) as [row Hrow].
  rewrite Hrow. by rewrite (prefix_lookup_Some _ _ _ _ Hrow Hp).
Qed.

Lemma rows_at_frame {A : Type} (ls' ls : list loc) (h h' : list (list A)) :
  frame ls' h h' → (∀ l, l ∈ ls → l ∉ ls') → rows_at h' ls = rows_at h ls.
Proof.
  intros [_ Hf] Hd. unfold rows_at. apply Forall_fmap_ext_1.
  apply Forall_forall. intros l Hl. by rewrite Hf by auto.
Qed.

Global Instance extends_preorder : PreOrder extends.
Proof.
  split.
  - by intros σ.
  - intros σ1 σ2 σ3 [? ?] [? ?]. split; by etrans.
Qed.

Lemma extends_allocated (σ σ' : Store) (self : State) :
  extends σ σ' → allocated σ self → allocated σ' self.
Proof.
  intros [Ht Hb] [At Ab]. apply prefix_length in Ht, Hb.
  split; (eapply Forall_impl; [eassumption|]); intros; simpl in *; lia.
Qed.

(** A snapshot reads the same in every store that extends the one it was
    allocated in. *)
Lemma extends_view (σ σ' : Store) (self : State) :
  extends σ σ' → allocated σ self → view σ' self = view σ self.
Proof.
  intros [Ht Hb] [At Ab]. unfold view. f_equal; by apply rows_at_prefix.
Qed.

Lemma deepcopy_Ok (self : State) (σ : Store) (c : State) (σ1 : Store) :
  deepcopy self σ = Ok (c, σ1) →
  extends σ σ1 ∧
  length c = length self ∧ width c = width self ∧
  Forall (λ l, (List.length (tile_rows σ) ≤ l < List.length (tile_rows σ1))%nat) (tiles c) ∧
  Forall (λ l, (List.length (bg_rows σ) ≤ l < List.length (bg_rows σ1))%nat) (background c) ∧
  (allocated σ self → view σ1 c = view σ self) ∧
  (NoDup (tiles self) → NoDup (tiles c)) ∧
  (NoDup (background self) → NoDup (background c)).
Proof.
  unfold deepcopy. intros H. inv_bind H. inv_bind H.
  destruct a as [[ts mt] ht], a0 as [[bs mb] hb]. injection H as <- <-.
  apply deepcopy_rows_spec in E as (Pt & Ft & Vt & Nt).
  apply deepcopy_rows_spec in E0 as (Pb & Fb & Vb & Nb).
  split_and!; try done.
  intros [At Ab]. unfold view; cbn. f_equal; auto.
Qed.

Lemma deepcopy_total (self : State) (σ : Store) :
  allocated σ self → ∃ c σ1, deepcopy self σ = Ok (c, σ1).
Proof.
  intros [At Ab]. unfold deepcopy.
  destruct (deepcopy_rows_total (tiles self) ∅ _ At) as [ts ->].
  destruct (deepcopy_rows_total (background self) ∅ _ Ab) as [bs ->].
  cbn. by eexists _, _.
Qed.

(** ** Game.move *)

Lemma Game_move_Ok (g : Game) (d : Vector2) (σ : Store) (b : bool) (g' : Game) (σ' : Store) :
  Game_move g d σ = Ok (b, g', σ') →
  ∃ cur c σ1,
    current g = Ok cur ∧ deepcopy cur σ = Ok (c, σ1) ∧
    move_scan c d (positions c) (tile_rows σ1) = Ok (b, tile_rows σ') ∧
    bg_rows σ' = bg_rows σ1 ∧
    g' = (if b then {| state := state g ++ [c] |} else g).
Proof.
  unfold Game_move, current. intros H. inv_bind H. inv_bind H. inv_bind H.
  destruct a0 as [c σ1], a1 as [moved h]. cbn [fst snd] in *.
  exists a, c, σ1. destruct moved; injection H as <- <- <-; by split_and!.
Qed.

(** Whatever a move does, it does to rows allocated during the move. *)
Lemma Game_move_extends (g : Game) (d : Vector2) (σ : Store) (b : bool) (g' : Game)
    (σ' : Store) :
  Game_move g d σ = Ok (b, g', σ') → extends σ σ'.
Proof.
  intros (cur & c & σ1 & _ & Hc & Hs & Hbg & _)%Game_move_Ok.
  apply deepcopy_Ok in Hc as ([Pt Pb] & _ & _ & Ft & _).
  apply move_scan_frame in Hs. split.
  - eapply frame_prefix; [exact Pt|exact Hs|].
    eapply Forall_impl; [exact Ft|]. intros; simpl in *; lia.
  - by rewrite Hbg.
Qed.

Tactic Notation "bind_inv" hyp(H) "as" simple_intropattern(a) simple_intropattern(E) :=
  apply rbind_Ok in H as (a & E & H).

(** ** What [parse_level] builds *)

Lemma alloc_rows_spec {A : Type} (rows : list (list A)) :
  ∀ h, alloc_rows rows h = (seq (List.length h) (List.length rows), h ++ rows).
Proof.
  induction rows as [|row rows IH]; intros h; cbn [alloc_rows].
  - by rewrite app_nil_r.
  - rewrite IH. unfold alloc. cbn [fst snd List.length seq].
    rewrite length_app, <- app_assoc. cbn [List.length app].
    by rewrite Nat.add_1_r.
Qed.

Lemma rows_at_seq {A : Type} (h rows : list (list A)) :
  rows_at (h ++ rows) (seq (List.length h) (List.length rows)) = rows.
Proof.
  unfold rows_at. apply list_eq. intros i. rewrite list_lookup_fmap.
  destruct (rows !! i) as [row|] eqn:Hi.
  - rewrite (lookup_seq_lt _ _ _ (lookup_lt_Some _ _ _ Hi)). cbn.
    rewrite lookup_app_r by lia. replace (_ + i - _)%nat with i by lia. by rewrite Hi.
  - by rewrite (lookup_seq_ge _ _ _ (proj1 (lookup_ge_None _ _) Hi)).
Qed.

Lemma parse_level_Some (level_str : string) (σ0 : Store) (st : State) (σ : Store) :
  parse_level level_str σ0 = (Some st, σ) →
  ∃ line0 n w row0 trows brows,
    getitem (splitlines level_str) 0 = Ok line0 ∧
    parse_header line0 = Ok (n, w) ∧
    rmap (λ ln, rmap parse_tile (chars ln)) (slice (splitlines level_str) 1 (n + 1)) =
      Ok (row0 :: trows) ∧
    rmap (λ ln, rmap parse_background_tile (chars ln))
         (slice (splitlines level_str) (n + 1) (n * 2 + 1)) = Ok brows ∧
    st = {| length := Z.of_nat (List.length (row0 :: trows));
            width := Z.of_nat (List.length row0);
            tiles := seq (List.length (tile_rows σ0)) (List.length (row0 :: trows));
            background := seq (List.length (bg_rows σ0)) (List.length brows) |} ∧
    σ = {| tile_rows := tile_rows σ0 ++ row0 :: trows; bg_rows := bg_rows σ0 ++ brows |}.
Proof.
  unfold parse_level. destruct (parse_level_try _ _) as [[st' σ']|] eqn:H; [|done].
  intros [= -> ->]. unfold parse_level_try in H. cbv zeta in H.
  bind_inv H as line0 Hline0. bind_inv H as [n w] Hhd. cbn [fst snd] in H.
  bind_inv H as trows Ht. bind_inv H as brows Hb.
  rewrite !alloc_rows_spec in H. cbn [fst snd] in H.
  bind_inv H as st' Hst. injection H as <- <-.
  unfold State_init in Hst. bind_inv Hst as l0 Hl0. bind_inv Hst as r0 Hr0.
  injection Hst as <-. rewrite length_seq.
  destruct trows as [|row0 trows]; [done|]. cbn [List.length seq] in Hl0.
  apply getitem_nonneg in Hl0; [|done]. cbn in Hl0. injection Hl0 as <-.
  apply read_row_Ok in Hr0.
  rewrite lookup_app_r, Nat.sub_diag in Hr0 by done. injection Hr0 as <-.
  by exists line0, n, w, row0, trows, brows.
Qed.

Lemma parse_level_holds (level_str : string) (σ0 : Store) (st : State) (σ : Store) :
  parse_level level_str σ0 = (Some st, σ) →
  allocated σ st ∧ NoDup (tiles st) ∧ NoDup (background st).
Proof.
  intros (line0 & n & w & row0 & trows & brows & _ & _ & _ & _ & -> & ->)%parse_level_Some.
  cbn [tiles background]. split_and!; [split; cbn [tiles background tile_rows bg_rows]|..].
  - apply Forall_forall. intros l Hl%elem_of_seq. rewrite length_app. lia.
  - apply Forall_forall. intros l Hl%elem_of_seq. rewrite length_app. lia.
  - apply NoDup_seq.
  - apply NoDup_seq.
Qed.

Lemma parse_level_separated (level_str : string) (σ0 : Store) (st : State) (σ : Store) :
  parse_level level_str σ0 = (Some st, σ) →
  separated (Game_init st) ∧ Forall (allocated σ) (state (Game_init st)).
Proof.
  intros (Ha & Nt & Nb)%parse_level_holds. unfold separated.
  cbn [Game_init state fmap list_fmap mjoin list_join]. rewrite !app_nil_r.
  split; [by split|]. by constructor.
Qed.

(** ** A failed move *)

Lemma current_Ok (g : Game) (cur : State) :
  current g = Ok cur ↔ ∃ older, state g = older ++ [cur].
Proof. apply getitem_last_Ok. Qed.

Lemma current_elem_of (g : Game) (cur : State) : current g = Ok cur → cur ∈ state g.
Proof. intros [older ->]%current_Ok. set_solver. Qed.

(** C1. If [move(d)] returns false, the history is the same sequence of the
    same snapshots, and each of them, the current one included, holds the
    same grid as before the call. *)
Theorem move_false_unchanged (g : Game) (d : Vector2) (σ : Store) (g' : Game) (σ' : Store) :
  Forall (allocated σ) (state g) →
  Game_move g d σ = Ok (false, g', σ') →
  state g' = state g ∧
  view σ' <$> state g' = view σ <$> state g ∧
  ∃ cur, current g = Ok cur ∧ current g' = Ok cur ∧ view σ' cur = view σ cur.
Proof.
  intros Hall Hm. pose proof (Game_move_extends _ _ _ _ _ _ Hm) as Hext.
  apply Game_move_Ok in Hm as (cur & c & σ1 & Hcur & _ & _ & _ & ->).
  split; [done|]. split.
  - apply Forall_fmap_ext_1. eapply Forall_impl; [exact Hall|].
    intros st Hst. by apply extends_view.
  - exists cur. split_and!; [done|done|]. apply extends_view; [done|].
    rewrite Forall_forall in Hall. by apply Hall, current_elem_of.
Qed.

Lemma move_false_unchanged_witness :
  start corridor = Some (corridor_game, corridor_store) ∧
  Forall (allocated corridor_store) (state corridor_game) ∧
  ∃ σ', Game_move corridor_game LEFT corridor_store = Ok (false, corridor_game, σ') ∧
        view σ' <$> state corridor_game = view corridor_store <$> state corridor_game.
Proof.
  split; [reflexivity|]. split.
  - repeat constructor.
  - eexists. split; [reflexivity|].
    eapply (move_false_unchanged corridor_game LEFT corridor_store).
    + repeat constructor.
    + reflexivity.
Defined.

(** ** Undo *)

Lemma Game_undo_last (older : list State) (s : State) :
  older ≠ [] → Game_undo {| state := older ++ [s] |} = (true, {| state := older |}).
Proof.
  intros Hne. unfold Game_undo. cbn [state].
  rewrite bool_decide_eq_true_2.
  - by rewrite removelast_last.
  - rewrite length_app. cbn [List.length]. destruct older; [done|]. cbn [List.length]. lia.
Qed.

Lemma Game_undo_initial (s : State) : Game_undo (Game_init s) = (false, Game_init s).
Proof. reflexivity. Qed.

Lemma undo_times_app (older newer : list State) :
  older ≠ [] →
  undo_times (List.length newer) {| state := older ++ newer |} =
  (replicate (List.length newer) true, {| state := older |}).
Proof.
  intros Hne. induction newer as [|s newer IH] using rev_ind.
  - by rewrite app_nil_r.
  - rewrite length_app, Nat.add_comm. cbn [List.length Nat.add undo_times].
    rewrite app_assoc, Game_undo_last by (by destruct older).
    cbn [fst snd]. by rewrite IH.
Qed.

Lemma moved_state (ds : list Vector2) :
  ∀ g σ g' σ', moved ds g σ g' σ' →
    extends σ σ' ∧
    ∃ newer, state g' = state g ++ newer ∧ List.length newer = List.length ds.
Proof.
  induction ds as [|d ds IH]; intros g σ g' σ'; cbn [moved].
  - intros [-> ->]. split; [done|]. exists []. by rewrite app_nil_r.
  - intros (g1 & σ1 & Hm & Hrest).
    pose proof (Game_move_extends _ _ _ _ _ _ Hm) as Hext.
    apply Game_move_Ok in Hm as (cur & c & σ2 & _ & _ & _ & _ & ->).
    apply IH in Hrest as (Hext' & newer & Hst & Hlen). split; [by etrans|].
    exists (c :: newer). cbn [state] in Hst. rewrite Hst, <- app_assoc.
    split; [done|]. cbn [List.length]. by rewrite Hlen.
Qed.

(** C4. After [k] successful moves from the initial state, [k] calls of
    [undo] all return true and leave the history holding the initial
    snapshot alone, whose grid is the one it held at the start; one more
    [undo] returns false and changes nothing. *)
Theorem undo_restores_initial (initial_state : State) (σ : Store) (ds : list Vector2)
    (g' : Game) (σ' : Store) :
  allocated σ initial_state →
  moved ds (Game_init initial_state) σ g' σ' →
  undo_times (List.length ds) g' =
    (replicate (List.length ds) true, Game_init initial_state) ∧
  current (Game_init initial_state) = Ok initial_state ∧
  view σ' initial_state = view σ initial_state ∧
  Game_undo (Game_init initial_state) = (false, Game_init initial_state).
Proof.
  intros Halloc (Hext & newer & Hst & Hlen)%moved_state.
  split_and!.
  - destruct g' as [sts]. cbn [state Game_init] in Hst. subst sts.
    rewrite <- Hlen. by apply undo_times_app.
  - reflexivity.
  - by apply extends_view.
  - apply Game_undo_initial.
Qed.

Lemma undo_restores_initial_witness :
  allocated corridor_store corridor_state ∧
  moved [RIGHT; LEFT] corridor_game corridor_store corridor_walked.1 corridor_walked.2 ∧
  undo_times 2 corridor_walked.1 = ([true; true], corridor_game) ∧
  view corridor_walked.2 corridor_state = view corridor_store corridor_state ∧
  Game_undo corridor_game = (false, corridor_game).
Proof.
  assert (allocated corridor_store corridor_state) as Halloc by repeat constructor.
  assert (moved [RIGHT; LEFT] corridor_game corridor_store
            corridor_walked.1 corridor_walked.2) as Hmoved.
  { exists corridor_stepped, corridor_stepped_store. split; [vm_compute; reflexivity|].
    exists corridor_walked.1, corridor_walked.2. split; [vm_compute; reflexivity|].
    split; reflexivity. }
  destruct (undo_restores_initial corridor_state corridor_store [RIGHT; LEFT] _ _
              Halloc Hmoved) as (Hu & _ & Hv & Hlast).
  split_and!; [exact Halloc|exact Hmoved|exact Hu|exact Hv|exact Hlast].
Defined.

(** ** Snapshots share no row *)

Lemma NoDup_join_elem {A : Type} (ls : list (list A)) (l : list A) :
  NoDup (mjoin ls) → l ∈ ls → NoDup l.
Proof.
  induction ls as [|k ls IH]; [by intros _ ?%elem_of_nil|].
  cbn [mjoin list_join]. intros (Hk & _ & Hls)%NoDup_app [->|Hin]%elem_of_cons; auto.
Qed.

Lemma NoDup_join_disjoint {A : Type} (ls : list (list A)) :
  ∀ (i j : nat) (a b : list A) (x : A),
    NoDup (mjoin ls) → i ≠ j → ls !! i = Some a → ls !! j = Some b →
    x ∈ a → x ∉ b.
Proof.
  induction ls as [|k ls IH]; intros i j a b x'; [done|].
  cbn [mjoin list_join]. intros (Hk & Hd & Hls)%NoDup_app Hij Hi Hj Ha Hb.
  destruct i as [|i], j as [|j]; simplify_eq/=.
  - apply (Hd x' Ha). apply list_elem_of_join. exists b. split; [done|].
    by eapply list_elem_of_lookup_2.
  - apply (Hd x' Hb). apply list_elem_of_join. exists a. split; [done|].
    by eapply list_elem_of_lookup_2.
  - eapply (IH i j a b x'); eauto.
Qed.

Lemma separated_older (older newer : list State) :
  separated {| state := older ++ newer |} → separated {| state := older |}.
Proof.
  unfold separated. cbn [state]. rewrite !fmap_app, !join_app.
  intros [(? & _)%NoDup_app (? & _)%NoDup_app]. by split.
Qed.

Lemma Game_undo_state (g : Game) : ∃ newer, state g = state (Game_undo g).2 ++ newer.
Proof.
  unfold Game_undo. case_bool_decide as Hlen; cbn [snd state].
  - exists [List.last (state g) (mkState 0 0 [] [])]. apply app_removelast_last.
    by destruct (state g).
  - exists []. by rewrite app_nil_r.
Qed.

Lemma allocated_tiles_lt (σ : Store) (sts : list State) (l : nat) :
  Forall (allocated σ) sts → l ∈ mjoin (tiles <$> sts) →
  (l < List.length (tile_rows σ))%nat.
Proof.
  intros Hall (ls & Hl & (st & -> & Hst)%list_elem_of_fmap)%list_elem_of_join.
  rewrite Forall_forall in Hall. destruct (Hall _ Hst) as [At _].
  rewrite Forall_forall in At. by apply At.
Qed.

Lemma allocated_background_lt (σ : Store) (sts : list State) (l : nat) :
  Forall (allocated σ) sts → l ∈ mjoin (background <$> sts) →
  (l < List.length (bg_rows σ))%nat.
Proof.
  intros Hall (ls & Hl & (st & -> & Hst)%list_elem_of_fmap)%list_elem_of_join.
  rewrite Forall_forall in Hall. destruct (Hall _ Hst) as [_ Ab].
  rewrite Forall_forall in Ab. by apply Ab.
Qed.

(** A successful move appends one snapshot, made of rows that no earlier
    snapshot has. *)
Lemma Game_move_separated (g : Game) (d : Vector2) (σ : Store) (g' : Game) (σ' : Store) :
  separated g → Forall (allocated σ) (state g) →
  Game_move g d σ = Ok (true, g', σ') →
  ∃ cur c σ1,
    current g = Ok cur ∧ deepcopy cur σ = Ok (c, σ1) ∧ view σ1 c = view σ cur ∧
    state g' = state g ++ [c] ∧ separated g' ∧ Forall (allocated σ') (state g').
Proof.
  intros [St Sb] Hall Hm. pose proof (Game_move_extends _ _ _ _ _ _ Hm) as Hext.
  apply Game_move_Ok in Hm as (cur & c & σ1 & Hcur & Hc & Hs & Hbg & ->).
  exists cur, c, σ1. pose proof (current_elem_of _ _ Hcur) as Hin.
  assert (allocated σ cur) as Hac by (rewrite Forall_forall in Hall; auto).
  destruct (deepcopy_Ok _ _ _ _ Hc) as (_ & _ & _ & Ft & Fb & Hv & Nt & Nb).
  pose proof (frame_length _ _ _ (move_scan_frame _ _ _ _ _ _ Hs)) as Hlen.
  split_and!; [done|done|by apply Hv|done|..].
  - unfold separated. cbn [state]. rewrite !fmap_app, !join_app.
    cbn [fmap list_fmap mjoin list_join]. rewrite !app_nil_r. split.
    + apply NoDup_app. split_and!; [done| |].
      * intros l Hl Hl'. apply (allocated_tiles_lt σ) in Hl; [|done].
        rewrite Forall_forall in Ft. apply Ft in Hl'. lia.
      * apply Nt. eapply NoDup_join_elem; [exact St|]. by apply list_elem_of_fmap_2.
    + apply NoDup_app. split_and!; [done| |].
      * intros l Hl Hl'. apply (allocated_background_lt σ) in Hl; [|done].
        rewrite Forall_forall in Fb. apply Fb in Hl'. lia.
      * apply Nb. eapply NoDup_join_elem; [exact Sb|]. by apply list_elem_of_fmap_2.
  - cbn [state]. apply Forall_app. split.
    + eapply Forall_impl; [exact Hall|]. intros st. by apply extends_allocated.
    + constructor; [|constructor]. split.
      * eapply Forall_impl; [exact Ft|]. intros; simpl in *; lia.
      * rewrite Hbg. eapply Forall_impl; [exact Fb|]. intros; simpl in *; lia.
Qed.

Lemma Game_undo_separated (g : Game) (σ : Store) :
  separated g → Forall (allocated σ) (state g) →
  separated (Game_undo g).2 ∧ Forall (allocated σ) (state (Game_undo g).2).
Proof.
  intros Hsep Hall. destruct (Game_undo_state g) as [newer Hst]. split.
  - destruct g as [sts], (Game_undo {| state := sts |}).2 as [older].
    cbn [state] in Hst. subst sts. by eapply separated_older.
  - rewrite Hst in Hall. by apply Forall_app in Hall as [? _].
Qed.

(** Separation holds all along a run. *)
Lemma run_separated (cs : list command) :
  ∀ g σ g' σ',
    separated g → Forall (allocated σ) (state g) →
    run cs g σ = Ok (g', σ') →
    separated g' ∧ Forall (allocated σ') (state g').
Proof.
  induction cs as [|[d|] cs IH]; intros g σ g' σ' Hsep Hall; cbn [run].
  - by intros [= <- <-].
  - intros H. inv_bind H. destruct a as [[b g1] σ1]. cbn [fst snd] in H.
    destruct b.
    + destruct (Game_move_separated _ _ _ _ _ Hsep Hall E)
        as (_ & _ & _ & _ & _ & _ & _ & Hsep1 & Hall1).
      by eapply IH.
    + pose proof (Game_move_extends _ _ _ _ _ _ E) as Hext.
      apply Game_move_Ok in E as (_ & _ & _ & _ & _ & _ & _ & ->).
      eapply IH; [exact Hsep| |exact H].
      eapply Forall_impl; [exact Hall|]. intros st. by apply extends_allocated.
  - destruct (Game_undo_separated g σ Hsep Hall) as [Hsep1 Hall1]. by apply IH.
Qed.

(** A write through one snapshot is not seen through another. *)
Lemma separated_set_tiles (g : Game) (σ : Store) (i j : nat) (si sj : State)
    (p : Vector2) (v : Tile) (h' : list (list Tile)) :
  separated g → i ≠ j → state g !! i = Some si → state g !! j = Some sj →
  set p (tiles si) v (tile_rows σ) = Ok h' →
  view {| tile_rows := h'; bg_rows := bg_rows σ |} sj = view σ sj.
Proof.
  intros [St _] Hij Hi Hj Hset. unfold view; cbn. f_equal.
  eapply rows_at_frame; [eapply set_frame, Hset|].
  intros l Hl Hl'. revert Hl. eapply (NoDup_join_disjoint _ i j); eauto.
  all: by rewrite list_lookup_fmap; (rewrite Hi || rewrite Hj).
Qed.

Lemma separated_set_background (g : Game) (σ : Store) (i j : nat) (si sj : State)
    (p : Vector2) (v : BackgroundTile) (h' : list (list BackgroundTile)) :
  separated g → i ≠ j → state g !! i = Some si → state g !! j = Some sj →
  set p (background si) v (bg_rows σ) = Ok h' →
  view {| tile_rows := tile_rows σ; bg_rows := h' |} sj = view σ sj.
Proof.
  intros [_ Sb] Hij Hi Hj Hset. unfold view; cbn. f_equal.
  eapply rows_at_frame; [eapply set_frame, Hset|].
  intros l Hl Hl'. revert Hl. eapply (NoDup_join_disjoint _ i j); eauto.
  all: by rewrite list_lookup_fmap; (rewrite Hi || rewrite Hj).
Qed.

(** C9. In every game reached from a parsed level by moves and undos, no
    two snapshots of the history share a row.  A successful move appends
    exactly one snapshot, a copy of the current grid made of new rows, and
    leads to such a game again.  Hence writing a cell of one snapshot, in
    either layer, changes the grid of no other snapshot of the history: not
    after a move, and not after an undo. *)
Theorem snapshots_independent (level_str : string) (σ0 : Store) (st : State) (σ : Store)
    (cs : list command) (g : Game) (σ1 : Store) :
  parse_level level_str σ0 = (Some st, σ) →
  run cs (Game_init st) σ = Ok (g, σ1) →
  separated g ∧ Forall (allocated σ1) (state g) ∧
  (∀ d g' σ', Game_move g d σ1 = Ok (true, g', σ') →
     ∃ cur c σ2,
       current g = Ok cur ∧ deepcopy cur σ1 = Ok (c, σ2) ∧ view σ2 c = view σ1 cur ∧
       state g' = state g ++ [c] ∧ separated g' ∧ Forall (allocated σ') (state g')) ∧
  (∀ i j si sj p (v : Tile) h',
     i ≠ j → state g !! i = Some si → state g !! j = Some sj →
     set p (tiles si) v (tile_rows σ1) = Ok h' →
     view {| tile_rows := h'; bg_rows := bg_rows σ1 |} sj = view σ1 sj) ∧
  (∀ i j si sj p (v : BackgroundTile) h',
     i ≠ j → state g !! i = Some si → state g !! j = Some sj →
     set p (background si) v (bg_rows σ1) = Ok h' →
     view {| tile_rows := tile_rows σ1; bg_rows := h' |} sj = view σ1 sj).
Proof.
  intros [Hsep0 Hall0]%parse_level_separated Hrun.
  destruct (run_separated _ _ _ _ _ Hsep0 Hall0 Hrun) as [Hsep Hall].
  split; [done|]. split; [done|]. split; [|split].
  - intros d g' σ'. by apply Game_move_separated.
  - intros i j si sj p v h'. by apply separated_set_tiles.
  - intros i j si sj p v h'. by apply separated_set_background.
Qed.

Lemma snapshots_independent_witness :
  parse_level corridor empty_store = (Some corridor_state, corridor_store) ∧
  run [Move RIGHT] (Game_init corridor_state) corridor_store =
    Ok (corridor_stepped, corridor_stepped_store) ∧
  separated corridor_stepped ∧
  ∀ p (v : Tile) h',
    set p (tiles corridor_stepped_state) v (tile_rows corridor_stepped_store) = Ok h' →
    view {| tile_rows := h'; bg_rows := bg_rows corridor_stepped_store |} corridor_state =
    view corridor_stepped_store corridor_state.
Proof.
  assert (parse_level corridor empty_store = (Some corridor_state, corridor_store))
    as Hparse by (vm_compute; reflexivity).
  assert (run [Move RIGHT] (Game_init corridor_state) corridor_store =
          Ok (corridor_stepped, corridor_stepped_store)) as Hrun
    by (vm_compute; reflexivity).
  destruct (snapshots_independent corridor empty_store corridor_state corridor_store
              [Move RIGHT] corridor_stepped corridor_stepped_store Hparse Hrun)
    as (Hsep & _ & _ & Ht & _).
  split; [exact Hparse|]. split; [exact Hrun|]. split; [exact Hsep|].
  intros p v h' Hset.
  eapply (Ht 1%nat 0%nat); [lia|reflexivity|reflexivity|exact Hset].
Defined.

(** ** Positions and reads *)

Lemma is_inbounds_true (self : State) (p : Vector2) :
  is_inbounds self p = true ↔ (0 ≤ x p < length self) ∧ (0 ≤ y p < width self).
Proof.
  unfold is_inbounds. rewrite andb_true_iff, !bool_decide_eq_true. done.
Qed.

Lemma elem_of_positions (self : State) (p : Vector2) :
  p ∈ positions self ↔ is_inbounds self p = true.
Proof.
  rewrite is_inbounds_true. unfold positions. rewrite list_elem_of_bind. split.
  - intros (i & (j & Hp & Hj%elem_of_range)%list_elem_of_bind & Hi%elem_of_range).
    apply list_elem_of_singleton in Hp as ->. done.
  - intros [Hx Hy]. exists (x p). split; [|by apply elem_of_range].
    apply list_elem_of_bind. exists (y p). split; [|by apply elem_of_range].
    destruct p. apply list_elem_of_singleton. done.
Qed.

(** Reading through locations that are allocated is reading the grid. *)
Lemma access_grid_get {A : Type} (p : Vector2) (a : list loc) (h : list (list A)) :
  Forall (λ l, (l < List.length h)%nat) a →
  access p a h = grid_get (rows_at h a) p.
Proof.
  intros Hall. unfold access, grid_get, getitem, rows_at.
  rewrite length_fmap. destruct (norm_index _ (x p)) as [k|]; [|done].
  rewrite list_lookup_fmap. destruct (a !! k) as [l|] eqn:Hl; [|done]. cbn.
  rewrite Forall_forall in Hall.
  destruct (lookup_lt_is_Some_2 h l) as [row Hrow].
  { apply Hall. by eapply list_elem_of_lookup_2. }
  unfold read_row. by rewrite Hrow.
Qed.

Lemma rectangular_readable (σ : Store) (self : State) :
  rectangular σ self → readable self (tile_rows σ).
Proof.
  intros (Hall & Hlen & Hrows) p [Hx Hy]%is_inbounds_true.
  rewrite access_grid_get by done. unfold grid_get. cbn [view g_tiles] in Hrows.
  destruct (lookup_lt_is_Some_2 (rows_at (tile_rows σ) (tiles self)) (Z.to_nat (x p)))
    as [row Hrow].
  { unfold rows_at. rewrite length_fmap. lia. }
  rewrite (proj2 (getitem_nonneg _ _ _ (proj1 Hx)) Hrow). cbn [rbind].
  rewrite Forall_forall in Hrows.
  pose proof (Hrows row (list_elem_of_lookup_2 _ _ _ Hrow)) as Hw.
  destruct (lookup_lt_is_Some_2 row (Z.to_nat (y p))) as [t Ht]; [lia|].
  exists t. apply getitem_nonneg; [lia|done].
Qed.

Lemma readable_frame (self : State) (ls : list loc) (h h' : list (list Tile)) :
  frame ls h h' → readable self h → readable self h'.
Proof.
  intros Hf Hr p Hp.
  destruct (Hr p Hp) as [t Hacc].
  apply access_Ok in Hacc as (l & row & Hl & Hrow & (k & Hk & Ht)%getitem_Ok).
  pose proof (frame_row_length _ _ _ l Hf) as Hlen. rewrite Hrow in Hlen.
  destruct (h' !! l) as [row'|] eqn:Hrow'; [|done]. injection Hlen as Hlen.
  destruct (lookup_lt_is_Some_2 row' k) as [t' Ht'].
  { rewrite Hlen. by eapply lookup_lt_Some. }
  exists t'. apply access_Ok. exists l, row'. split_and!; [done|done|].
  apply getitem_Ok. exists k. by rewrite Hlen.
Qed.

(** ** The movement engine returns *)

Lemma set_readable (self : State) (p : Vector2) (v : Tile) (h : list (list Tile)) :
  readable self h → is_inbounds self p = true →
  ∃ h', set p (tiles self) v h = Ok h' ∧ readable self h'.
Proof.
  intros Hr Hp. destruct (Hr p Hp) as [t Ht].
  destruct (set_after_access p _ v t h Ht) as [h' Hh']. exists h'. split; [done|].
  eapply readable_frame; [|done]. eapply set_frame, Hh'.
Qed.

Lemma move_box_total (depth : nat) (self : State) (box_pos d : Vector2)
    (h : list (list Tile)) :
  readable self h → is_inbounds self box_pos = true →
  ∃ r, move_box depth self box_pos d h = Ok r.
Proof.
  intros Hr Hp. rewrite move_box_unfold. cbv zeta.
  destruct (is_inbounds self (Vector2_add box_pos d)) eqn:Hin; cbn [negb]; [|by eexists].
  destruct (Hr _ Hin) as [t ->]. cbn [rbind].
  case_bool_decide; [by eexists|]. case_bool_decide; [by eexists|].
  destruct (set_readable self box_pos EMPTY h Hr Hp) as (h1 & -> & Hr1). cbn [rbind].
  destruct (set_readable self _ BOX h1 Hr1 Hin) as (h2 & -> & _). by eexists.
Qed.

Lemma move_player_total (self : State) (player_pos d : Vector2) (h : list (list Tile)) :
  readable self h → is_inbounds self player_pos = true →
  ∃ r, move_player self player_pos d h = Ok r.
Proof.
  intros Hr Hp. unfold move_player.
  destruct (is_inbounds self (Vector2_add player_pos d)) eqn:Hin; cbn [negb]; [|by eexists].
  destruct (Hr _ Hin) as [t ->]. cbn [rbind].
  case_bool_decide; [by eexists|]. case_bool_decide.
  - destruct (move_box_total recursion_limit self _ d h Hr Hin) as [[pushed h0] Hb].
    rewrite Hb. cbn [rbind fst snd]. destruct pushed; cbn [negb]; [|by eexists].
    pose proof (readable_frame _ _ _ _ (move_box_frame _ _ _ _ _ _ _ Hb) Hr) as Hr0.
    destruct (set_readable self player_pos EMPTY h0 Hr0 Hp) as (h1 & -> & Hr1).
    cbn [rbind].
    destruct (set_readable self _ PLAYER h1 Hr1 Hin) as (h2 & -> & _). by eexists.
  - destruct (set_readable self player_pos EMPTY h Hr Hp) as (h1 & -> & Hr1).
    cbn [rbind].
    destruct (set_readable self _ PLAYER h1 Hr1 Hin) as (h2 & -> & _). by eexists.
Qed.

Lemma move_scan_total (self : State) (d : Vector2) (ps : list Vector2)
    (h : list (list Tile)) :
  readable self h → Forall (λ p, is_inbounds self p = true) ps →
  ∃ r, move_scan self d ps h = Ok r.
Proof.
  intros Hr. induction 1 as [|p ps Hp _ IH]; cbn [move_scan]; [by eexists|].
  destruct (Hr p Hp) as [t ->]. cbn [rbind]. case_bool_decide; [|done].
  destruct (move_player_total self p d h Hr Hp) as [[moved h'] Hm].
  rewrite Hm. cbn [rbind fst snd]. destruct moved; [by eexists|].
  by apply move_player_Ok in Hm as [[_ ->]|[? _]].
Qed.

Lemma rectangular_allocated_tiles (σ : Store) (self : State) :
  rectangular σ self → Forall (λ l, (l < List.length (tile_rows σ))%nat) (tiles self).
Proof. by intros (? & _). Qed.

Lemma rectangular_frame (σ : Store) (self : State) (ls : list loc) (h' : list (list Tile)) :
  frame ls (tile_rows σ) h' → rectangular σ self →
  rectangular {| tile_rows := h'; bg_rows := bg_rows σ |} self.
Proof.
  intros Hf (Hall & Hlen & Hrows). split_and!; cbn.
  - by rewrite (frame_length _ _ _ Hf).
  - done.
  - cbn in Hrows. unfold rows_at in *. rewrite Forall_fmap in *.
    eapply Forall_impl; [exact Hrows|]. intros l. cbn.
    pose proof (frame_row_length _ _ _ l Hf) as Hl.
    destruct (h' !! l), (tile_rows σ !! l); simplify_eq/=; congruence.
Qed.

Lemma rectangular_extends (σ σ' : Store) (self : State) :
  extends σ σ' → rectangular σ self → rectangular σ' self.
Proof.
  intros [Ht _] (Hall & Hlen & Hrows). pose proof (prefix_length _ _ Ht).
  split_and!; [|done|].
  - eapply Forall_impl; [exact Hall|]. intros; simpl in *; lia.
  - cbn in *. by rewrite (rows_at_prefix _ _ _ Ht Hall).
Qed.

Lemma deepcopy_rectangular (σ : Store) (self c : State) (σ1 : Store) :
  allocated σ self → rectangular σ self → deepcopy self σ = Ok (c, σ1) →
  rectangular σ1 c.
Proof.
  intros Ha (_ & Hlen & Hrows) (_ & Hl & Hw & Ft & _ & Hv & _)%deepcopy_Ok.
  specialize (Hv Ha). split_and!.
  - eapply Forall_impl; [exact Ft|]. intros; simpl in *; lia.
  - rewrite Hl, Hlen. f_equal.
    apply (f_equal (λ v, List.length (g_tiles v))) in Hv. cbn in Hv.
    unfold rows_at in Hv. by rewrite !length_fmap in Hv.
  - by rewrite Hv, Hw.
Qed.

(** ** Rectangular levels: no exception *)

Lemma Game_move_total (g : Game) (d : Vector2) (σ : Store) :
  sound σ g → ∃ b g' σ', Game_move g d σ = Ok (b, g', σ') ∧ sound σ' g'.
Proof.
  intros (Hne & Hall & Hrect).
  destruct (state g) as [|s sts _] eqn:Hst using rev_ind; [done|]. clear Hne.
  assert (current g = Ok s) as Hcur by (apply current_Ok; eauto).
  assert (allocated σ s ∧ rectangular σ s) as [Ha Hr].
  { apply Forall_app in Hall as [_ [? _]%Forall_cons].
    by apply Forall_app in Hrect as [_ [? _]%Forall_cons]. }
  destruct (deepcopy_total s σ Ha) as (c & σ1 & Hc).
  pose proof (deepcopy_rectangular _ _ _ _ Ha Hr Hc) as Hrc.
  destruct (move_scan_total c d (positions c) (tile_rows σ1)) as [[b h'] Hs].
  { by apply rectangular_readable. }
  { apply Forall_forall. intros p. by rewrite elem_of_positions. }
  assert (Game_move g d σ =
          Ok (b, if b then {| state := state g ++ [c] |} else g,
              {| tile_rows := h'; bg_rows := bg_rows σ1 |})) as Hm.
  { unfold Game_move. unfold current in Hcur. rewrite Hcur. cbn [rbind].
    rewrite Hc. cbn [rbind fst snd]. rewrite Hs. cbn [rbind fst snd]. by destruct b. }
  eexists _, _, _. split; [exact Hm|].
  pose proof (Game_move_extends _ _ _ _ _ _ Hm) as Hext.
  assert (Forall (allocated {| tile_rows := h'; bg_rows := bg_rows σ1 |}) (state g) ∧
          Forall (rectangular {| tile_rows := h'; bg_rows := bg_rows σ1 |}) (state g))
    as [Hall' Hrect'].
  { rewrite Hst. split.
    - eapply Forall_impl; [exact Hall|]. intros st. by apply extends_allocated.
    - eapply Forall_impl; [exact Hrect|]. intros st. by apply rectangular_extends. }
  destruct b; [|split_and!; [by rewrite Hst; destruct sts|done|done]].
  pose proof (move_scan_frame _ _ _ _ _ _ Hs) as Hf.
  destruct (deepcopy_Ok _ _ _ _ Hc) as (_ & _ & _ & Ft & Fb & _).
  cbn [state]. split_and!.
  - by destruct (state g).
  - apply Forall_app. split; [done|]. constructor; [|constructor]. split; cbn.
    + rewrite (frame_length _ _ _ Hf). eapply Forall_impl; [exact Ft|].
      intros; simpl in *; lia.
    + eapply Forall_impl; [exact Fb|]. intros; simpl in *; lia.
  - apply Forall_app. split; [done|]. constructor; [|constructor].
    by apply (rectangular_frame σ1 c (tiles c)).
Qed.

Lemma Game_undo_sound (g : Game) (σ : Store) : sound σ g → sound σ (Game_undo g).2.
Proof.
  intros (Hne & Hall & Hrect). unfold Game_undo.
  case_bool_decide as Hlen; cbn [snd state]; [|done].
  destruct (state g) as [|s sts _] using rev_ind; [done|].
  rewrite removelast_last. rewrite length_app in Hlen. cbn [List.length] in Hlen.
  apply Forall_app in Hall as [? _]. apply Forall_app in Hrect as [? _].
  split_and!; [|done|done]. destruct sts; [cbn in Hlen; lia|done].
Qed.

Lemma run_total (cs : list command) :
  ∀ g σ, sound σ g → ∃ g' σ', run cs g σ = Ok (g', σ') ∧ sound σ' g'.
Proof.
  induction cs as [|[d|] cs IH]; intros g σ Hs; cbn [run].
  - by eexists _, _.
  - destruct (Game_move_total g d σ Hs) as (b & g1 & σ1 & -> & Hs1). cbn [rbind fst snd].
    by apply IH.
  - by apply IH, Game_undo_sound.
Qed.

(** C6, as amended.  From a parsed level whose tile layer is rectangular,
    every run of moves and undos returns; in the game it reaches, a move in
    any direction returns a boolean and raises nothing, and so do
    [move_player] and [move_box] called at a position within bounds. *)
Theorem moves_never_raise (level_str : string) (σ0 : Store) (st : State) (σ : Store)
    (cs : list command) :
  parse_level level_str σ0 = (Some st, σ) → rectangular σ st →
  ∃ g σ1,
    run cs (Game_init st) σ = Ok (g, σ1) ∧
    (∀ d, ∃ b g' σ', Game_move g d σ1 = Ok (b, g', σ')) ∧
    (∀ self p d depth, self ∈ state g → is_inbounds self p = true →
       (∃ r, move_player self p d (tile_rows σ1) = Ok r) ∧
       (∃ r, move_box depth self p d (tile_rows σ1) = Ok r)).
Proof.
  intros (Ha & _)%parse_level_holds Hr.
  assert (sound σ (Game_init st)) as Hs.
  { split; [done|]. cbn [Game_init state]. split; by constructor. }
  destruct (run_total cs _ _ Hs) as (g & σ1 & Hrun & Hs1).
  exists g, σ1. split; [done|]. split.
  - intros d. destruct (Game_move_total g d σ1 Hs1) as (b & g' & σ' & Hm & _).
    by exists b, g', σ'.
  - intros self p d depth Hin Hp. destruct Hs1 as (_ & _ & Hrect).
    rewrite Forall_forall in Hrect. apply Hrect, rectangular_readable in Hin.
    split; [by apply move_player_total|by apply move_box_total].
Qed.

Lemma moves_never_raise_witness :
  parse_level corridor empty_store = (Some corridor_state, corridor_store) ∧
  rectangular corridor_store corridor_state ∧
  ∃ g σ1,
    run [Move RIGHT; Move RIGHT; Undo; Move LEFT] (Game_init corridor_state)
      corridor_store = Ok (g, σ1) ∧
    ∀ d, ∃ b g' σ', Game_move g d σ1 = Ok (b, g', σ').
Proof.
  assert (parse_level corridor empty_store = (Some corridor_state, corridor_store))
    as Hparse by (vm_compute; reflexivity).
  assert (rectangular corridor_store corridor_state) as Hr by repeat constructor.
  split; [exact Hparse|]. split; [exact Hr|].
  destruct (moves_never_raise corridor empty_store corridor_state corridor_store
              [Move RIGHT; Move RIGHT; Undo; Move LEFT] Hparse Hr)
    as (g & σ1 & Hrun & Hmove & _).
  by exists g, σ1.
Defined.

(** C6, as stated, fails: [parse_level] accepts a level with a short row,
    and the first move from it then indexes past the end of that row. *)
Lemma ragged_move_raises :
  start ragged = Some (ragged_game, ragged_store) ∧
  Game_move ragged_game UP ragged_store = Raise IndexError.
Proof. split; reflexivity. Qed.

(** ** Moves that fail for every player *)

Lemma deepcopy_access (self c : State) (σ σ1 : Store) (p : Vector2) :
  allocated σ self → deepcopy self σ = Ok (c, σ1) →
  access p (tiles c) (tile_rows σ1) = access p (tiles self) (tile_rows σ).
Proof.
  intros Ha Hc. destruct (deepcopy_Ok _ _ _ _ Hc) as (_ & _ & _ & Ft & _ & Hv & _).
  specialize (Hv Ha). apply (f_equal g_tiles) in Hv. cbn in Hv.
  rewrite !access_grid_get; [by rewrite Hv|by destruct Ha|].
  eapply Forall_impl; [exact Ft|]. intros; simpl in *; lia.
Qed.

Lemma deepcopy_is_inbounds (self c : State) (σ σ1 : Store) (p : Vector2) :
  deepcopy self σ = Ok (c, σ1) → is_inbounds c p = is_inbounds self p.
Proof.
  intros (_ & Hl & Hw & _)%deepcopy_Ok. unfold is_inbounds. by rewrite Hl, Hw.
Qed.

Lemma move_scan_all_fail (self : State) (d : Vector2) (ps : list Vector2)
    (h : list (list Tile)) :
  Forall (λ p, ∃ t, access p (tiles self) h = Ok t ∧
                    (t = PLAYER → move_player self p d h = Ok (false, h))) ps →
  move_scan self d ps h = Ok (false, h).
Proof.
  induction 1 as [|p ps (t & Ht & Hfail) _ IH]; cbn [move_scan]; [done|].
  rewrite Ht. cbn [rbind]. case_bool_decide as Hp; [|done].
  rewrite (Hfail Hp). done.
Qed.

Lemma move_box_blocked (depth : nat) (self : State) (box_pos d : Vector2)
    (h : list (list Tile)) :
  access (Vector2_add box_pos d) (tiles self) h = Ok BOX →
  move_box depth self box_pos d h = Ok (false, h).
Proof.
  intros Hb. rewrite move_box_unfold. cbv zeta. rewrite Hb.
  by destruct (is_inbounds _ _).
Qed.

Lemma move_player_blocked (self : State) (p d : Vector2) (h : list (list Tile)) :
  access (Vector2_add p d) (tiles self) h = Ok BOX →
  access (Vector2_add (Vector2_add p d) d) (tiles self) h = Ok BOX →
  move_player self p d h = Ok (false, h).
Proof.
  intros Hb Hb'. unfold move_player. rewrite Hb.
  destruct (is_inbounds _ _); cbn [negb rbind]; [|done].
  rewrite bool_decide_eq_false_2 by done. rewrite bool_decide_eq_true_2 by done.
  by rewrite move_box_blocked.
Qed.

(** A move that fails for every player of a rectangular grid returns false. *)
Lemma Game_move_all_fail (g : Game) (d : Vector2) (σ : Store) (cur : State) :
  current g = Ok cur → allocated σ cur → rectangular σ cur →
  (∀ p h, is_inbounds cur p = true →
          access p (tiles cur) (tile_rows σ) = Ok PLAYER →
          ∀ c, (∀ q, access q (tiles c) h = access q (tiles cur) (tile_rows σ)) →
               (∀ q, is_inbounds c q = is_inbounds cur q) →
               move_player c p d h = Ok (false, h)) →
  ∃ σ', Game_move g d σ = Ok (false, g, σ') ∧ view σ' cur = view σ cur.
Proof.
  intros Hcur Ha Hr Hfail.
  destruct (deepcopy_total cur σ Ha) as (c & σ1 & Hc).
  pose proof (rectangular_readable _ _ (deepcopy_rectangular _ _ _ _ Ha Hr Hc)) as Hrc.
  assert (move_scan c d (positions c) (tile_rows σ1) = Ok (false, tile_rows σ1)) as Hs.
  { apply move_scan_all_fail. apply Forall_forall. intros p Hp%elem_of_positions.
    destruct (Hrc p Hp) as [t Ht]. exists t. split; [done|]. intros ->.
    apply Hfail.
    - by rewrite <- (deepcopy_is_inbounds _ _ _ _ _ Hc).
    - by rewrite <- (deepcopy_access _ _ _ _ _ Ha Hc).
    - intros q. by apply deepcopy_access.
    - intros q. by eapply deepcopy_is_inbounds. }
  assert (Game_move g d σ = Ok (false, g, σ1)) as Hm.
  { unfold Game_move. unfold current in Hcur. rewrite Hcur. cbn [rbind].
    rewrite Hc. cbn [rbind fst snd]. rewrite Hs. cbn [rbind fst snd]. by destruct σ1. }
  exists σ1. split; [done|]. apply extends_view; [|done].
  by eapply Game_move_extends.
Qed.

(** C7. [CAN_MULTIPUSH] is off.  [move_box] towards a cell that holds a box
    fails and writes nothing, and so does [move_player] towards a box that
    has a box behind it; when [move_box] succeeds it has written two cells
    and the cell it filled held no box: one box is displaced.  A move in a
    rectangular grid, each player of which faces two boxes in a row, returns
    false and leaves the current grid as it was. *)
Theorem second_box_blocks_push :
  CAN_MULTIPUSH = false ∧
  (∀ depth self box_pos d h,
     access (Vector2_add box_pos d) (tiles self) h = Ok BOX →
     move_box depth self box_pos d h = Ok (false, h)) ∧
  (∀ self p d h,
     access (Vector2_add p d) (tiles self) h = Ok BOX →
     access (Vector2_add (Vector2_add p d) d) (tiles self) h = Ok BOX →
     move_player self p d h = Ok (false, h)) ∧
  (∀ depth self box_pos d h h',
     move_box depth self box_pos d h = Ok (true, h') →
     ∃ t h1, access (Vector2_add box_pos d) (tiles self) h = Ok t ∧ t ≠ BOX ∧
             set box_pos (tiles self) EMPTY h = Ok h1 ∧
             set (Vector2_add box_pos d) (tiles self) BOX h1 = Ok h') ∧
  (∀ g d σ cur,
     current g = Ok cur → allocated σ cur → rectangular σ cur →
     (∀ p, is_inbounds cur p = true →
           access p (tiles cur) (tile_rows σ) = Ok PLAYER →
           access (Vector2_add p d) (tiles cur) (tile_rows σ) = Ok BOX ∧
           access (Vector2_add (Vector2_add p d) d) (tiles cur) (tile_rows σ) = Ok BOX) →
     ∃ σ', Game_move g d σ = Ok (false, g, σ') ∧ view σ' cur = view σ cur).
Proof.
  split; [reflexivity|]. split; [apply move_box_blocked|].
  split; [apply move_player_blocked|]. split.
  - intros depth self box_pos d h h' [[? _]|(_ & _ & t & h1 & ? & _ & ? & ? & ?)]%move_box_Ok;
      [done|]. by exists t, h1.
  - intros g d σ cur Hcur Ha Hr Hfaces. apply Game_move_all_fail; try done.
    intros p h Hp Hplayer c Hacc _. destruct (Hfaces p Hp Hplayer) as [H1 H2].
    apply move_player_blocked; by rewrite Hacc.
Qed.

Lemma second_box_blocks_push_witness :
  start two_boxes = Some (Game_init two_boxes_state, two_boxes_store) ∧
  ∃ σ', Game_move (Game_init two_boxes_state) RIGHT two_boxes_store =
          Ok (false, Game_init two_boxes_state, σ') ∧
        view σ' two_boxes_state = view two_boxes_store two_boxes_state.
Proof.
  split; [reflexivity|].
  destruct second_box_blocks_push as (_ & _ & _ & _ & Hgame).
  apply (Hgame (Game_init two_boxes_state) RIGHT two_boxes_store two_boxes_state).
  - reflexivity.
  - repeat constructor.
  - repeat constructor.
  - intros p Hp%elem_of_positions Hplayer. cbn in Hp.
    repeat (apply elem_of_cons in Hp as [->|Hp]); try discriminate Hplayer;
      [by split|by apply elem_of_nil in Hp].
Defined.

(** C8, as amended.  In a grid without a player a move never returns true:
    if it returns, it returns false, with the history and the current grid
    as they were; and it does return when the tile layer is rectangular. *)
Theorem move_without_player (g : Game) (d : Vector2) (σ : Store) (cur : State) :
  current g = Ok cur → allocated σ cur →
  PLAYER ∉ mjoin (g_tiles (view σ cur)) →
  (∀ b g' σ', Game_move g d σ = Ok (b, g', σ') →
              b = false ∧ g' = g ∧ view σ' cur = view σ cur) ∧
  (rectangular σ cur → ∃ σ', Game_move g d σ = Ok (false, g, σ')).
Proof.
  intros Hcur Ha Hno.
  assert (∀ p, access p (tiles cur) (tile_rows σ) ≠ Ok PLAYER) as Hnop.
  { intros p Hp. apply Hno. rewrite access_grid_get in Hp by apply Ha.
    unfold grid_get in Hp. inv_bind Hp.
    apply getitem_Ok in E as (i & _ & Hi), Hp as (j & _ & Hj).
    apply list_elem_of_join. exists a. split; by eapply list_elem_of_lookup_2. }
  split.
  - intros b g' σ' Hm. pose proof (Game_move_extends _ _ _ _ _ _ Hm) as Hext.
    apply Game_move_Ok in Hm as (cur' & c & σ1 & Hcur' & Hc & Hs & _ & ->).
    assert (cur' = cur) as -> by congruence.
    apply move_scan_Ok in Hs as [[-> _]|(_ & p & _ & Hp & _)].
    + split_and!; [done|done|by apply extends_view].
    + rewrite (deepcopy_access _ _ _ _ _ Ha Hc) in Hp. by apply Hnop in Hp.
  - intros Hr. destruct (Game_move_all_fail g d σ cur Hcur Ha Hr) as (σ' & Hm & _).
    + intros p h _ Hp. by apply Hnop in Hp.
    + by exists σ'.
Qed.

Lemma move_without_player_witness :
  current (Game_init no_player_state) = Ok no_player_state ∧
  allocated no_player_store no_player_state ∧
  (PLAYER ∉ mjoin (g_tiles (view no_player_store no_player_state))) ∧
  rectangular no_player_store no_player_state ∧
  ∃ σ', Game_move (Game_init no_player_state) LEFT no_player_store =
          Ok (false, Game_init no_player_state, σ').
Proof.
  assert (allocated no_player_store no_player_state) as Ha by repeat constructor.
  assert (PLAYER ∉ mjoin (g_tiles (view no_player_store no_player_state))) as Hno
    by compute_done.
  assert (rectangular no_player_store no_player_state) as Hr by repeat constructor.
  split_and!; [reflexivity|exact Ha|exact Hno|exact Hr|].
  by apply (move_without_player (Game_init no_player_state) LEFT no_player_store
              no_player_state eq_refl Ha Hno).
Defined.

(** C8, as stated, fails: with two players the first one whose step is
    possible is moved, and the move returns true. *)
Lemma two_players_move_succeeds :
  start two_players = Some (Game_init two_players_state, two_players_store) ∧
  count_tile PLAYER (g_tiles (view two_players_store two_players_state)) = 2%nat ∧
  ∃ g' σ', Game_move (Game_init two_players_state) RIGHT two_players_store =
             Ok (true, g', σ') ∧
           state g' ≠ state (Game_init two_players_state).
Proof.
  split; [reflexivity|]. split; [reflexivity|]. eexists _, _. split; [reflexivity|done].
Qed.

(** ** Counting tiles across a write *)

Lemma count_row_insert (t : Tile) (row : list Tile) :
  ∀ (k : nat) (old v : Tile), row !! k = Some old →
    (List.length (filter (λ u, u = t) (<[k:=v]> row)) + is_tile t old =
     List.length (filter (λ u, u = t) row) + is_tile t v)%nat.
Proof.
  unfold is_tile.
  induction row as [|u row IH]; intros k old v Hk; [done|].
  destruct k as [|k]; cbn in Hk.
  - injection Hk as ->. change (<[0%nat:=v]> (old :: row)) with (v :: row).
    rewrite !filter_cons. repeat case_decide; cbn [List.length]; lia.
  - specialize (IH k old v Hk).
    change (<[S k:=v]> (u :: row)) with (u :: <[k:=v]> row).
    rewrite !filter_cons. repeat case_decide; cbn [List.length]; lia.
Qed.

Lemma count_tile_insert (t : Tile) (rows : list (list Tile)) (i k : nat)
    (row : list Tile) (old v : Tile) :
  rows !! i = Some row → row !! k = Some old →
  (count_tile t (<[i := <[k:=v]> row]> rows) + is_tile t old =
   count_tile t rows + is_tile t v)%nat.
Proof.
  intros Hi Hk. unfold count_tile.
  rewrite insert_take_drop by (by eapply lookup_lt_Some).
  rewrite <- (take_drop_middle rows i row Hi) at 3.
  rewrite !join_app. cbn [mjoin list_join]. rewrite !filter_app, !length_app.
  pose proof (count_row_insert t row k old v Hk). lia.
Qed.

Lemma rows_at_insert {A : Type} (a : list loc) (h : list (list A)) (i l : nat)
    (r : list A) :
  NoDup a → a !! i = Some l → (l < List.length h)%nat →
  rows_at (<[l:=r]> h) a = <[i:=r]> (rows_at h a).
Proof.
  intros Hnd Hi Hl. unfold rows_at. apply list_eq. intros j.
  rewrite list_lookup_fmap. destruct (decide (i = j)) as [<-|Hij].
  - rewrite list_lookup_insert_eq by (rewrite length_fmap; by eapply lookup_lt_Some).
    rewrite Hi. cbn. by rewrite list_lookup_insert_eq.
  - rewrite list_lookup_insert_ne by done. rewrite list_lookup_fmap.
    destruct (a !! j) as [l'|] eqn:Hj; [|done]. cbn. f_equal.
    rewrite list_lookup_insert_ne; [done|].
    intros ->. apply Hij. by eapply NoDup_lookup.
Qed.

(** Writing [v] over [old] changes the count of [t] by what the two are. *)
Lemma set_count (t : Tile) (p : Vector2) (a : list loc) (old v : Tile)
    (h h' : list (list Tile)) :
  NoDup a → Forall (λ l, (l < List.length h)%nat) a →
  access p a h = Ok old → set p a v h = Ok h' →
  (count_tile t (rows_at h' a) + is_tile t old =
   count_tile t (rows_at h a) + is_tile t v)%nat.
Proof.
  intros Hnd Hall (l & row & Hl & Hrow & Ht)%access_Ok
    (l' & row' & k & Hl' & Hrow' & Hk & ->)%set_Ok.
  assert (l' = l) as -> by congruence. assert (row' = row) as -> by congruence.
  apply getitem_Ok in Hl as (i & _ & Hi), Ht as (k' & Hk' & Ht).
  assert (k' = k) as -> by congruence.
  rewrite (rows_at_insert a h i l) by (done || by eapply lookup_lt_Some).
  apply count_tile_insert; [|done].
  unfold rows_at. by rewrite list_lookup_fmap, Hi; cbn; rewrite Hrow.
Qed.

(** ** Reading after a write *)

Lemma access_set_eq {A : Type} (p : Vector2) (a : list loc) (v : A) (h h' : list (list A)) :
  set p a v h = Ok h' → access p a h' = Ok v.
Proof.
  intros (l & row & k & Hl & Hrow & Hk & ->)%set_Ok.
  apply access_Ok. exists l, (<[k:=v]> row). split_and!; [done| |].
  - apply list_lookup_insert_eq. by eapply lookup_lt_Some.
  - apply getitem_Ok. exists k. rewrite length_insert. split; [done|].
    apply list_lookup_insert_eq. by apply norm_index_Some in Hk as [? _].
Qed.

Lemma access_set_ne {A : Type} (p q : Vector2) (a : list loc) (v : A)
    (h h' : list (list A)) :
  NoDup a → 0 ≤ x p → 0 ≤ y p → 0 ≤ x q → 0 ≤ y q → p ≠ q →
  set p a v h = Ok h' → access q a h' = access q a h.
Proof.
  intros Hnd Hxp Hyp Hxq Hyq Hpq (l & row & k & Hl & Hrow & Hk & ->)%set_Ok.
  unfold access. destruct (getitem a (x q)) as [l'|e] eqn:Hl'; [|done]. cbn [rbind].
  destruct (decide (l' = l)) as [->|Hne].
  - unfold read_row. rewrite Hrow.
    rewrite list_lookup_insert_eq by (by eapply lookup_lt_Some). cbn [rbind].
    apply getitem_nonneg in Hl, Hl'; [|done..].
    assert (x q = x p) as Hx.
    { pose proof (NoDup_lookup _ _ _ _ Hnd Hl Hl'). lia. }
    assert (y q ≠ y p) as Hy.
    { intros Hy. apply Hpq. destruct p, q; cbn in *; congruence. }
    unfold getitem. rewrite length_insert.
    destruct (norm_index _ (y q)) as [k'|] eqn:Hk'; [|done].
    rewrite list_lookup_insert_ne; [done|].
    apply norm_index_Some in Hk as [_ Hk], Hk' as [_ Hk']. lia.
  - unfold read_row. by rewrite list_lookup_insert_ne.
Qed.

(** ** A successful step keeps the number of boxes *)

Lemma set_allocated {A : Type} (p : Vector2) (a ls : list loc) (v : A)
    (h h' : list (list A)) :
  set p a v h = Ok h' → Forall (λ l, (l < List.length h)%nat) ls →
  Forall (λ l, (l < List.length h')%nat) ls.
Proof. intros Hs%set_frame%frame_length. by rewrite Hs. Qed.

Lemma is_tile_eq (t : Tile) : is_tile t t = 1%nat.
Proof. unfold is_tile. by rewrite decide_True. Qed.

Lemma is_tile_ne (t u : Tile) : u ≠ t → is_tile t u = 0%nat.
Proof. intros H. unfold is_tile. by rewrite decide_False. Qed.

Lemma set_boxes_same (p : Vector2) (a : list loc) (old v : Tile) (h h' : list (list Tile)) :
  NoDup a → Forall (λ l, (l < List.length h)%nat) a →
  access p a h = Ok old → old ≠ BOX → v ≠ BOX → set p a v h = Ok h' →
  count_tile BOX (rows_at h' a) = count_tile BOX (rows_at h a).
Proof.
  intros Hnd Hall Hold Ho Hv Hs. pose proof (set_count BOX _ _ _ _ _ _ Hnd Hall Hold Hs) as H.
  rewrite !is_tile_ne in H by done. lia.
Qed.

Lemma Vector2_add_fixed (p d : Vector2) :
  Vector2_add (Vector2_add p d) d = p → Vector2_add p d = p.
Proof.
  destruct p as [px py], d as [dx dy]. unfold Vector2_add. cbn.
  intros [= Hx Hy]. f_equal; lia.
Qed.

Lemma move_player_boxes (self : State) (p d : Vector2) (h h' : list (list Tile)) :
  NoDup (tiles self) → Forall (λ l, (l < List.length h)%nat) (tiles self) →
  is_inbounds self p = true → access p (tiles self) h = Ok PLAYER →
  move_player self p d h = Ok (true, h') →
  count_tile BOX (rows_at h' (tiles self)) = count_tile BOX (rows_at h (tiles self)).
Proof.
  intros Hnd Hall [[Hpx _] [Hpy _]]%is_inbounds_true Hplayer
    [[? _]|(_ & [[Htx _] [Hty _]]%is_inbounds_true & t & h0 & h1 & Ht & Hw & Hcase & H1 & H2)]%move_player_Ok;
    [done|].
  set (target := Vector2_add p d) in *.
  destruct Hcase as [[Hnb ->]|[-> Hb]].
  - rewrite <- (set_boxes_same p _ PLAYER EMPTY h h1) by done.
    pose proof (set_allocated _ _ _ _ _ _ H1 Hall) as Hall1.
    destruct (decide (target = p)) as [Heq|Hne].
    + rewrite Heq in H2. pose proof (access_set_eq _ _ _ _ _ H1) as Hnow.
      by apply (set_boxes_same p _ EMPTY PLAYER h1 h').
    + pose proof (access_set_ne p target _ _ _ _ Hnd Hpx Hpy Htx Hty (not_eq_sym Hne) H1)
        as Hnow. rewrite Ht in Hnow.
      by apply (set_boxes_same target _ t PLAYER h1 h').
  - apply move_box_Ok in Hb
      as [[? _]|(_ & [[Hnx _] [Hny _]]%is_inbounds_true & t2 & hA & Ht2 & _ & Hnb2 & HA & H0)];
      [done|].
    set (next := Vector2_add target d) in *.
    assert (target ≠ p) as Htp by (intros Heq; rewrite Heq in Ht; congruence).
    assert (next ≠ target) as Hnt by (intros Heq; rewrite Heq in Ht2; congruence).
    assert (next ≠ p) as Hnp.
    { intros Heq. by apply Htp, Vector2_add_fixed. }
    pose proof (set_allocated _ _ _ _ _ _ HA Hall) as HallA.
    pose proof (set_allocated _ _ _ _ _ _ H0 HallA) as Hall0.
    pose proof (set_allocated _ _ _ _ _ _ H1 Hall0) as Hall1.
    (* the box leaves [target] and enters [next] *)
    pose proof (set_count BOX _ _ _ _ _ _ Hnd Hall Ht HA) as CA.
    pose proof (access_set_ne target next _ _ _ _ Hnd Htx Hty Hnx Hny (not_eq_sym Hnt) HA)
      as HnextA. rewrite Ht2 in HnextA.
    pose proof (set_count BOX _ _ _ _ _ _ Hnd HallA HnextA H0) as C0.
    (* the player leaves [p] and enters [target] *)
    assert (access p (tiles self) h0 = Ok PLAYER) as Hp0.
    { rewrite (access_set_ne next p _ _ _ _ Hnd Hnx Hny Hpx Hpy Hnp H0).
      by rewrite (access_set_ne target p _ _ _ _ Hnd Htx Hty Hpx Hpy Htp HA). }
    pose proof (set_count BOX _ _ _ _ _ _ Hnd Hall0 Hp0 H1) as C1.
    assert (access target (tiles self) h1 = Ok EMPTY) as Ht1.
    { rewrite (access_set_ne p target _ _ _ _ Hnd Hpx Hpy Htx Hty (not_eq_sym Htp) H1).
      rewrite (access_set_ne next target _ _ _ _ Hnd Hnx Hny Htx Hty Hnt H0).
      by apply (access_set_eq _ _ _ _ _ HA). }
    pose proof (set_count BOX _ _ _ _ _ _ Hnd Hall1 Ht1 H2) as C2.
    rewrite is_tile_eq, (is_tile_ne BOX EMPTY) in CA by done.
    rewrite is_tile_eq, (is_tile_ne BOX t2) in C0 by done.
    rewrite !is_tile_ne in C1, C2 by done. lia.
Qed.

(** ** The number of boxes along a run *)

Lemma Game_move_holds (n : nat) (g : Game) (d : Vector2) (σ : Store) (b : bool)
    (g' : Game) (σ' : Store) :
  holds_boxes n σ g → Game_move g d σ = Ok (b, g', σ') → holds_boxes n σ' g'.
Proof.
  intros [Hne Hall] Hm. pose proof (Game_move_extends _ _ _ _ _ _ Hm) as Hext.
  assert (Forall (λ st, allocated σ' st ∧ NoDup (tiles st) ∧ boxes σ' st = n) (state g))
    as Hold.
  { eapply Forall_impl; [exact Hall|]. intros st (Ha & Hnd & Hb).
    split_and!; [by eapply extends_allocated|done|].
    unfold boxes. by rewrite (extends_view _ _ _ Hext Ha). }
  apply Game_move_Ok in Hm as (cur & c & σ1 & Hcur & Hc & Hs & Hbg & ->).
  destruct b; [|by split]. split; [by destruct (state g)|].
  cbn [state]. apply Forall_app. split; [done|]. constructor; [|constructor].
  pose proof (current_elem_of _ _ Hcur) as Hin.
  rewrite Forall_forall in Hall. destruct (Hall _ Hin) as (Ha & Hnd & Hb).
  destruct (deepcopy_Ok _ _ _ _ Hc) as (_ & _ & _ & Ft & Fb & Hv & Nt & _).
  assert (Forall (λ l, (l < List.length (tile_rows σ1))%nat) (tiles c)) as Hac.
  { eapply Forall_impl; [exact Ft|]. intros; simpl in *; lia. }
  pose proof (frame_length _ _ _ (move_scan_frame _ _ _ _ _ _ Hs)) as Hlen.
  split_and!.
  - split; [by rewrite Hlen|]. rewrite Hbg.
    eapply Forall_impl; [exact Fb|]. intros; simpl in *; lia.
  - by apply Nt.
  - apply move_scan_Ok in Hs as [[? _]|(_ & p & Hp%elem_of_positions & Hplayer & Hmp)];
      [done|].
    unfold boxes, view; cbn [g_tiles].
    rewrite (move_player_boxes c p d _ _ (Nt Hnd) Hac Hp Hplayer Hmp).
    rewrite <- Hb. unfold boxes. by rewrite <- (Hv Ha).
Qed.

Lemma Game_undo_holds (n : nat) (g : Game) (σ : Store) :
  holds_boxes n σ g → holds_boxes n σ (Game_undo g).2.
Proof.
  intros [Hne Hall]. unfold Game_undo.
  case_bool_decide as Hlen; cbn [snd state]; [|done].
  destruct (state g) as [|s sts _] using rev_ind; [done|].
  rewrite removelast_last. rewrite length_app in Hlen. cbn [List.length] in Hlen.
  apply Forall_app in Hall as [? _].
  split; [|done]. destruct sts; [cbn in Hlen; lia|done].
Qed.

Lemma run_holds (n : nat) (cs : list command) :
  ∀ g σ g' σ', holds_boxes n σ g → run cs g σ = Ok (g', σ') → holds_boxes n σ' g'.
Proof.
  induction cs as [|[d|] cs IH]; intros g σ g' σ' Hh; cbn [run].
  - by intros [= <- <-].
  - intros H. inv_bind H. destruct a as [[b g1] σ1]. cbn [fst snd] in H.
    eapply IH; [|exact H]. by eapply Game_move_holds.
  - apply IH. by apply Game_undo_holds.
Qed.

(** C2. Whatever moves and undos are run from a parsed level, the grid
    they end on holds as many boxes as the parsed grid; and when the tile
    layer of the level is rectangular every such run does end. *)
Theorem box_count_invariant (level_str : string) (σ0 : Store) (st : State) (σ : Store) :
  parse_level level_str σ0 = (Some st, σ) →
  (∀ cs g' σ', run cs (Game_init st) σ = Ok (g', σ') →
     ∃ cur, current g' = Ok cur ∧ boxes σ' cur = boxes σ st) ∧
  (rectangular σ st → ∀ cs, ∃ g' σ', run cs (Game_init st) σ = Ok (g', σ')).
Proof.
  intros (Ha & Hnd & _)%parse_level_holds. split.
  - intros cs g' σ' Hrun.
    assert (holds_boxes (boxes σ st) σ (Game_init st)) as Hh.
    { split; [done|]. cbn [Game_init state]. constructor; [|constructor]. by split_and!. }
    destruct (run_holds _ _ _ _ _ _ Hh Hrun) as [Hne Hall].
    destruct (state g') as [|cur older _] eqn:Hst using rev_ind; [done|].
    exists cur. split; [apply current_Ok; eauto|].
    by apply Forall_app in Hall as [_ [(_ & _ & ?) _]%Forall_cons].
  - intros Hr cs.
    assert (sound σ (Game_init st)) as Hs.
    { split; [done|]. cbn [Game_init state]. split; by constructor. }
    destruct (run_total cs _ _ Hs) as (g' & σ' & Hrun & _). by exists g', σ'.
Qed.

Lemma box_count_invariant_witness :
  parse_level push_level empty_store = (Some push_state, push_store) ∧
  run push_commands (Game_init push_state) push_store = Ok push_end ∧
  boxes push_store push_state = 1%nat ∧
  ∃ cur, current push_end.1 = Ok cur ∧ boxes push_end.2 cur = boxes push_store push_state.
Proof.
  assert (parse_level push_level empty_store = (Some push_state, push_store)) as Hparse
    by (vm_compute; reflexivity).
  split; [exact Hparse|]. split; [vm_compute; reflexivity|].
  split; [reflexivity|].
  destruct (box_count_invariant push_level empty_store push_state push_store Hparse)
    as [Hboxes _].
  apply (Hboxes push_commands push_end.1 push_end.2). vm_compute; reflexivity.
Defined.

(** ** The win test *)



(** What [win] has seen when it returns. *)
Lemma win_row_Ok (self : State) (σ : Store) (i : Z) (js : list Z) (b : bool) :
  win_row self σ i js = Ok b →
  if b
  then ∀ j, j ∈ js →
            access (mkVector2 i j) (tiles self) (tile_rows σ) = Ok BOX →
            access (mkVector2 i j) (background self) (bg_rows σ) = Ok TARGET
  else ∃ j, j ∈ js ∧
            access (mkVector2 i j) (tiles self) (tile_rows σ) = Ok BOX ∧
            access (mkVector2 i j) (background self) (bg_rows σ) ≠ Ok TARGET.
Proof.
  induction js as [|j js IH]; cbn [win_row].
  - intros [= <-]. by intros j ?%elem_of_nil.
  - intros H. inv_bind H. rename a into t. case_bool_decide as Hbox.
    + subst t. inv_bind H. rename a into m. case_bool_decide as Hnt.
      * injection H as <-. exists j. split_and!; [by left|done|congruence].
      * subst m. apply IH in H. destruct b.
        -- intros j' [->|Hj']%elem_of_cons; [done|by apply H].
        -- destruct H as (j' & Hj' & ?). exists j'. split; [by right|done].
    + apply IH in H. destruct b.
      * intros j' [->|Hj']%elem_of_cons; [congruence|by apply H].
      * destruct H as (j' & Hj' & ?). exists j'. split; [by right|done].
Qed.

Lemma win_rows_Ok (self : State) (σ : Store) (ks : list Z) (b : bool) :
  win_rows self σ ks = Ok b →
  if b
  then ∀ i j, i ∈ ks → j ∈ range (width self) →
              access (mkVector2 i j) (tiles self) (tile_rows σ) = Ok BOX →
              access (mkVector2 i j) (background self) (bg_rows σ) = Ok TARGET
  else ∃ i j, i ∈ ks ∧ j ∈ range (width self) ∧
              access (mkVector2 i j) (tiles self) (tile_rows σ) = Ok BOX ∧
              access (mkVector2 i j) (background self) (bg_rows σ) ≠ Ok TARGET.
Proof.
  induction ks as [|i ks IH]; cbn [win_rows].
  - intros [= <-]. by intros i j ?%elem_of_nil.
  - intros H. inv_bind H. rename a into r. apply win_row_Ok in E. destruct r.
    + apply IH in H. destruct b.
      * intros i' j [->|Hi']%elem_of_cons; [by apply E|by apply H].
      * destruct H as (i' & j & Hi' & ?). exists i', j. split; [by right|done].
    + injection H as <-. destruct E as (j & Hj & ?). exists i, j. split; [by left|done].
Qed.

Lemma win_Ok (self : State) (σ : Store) (b : bool) :
  win self σ = Ok b →
  b = true ↔
  ∀ p, is_inbounds self p = true →
       access p (tiles self) (tile_rows σ) = Ok BOX →
       access p (background self) (bg_rows σ) = Ok TARGET.
Proof.
  intros H%win_rows_Ok. destruct b.
  - split; [|done]. intros _ [i j] [Hi Hj]%is_inbounds_true.
    apply H; by apply elem_of_range.
  - split; [done|]. intros Hall.
    destruct H as (i & j & Hi%elem_of_range & Hj%elem_of_range & Hbox & Hnt).
    exfalso. apply Hnt, Hall; [by apply is_inbounds_true|done].
Qed.




(** ** The parser: what raises *)

Lemma raises_rbind {A B : Type} (m : result A) (k : A → result B) :
  raises (rbind m k) = match m with Ok a => raises (k a) | Raise _ => true end.
Proof. by destruct m. Qed.

Lemma raises_rmap {A B : Type} (f : A → result B) (xs : list A) :
  raises (rmap f xs) = existsb (λ a, raises (f a)) xs.
Proof.
  induction xs as [|a xs IH]; [done|]. cbn [rmap existsb].
  rewrite raises_rbind. destruct (f a) as [b|e]; [|done]. cbn [raises orb].
  rewrite raises_rbind. rewrite <- IH. by destruct (rmap f xs).
Qed.

Lemma existsb_ext {A : Type} (f g : A → bool) (l : list A) :
  (∀ a, f a = g a) → existsb f l = existsb g l.
Proof. intros H. induction l as [|a l IH]; [done|]. cbn. by rewrite H, IH. Qed.

Ltac solve_chars :=
  repeat match goal with
         | H : _ ∈ _ :: _ |- _ => apply elem_of_cons in H as [->|H]
         | H : _ ∈ [] |- _ => by apply elem_of_nil in H
         | H : _ ∉ _ |- _ => exfalso; apply H; by repeat constructor
         | H : ?a ≠ ?a |- _ => by destruct H
         end.

Lemma raises_parse_tile (c : ascii) :
  raises (parse_tile c) = negb (bool_decide (c ∈ tile_chars)).
Proof.
  unfold parse_tile, tile_chars.
  repeat case_bool_decide; subst; cbn [raises negb]; try done; solve_chars.
Qed.

Lemma raises_parse_background_tile (c : ascii) :
  raises (parse_background_tile c) = negb (bool_decide (c ∈ background_chars)).
Proof.
  unfold parse_background_tile, background_chars.
  repeat case_bool_decide; subst; cbn [raises negb]; try done; solve_chars.
Qed.

Lemma raises_tile_rows (lns : list string) :
  raises (rmap (λ ln, rmap parse_tile (chars ln)) lns) = existsb (bad_row tile_chars) lns.
Proof.
  rewrite raises_rmap. apply existsb_ext. intros ln. rewrite raises_rmap.
  apply existsb_ext, raises_parse_tile.
Qed.

Lemma raises_background_rows (lns : list string) :
  raises (rmap (λ ln, rmap parse_background_tile (chars ln)) lns) =
  existsb (bad_row background_chars) lns.
Proof.
  rewrite raises_rmap. apply existsb_ext. intros ln. rewrite raises_rmap.
  apply existsb_ext, raises_parse_background_tile.
Qed.

Lemma rmap_length {A B : Type} (f : A → result B) (xs : list A) (ys : list B) :
  rmap f xs = Ok ys → List.length ys = List.length xs.
Proof.
  revert ys. induction xs as [|a xs IH]; intros ys H; cbn [rmap] in H.
  - by injection H as <-.
  - inv_bind H. inv_bind H. injection H as <-. cbn [List.length]. f_equal. by apply IH.
Qed.

Lemma parse_header_Ok (line : string) (n w : Z) :
  parse_header line = Ok (n, w) ↔
  ∃ a b, split line = [a; b] ∧ int a = Ok n ∧ int b = Ok w.
Proof.
  unfold parse_header. split.
  - destruct (split line) as [|a [|b [|c l]]]; try done.
    intros H. inv_bind H. inv_bind H. injection H as <- <-. by exists a, b.
  - intros (a & b & -> & -> & ->). done.
Qed.

Lemma getitem_first {A : Type} (a : A) (l : list A) : getitem (a :: l) 0 = Ok a.
Proof. by apply getitem_nonneg. Qed.

Lemma raises_parse_level_try (level_str : string) (σ0 : Store) :
  raises (parse_level_try level_str σ0) = rejects level_str.
Proof.
  unfold parse_level_try, rejects. cbv zeta.
  destruct (splitlines level_str) as [|line0 lines] eqn:Hlines; [done|].
  rewrite getitem_first. cbn [rbind].
  destruct (parse_header line0) as [[n w]|e]; [|done]. cbn [rbind fst snd].
  rewrite <- raises_tile_rows, <- raises_background_rows. rewrite raises_rbind.
  destruct (rmap _ (slice (line0 :: lines) 1 (n + 1))) as [trows|e] eqn:Ht; [|done].
  cbn [raises orb]. rewrite raises_rbind.
  destruct (rmap _ (slice (line0 :: lines) (n + 1) (n * 2 + 1))) as [brows|e]; [|done].
  cbn [raises orb]. rewrite !alloc_rows_spec. cbn [fst snd].
  apply rmap_length in Ht.
  destruct trows as [|row0 trows].
  - destruct (slice (line0 :: lines) 1 (n + 1)); [|done].
    by rewrite bool_decide_eq_true_2.
  - rewrite bool_decide_eq_false_2 by (intros Hnil; by rewrite Hnil in Ht).
    unfold State_init. cbn [List.length seq].
    rewrite getitem_first. cbn [rbind].
    unfold read_row. rewrite lookup_app_r, Nat.sub_diag by done. done.
Qed.

Lemma int_literal_Ok (s : list ascii) (n : Z) :
  int_literal s = Ok n →
  int_digits 0 false s = Ok n ∧ Z.of_nat (digit_count s) ≤ int_max_str_digits.
Proof.
  unfold int_literal. intros H. inv_bind H. case_bool_decide; [done|].
  injection H as <-. split; [done|lia].
Qed.

Lemma int_Ok_digits (a : string) (n : Z) :
  int a = Ok n → Z.of_nat (digit_count (chars a)) ≤ int_max_str_digits.
Proof.
  unfold int. destruct (chars a) as [|c s]; [done|].
  assert (nat_of_ascii c = 45%nat ∨ nat_of_ascii c = 43%nat →
          digit_count (c :: s) = digit_count s) as Hsign.
  { intros Hc. unfold digit_count. rewrite filter_cons_False; [done|].
    unfold digit_of. rewrite bool_decide_eq_false_2 by lia. by intros [? ?]. }
  repeat case_bool_decide.
  - intros Hn. inv_bind Hn. apply int_literal_Ok in E as [_ E].
    rewrite Hsign by auto. done.
  - intros [_ Hn]%int_literal_Ok. rewrite Hsign by auto. done.
  - by intros [_ Hn]%int_literal_Ok.
Qed.

(** C5, as amended.  [parse_level] returns [None], with the store as it
    was, exactly for the texts that [rejects] describes: those without a
    first line, with a first line that is not two integer literals that
    [int] converts (none of more than [int_max_str_digits] digits), with
    an unrecognised character in a sliced row of either layer, or with no
    tile row sliced.  The width of the header, the lengths of the rows and
    the number of lines beyond that play no part. *)
Theorem parse_level_None_iff (level_str : string) (σ0 : Store) :
  ((parse_level level_str σ0).1 = None ↔ rejects level_str = true) ∧
  ((parse_level level_str σ0).1 = None → (parse_level level_str σ0).2 = σ0) ∧
  (∀ line n w, parse_header line = Ok (n, w) ↔
               ∃ a b, split line = [a; b] ∧ int a = Ok n ∧ int b = Ok w) ∧
  (∀ a n, int a = Ok n → Z.of_nat (digit_count (chars a)) ≤ int_max_str_digits).
Proof.
  split; [|split; [|split; [apply parse_header_Ok|apply int_Ok_digits]]].
  - rewrite <- (raises_parse_level_try level_str σ0). unfold parse_level.
    by destruct (parse_level_try level_str σ0).
  - unfold parse_level. by destruct (parse_level_try level_str σ0).
Qed.

(** C5, as stated, fails: a text with too few lines, whose only row is
    shorter than the width of its header, is accepted. *)
Lemma short_level_accepted :
  splitlines short_level = ["1 5"; "p."]%string ∧
  parse_header "1 5" = Ok (1, 5) ∧
  (List.length (splitlines short_level) < 1 + 2 * 1)%nat ∧
  String.length "p." ≠ 5%nat ∧
  parse_level short_level empty_store =
    (Some {| length := 1; width := 2; tiles := [0%nat]; background := [] |},
     {| tile_rows := [[PLAYER; EMPTY]]; bg_rows := [] |}).
Proof. split_and!; by vm_compute. Qed.

(** ** The parser: where the dimensions come from *)

Lemma slice_first_indep {A : Type} (a0 a0' : A) (l : list A) (lo hi : Z) :
  (1 ≤ slice_bound (S (List.length l)) lo)%nat →
  slice (a0 :: l) lo hi = slice (a0' :: l) lo hi.
Proof.
  unfold slice. cbn [List.length]. intros Hlo.
  destruct (slice_bound (S (List.length l)) lo) as [|k]; [lia|done].
Qed.

Lemma slice_nonempty_bound {A : Type} (l : list A) (hi : Z) :
  slice l 1 hi ≠ [] → (1 ≤ slice_bound (List.length l) hi)%nat.
Proof.
  unfold slice. intros Hne.
  destruct (slice_bound (List.length l) hi) as [|k]; [|lia].
  by rewrite Nat.sub_0_l in Hne.
Qed.

Lemma slice_bound_one (n : nat) : slice_bound (S n) 1 = 1%nat.
Proof. unfold slice_bound. rewrite bool_decide_eq_false_2 by lia. lia. Qed.

Lemma rmap_Forall2 {A B : Type} (f : A → result B) (xs : list A) (ys : list B) :
  rmap f xs = Ok ys → Forall2 (λ a b, f a = Ok b) xs ys.
Proof.
  revert ys. induction xs as [|a xs IH]; intros ys H; cbn [rmap] in H.
  - injection H as <-. constructor.
  - inv_bind H. inv_bind H. injection H as <-. constructor; [done|by apply IH].
Qed.

Lemma chars_length (s : string) : List.length (chars s) = String.length s.
Proof. unfold chars. induction s as [|c s IH]; [done|]. cbn. by rewrite IH. Qed.

(** C10. For a text that [parse_level] accepts, [length] is the number of
    tile rows sliced, [width] is the length of the first of them, every row
    of the grid is as long as the line it was read from, and the text gives
    the same level under any other width in its header. *)
Theorem dimensions_from_rows (level_str : string) (σ0 : Store) (st : State) (σ : Store) :
  parse_level level_str σ0 = (Some st, σ) →
  ∃ line0 n w ln0 lns,
    getitem (splitlines level_str) 0 = Ok line0 ∧
    parse_header line0 = Ok (n, w) ∧
    slice (splitlines level_str) 1 (n + 1) = ln0 :: lns ∧
    length st = Z.of_nat (List.length (ln0 :: lns)) ∧
    width st = Z.of_nat (String.length ln0) ∧
    Forall2 (λ ln row, List.length row = String.length ln)
            (ln0 :: lns) (g_tiles (view σ st)) ∧
    (∀ level_str' line0' w' rest,
       splitlines level_str = line0 :: rest →
       splitlines level_str' = line0' :: rest →
       parse_header line0' = Ok (n, w') →
       parse_level level_str' σ0 = (Some st, σ)).
Proof.
  intros Hparse.
  destruct (parse_level_Some _ _ _ _ Hparse)
    as (line0 & n & w & row0 & trows & brows & Hline0 & Hhd & Ht & Hb & -> & ->).
  pose proof (rmap_Forall2 _ _ _ Ht) as Hrows.
  destruct (slice (splitlines level_str) 1 (n + 1)) as [|ln0 lns] eqn:Hslice;
    [by apply Forall2_nil_inv_l in Hrows|].
  exists line0, n, w, ln0, lns.
  assert (Forall2 (λ ln row, List.length row = String.length ln)
            (ln0 :: lns) (row0 :: trows)) as Hlens.
  { eapply Forall2_impl; [exact Hrows|]. intros ln row Hrow. cbv beta in Hrow.
    by rewrite (rmap_length _ _ _ Hrow), chars_length. }
  split_and!; [done|done|done|..].
  - cbn [length]. by rewrite (Forall2_length _ _ _ Hrows).
  - cbn [width]. apply Forall2_cons_1 in Hlens as [-> _]. done.
  - unfold view. cbn [g_tiles tiles tile_rows]. by rewrite rows_at_seq.
  - intros level_str' line0' w' rest Hl Hl' Hhd'. rewrite <- Hparse.
    unfold parse_level, parse_level_try. cbv zeta. rewrite Hl, Hl'.
    rewrite !getitem_first. cbn [rbind].
    rewrite Hhd, Hhd'. cbn [rbind fst snd].
    rewrite Hl in Hslice.
    assert (1 ≤ slice_bound (S (List.length rest)) (n + 1))%nat as Hbound.
    { apply (slice_nonempty_bound (line0 :: rest)). by rewrite Hslice. }
    rewrite (slice_first_indep line0' line0 rest 1 (n + 1))
      by (by rewrite slice_bound_one).
    by rewrite (slice_first_indep line0' line0 rest (n + 1) (n * 2 + 1)).
Qed.

Lemma dimensions_from_rows_witness :
  parse_level ragged empty_store = (Some ragged_state, ragged_store) ∧
  List.length <$> g_tiles (view ragged_store ragged_state) = [2; 1]%nat ∧
  width ragged_state = 2 ∧
  parse_level ragged_wide empty_store = (Some ragged_state, ragged_store).
Proof.
  assert (parse_level ragged empty_store = (Some ragged_state, ragged_store)) as Hparse
    by (by vm_compute).
  split; [exact Hparse|]. split; [reflexivity|]. split; [reflexivity|].
  destruct (dimensions_from_rows ragged empty_store ragged_state ragged_store Hparse)
    as (line0 & n & w & ln0 & lns & Hline0 & Hhd & _ & _ & _ & _ & Hwidth).
  assert (line0 = "2 2"%string) as -> by (vm_compute in Hline0; congruence).
  assert (n = 2) as -> by (vm_compute in Hhd; congruence).
  apply (Hwidth ragged_wide "2 7"%string 7 ["p."; "."; ".."; ".."]%string);
    by vm_compute.
Defined.

(** * Further properties *)

(** ** Names of tiles *)

(** X1. A tile is parsed back from its name, and a character that
    [parse_tile] accepts is the name of the tile it gives; likewise for
    the background. *)
Theorem tile_name_round_trip :
  (∀ t : Tile, rmap parse_tile (chars (Tile_name t)) = Ok [t]) ∧
  (∀ c t, parse_tile c = Ok t → Tile_name t = String c EmptyString) ∧
  (∀ b : BackgroundTile,
     rmap parse_background_tile (chars (BackgroundTile_name b)) = Ok [b]) ∧
  (∀ c b, parse_background_tile c = Ok b →
          BackgroundTile_name b = String c EmptyString).
Proof.
  split_and!.
  - by intros [].
  - intros c t. unfold parse_tile.
    repeat case_bool_decide; subst; by intros [= <-].
  - by intros [].
  - intros c b. unfold parse_background_tile.
    repeat case_bool_decide; subst; by intros [= <-].
Qed.

(** ** Printing *)

Lemma rmap_read_row {A : Type} (h : list (list A)) (ls : list nat) :
  Forall (λ l, (l < List.length h)%nat) ls →
  rmap (read_row h) ls = Ok (rows_at h ls).
Proof.
  induction 1 as [|l ls Hl _ IH]; [done|]. cbn [rmap rows_at fmap list_fmap].
  destruct (lookup_lt_is_Some_2 h l Hl) as [row Hrow].
  unfold read_row at 1. rewrite Hrow. cbn [rbind]. unfold rows_at in IH. by rewrite IH.
Qed.

Lemma State_str_view (self : State) (σ : Store) :
  allocated σ self →
  State_str self σ =
  Ok (str_join nl (print_row <$> zip2 (g_tiles (view σ self)) (g_background (view σ self)))).
Proof.
  intros [At Ab]. unfold State_str.
  by rewrite (rmap_read_row _ _ At), (rmap_read_row _ _ Ab).
Qed.

Lemma print_tile_length (t : Tile) (b : BackgroundTile) :
  String.length (print_tile t b) = 1%nat.
Proof. unfold print_tile. case_bool_decide; [by destruct b|by destruct t]. Qed.

Lemma string_app_length (s1 s2 : string) :
  String.length (s1 ++ s2) = (String.length s1 + String.length s2)%nat.
Proof.
  induction s1 as [|c s1 IH]; [done|].
  change (String c s1 +:+ s2) with (String c (s1 +:+ s2)).
  cbn [String.length Nat.add]. by rewrite IH.
Qed.

Lemma str_join_empty_length (ls : list string) :
  Forall (λ s, String.length s = 1%nat) ls →
  String.length (str_join EmptyString ls) = List.length ls.
Proof.
  induction 1 as [|s ls Hs _ IH]; [done|]. cbn [str_join List.length].
  destruct ls as [|s' ls]; [done|].
  rewrite !string_app_length, IH. cbn [String.length]. lia.
Qed.

Lemma print_row_length (row : list (Tile * BackgroundTile)) :
  String.length (print_row row) = List.length row.
Proof.
  unfold print_row. rewrite str_join_empty_length; [by rewrite length_fmap|].
  apply Forall_fmap, Forall_forall. intros xs _. apply print_tile_length.
Qed.

(** X2. [__str__] raises nothing, whatever the shapes of the two layers:
    it prints as many lines as the shorter layer has rows, and each line is
    as long as the shorter of the two rows it shows. *)
Theorem State_str_truncates (self : State) (σ : Store) :
  allocated σ self →
  ∃ lines,
    State_str self σ = Ok (str_join nl lines) ∧
    List.length lines =
      (List.length (tiles self) `min` List.length (background self))%nat ∧
    ∀ i line, lines !! i = Some line →
      ∃ rt rb, g_tiles (view σ self) !! i = Some rt ∧
               g_background (view σ self) !! i = Some rb ∧
               String.length line = (List.length rt `min` List.length rb)%nat.
Proof.
  intros Ha. eexists. split; [by apply State_str_view|]. split.
  - unfold zip2. rewrite length_fmap, length_zip_with. cbn [view g_tiles g_background].
    unfold rows_at. by rewrite !length_fmap.
  - intros i line. rewrite list_lookup_fmap. unfold zip2. rewrite lookup_zip_with.
    destruct (g_tiles (view σ self) !! i) as [rt|]; [|done].
    destruct (g_background (view σ self) !! i) as [rb|]; [|done].
    cbn. intros [= <-]. exists rt, rb. split_and!; [done|done|].
    by rewrite print_row_length, length_zip_with.
Qed.

Lemma State_str_truncates_witness :
  allocated ragged_store ragged_state ∧
  State_str {| length := 2; width := 2; tiles := [0; 1]%nat; background := [0%nat] |}
    ragged_store = Ok "p."%string ∧
  ∃ lines, State_str ragged_state ragged_store = Ok (str_join nl lines) ∧
           List.length lines = 2%nat.
Proof.
  assert (allocated ragged_store ragged_state) as Ha by repeat constructor.
  split; [exact Ha|]. split; [reflexivity|].
  destruct (State_str_truncates ragged_state ragged_store Ha) as (lines & Hs & Hlen & _).
  by exists lines.
Defined.

(** ** Lines of a joined text *)

Lemma chars_app (s1 s2 : string) : chars (s1 +:+ s2) = chars s1 ++ chars s2.
Proof.
  unfold chars. induction s1 as [|c s1 IH]; [done|].
  change (String c s1 +:+ s2) with (String c (s1 +:+ s2)). cbn. by rewrite IH.
Qed.

Lemma string_of_chars (s : string) : string_of_list_ascii (chars s) = s.
Proof. apply string_of_list_ascii_of_string. Qed.

Lemma splitlines_from_plain (s : list ascii) :
  ∀ cur rest,
    Forall (λ c, is_linebreak c = false) s →
    splitlines_from cur (s ++ rest) = splitlines_from (rev s ++ cur) rest.
Proof.
  induction s as [|c s IH]; intros cur rest Hs; [done|].
  apply Forall_cons in Hs as [Hc Hs]. cbn [app splitlines_from].
  rewrite bool_decide_eq_false_2.
  - rewrite Hc, IH by done. cbn [rev]. by rewrite <- app_assoc.
  - intros H13. unfold is_linebreak in Hc. rewrite H13 in Hc. by vm_compute in Hc.
Qed.

Lemma splitlines_from_nl (cur rest : list ascii) :
  splitlines_from cur (ascii_of_nat 10 :: rest) =
  string_of_list_ascii (rev cur) :: splitlines_from [] rest.
Proof. reflexivity. Qed.

(** The lines of a text joined by line feeds are found again by
    [splitlines], when none is empty and none holds a line break. *)
Lemma splitlines_str_join (lines : list string) :
  Forall (λ ln, ln ≠ EmptyString ∧ Forall (λ c, is_linebreak c = false) (chars ln)) lines →
  splitlines (str_join nl lines) = lines.
Proof.
  unfold splitlines. induction 1 as [|ln lines [Hne Hplain] Hrest IH]; [done|].
  cbn [str_join]. destruct lines as [|ln' lines].
  - rewrite <- (app_nil_r (chars ln)), splitlines_from_plain by done.
    rewrite app_nil_r. cbn [splitlines_from].
    destruct (rev (chars ln)) as [|c cs] eqn:Hrev.
    + apply (f_equal (@rev ascii)) in Hrev. rewrite rev_involutive in Hrev. cbn in Hrev.
      destruct ln; [done|discriminate].
    + by rewrite <- Hrev, rev_involutive, string_of_chars.
  - rewrite chars_app, splitlines_from_plain by done. rewrite app_nil_r.
    unfold nl at 1. change (String (ascii_of_nat 10) "" +:+ ?s) with (String (ascii_of_nat 10) s).
    change (chars (String (ascii_of_nat 10) ?s)) with (ascii_of_nat 10 :: chars s).
    rewrite splitlines_from_nl, rev_involutive, string_of_chars. f_equal. exact IH.
Qed.

Lemma print_tile_plain (t : Tile) (b : BackgroundTile) :
  Forall (λ c, is_linebreak c = false) (chars (print_tile t b)).
Proof.
  unfold print_tile. case_bool_decide; [destruct b|destruct t];
    by repeat constructor.
Qed.

Lemma str_join_empty_chars (ls : list string) :
  chars (str_join EmptyString ls) = mjoin (chars <$> ls).
Proof.
  induction ls as [|s ls IH]; [done|]. cbn [str_join fmap list_fmap mjoin list_join].
  destruct ls as [|s' ls].
  - by rewrite app_nil_r.
  - rewrite chars_app. change (EmptyString +:+ ?x) with x. by rewrite IH.
Qed.

Lemma print_row_plain (row : list (Tile * BackgroundTile)) :
  Forall (λ c, is_linebreak c = false) (chars (print_row row)).
Proof.
  unfold print_row. rewrite str_join_empty_chars. apply Forall_join.
  rewrite <- list_fmap_compose. apply Forall_fmap, Forall_forall.
  intros xs _. apply print_tile_plain.
Qed.

Lemma string_length_empty (s : string) : String.length s = 0%nat → s = EmptyString.
Proof. by destruct s. Qed.

(** X3. The text that [__str__] prints for a grid whose rows are not
    empty splits back, by [splitlines], into one line per row of the grid,
    each as long as the row. *)
Theorem State_str_splitlines (self : State) (σ : Store) (s : string) :
  allocated σ self →
  Forall (λ row, row ≠ []) (zip2 (g_tiles (view σ self)) (g_background (view σ self))) →
  State_str self σ = Ok s →
  splitlines s =
    print_row <$> zip2 (g_tiles (view σ self)) (g_background (view σ self)) ∧
  Forall2 (λ ln row, String.length ln = List.length row) (splitlines s)
    (zip2 (g_tiles (view σ self)) (g_background (view σ self))).
Proof.
  intros Ha Hne Hs. rewrite (State_str_view _ _ Ha) in Hs.
  set (rows := zip2 (g_tiles (view σ self)) (g_background (view σ self))) in *.
  injection Hs as <-.
  assert (splitlines (str_join nl (print_row <$> rows)) = print_row <$> rows) as Hsplit.
  { apply splitlines_str_join. apply Forall_fmap.
    eapply Forall_impl; [exact Hne|]. intros row Hrow. cbn. split.
    - intros Hempty. apply (f_equal String.length) in Hempty.
      rewrite print_row_length in Hempty. by destruct row.
    - apply print_row_plain. }
  split; [exact Hsplit|]. rewrite Hsplit. apply Forall2_fmap_l, Forall_Forall2_diag.
  apply Forall_forall. intros row _. apply print_row_length.
Qed.

Lemma State_str_splitlines_witness :
  allocated walled_store walled_state ∧
  State_str walled_state walled_store = Ok (str_join nl ["###"; "#p."; "###"]%string) ∧
  splitlines (str_join nl ["###"; "#p."; "###"]%string) = ["###"; "#p."; "###"]%string.
Proof.
  assert (allocated walled_store walled_state) as Ha by repeat constructor.
  assert (State_str walled_state walled_store =
          Ok (str_join nl ["###"; "#p."; "###"]%string)) as Hs by (by vm_compute).
  split; [exact Ha|]. split; [exact Hs|].
  destruct (State_str_splitlines walled_state walled_store
              (str_join nl ["###"; "#p."; "###"]%string) Ha) as [Hsplit _];
    [by repeat constructor|exact Hs|].
  rewrite Hsplit. by vm_compute.
Defined.

(** ** Printing a parsed level *)

Lemma string_app_empty_r (s : string) : s +:+ EmptyString = s.
Proof.
  induction s as [|c s IH]; [done|].
  change (String c s +:+ "") with (String c (s +:+ "")). by rewrite IH.
Qed.

Lemma str_join_empty_cons (a : string) (ls : list string) :
  str_join EmptyString (a :: ls) = a +:+ str_join EmptyString ls.
Proof. destruct ls; [by rewrite string_app_empty_r|done]. Qed.

Lemma print_tile_parsed (c d : ascii) (t : Tile) (b : BackgroundTile) :
  parse_tile c = Ok t → parse_background_tile d = Ok b →
  print_tile t b = String (if bool_decide (c = "."%char) then d else c) EmptyString.
Proof.
  unfold parse_tile, parse_background_tile, print_tile. intros Ht Hb.
  repeat case_bool_decide; simplify_eq; done.
Qed.

Lemma print_row_parsed (cs ds : list ascii) :
  ∀ row brow,
    rmap parse_tile cs = Ok row → rmap parse_background_tile ds = Ok brow →
    print_row (zip row brow) =
    string_of_list_ascii (zip_with (λ c d, if bool_decide (c = "."%char) then d else c) cs ds).
Proof.
  unfold print_row. revert ds.
  induction cs as [|c cs IH]; intros ds row brow Hr Hb; cbn [rmap] in Hr.
  - by injection Hr as <-.
  - inv_bind Hr. inv_bind Hr. injection Hr as <-. destruct ds as [|d ds]; cbn [rmap] in Hb.
    + by injection Hb as <-.
    + inv_bind Hb. inv_bind Hb. injection Hb as <-.
      cbn [zip zip_with fmap list_fmap string_of_list_ascii fst snd].
      rewrite str_join_empty_cons. fold (zip a0 a2).
      rewrite (IH ds a0 a2) by done. by rewrite (print_tile_parsed c d a a1).
Qed.

Lemma print_rows_parsed (tls : list string) :
  ∀ bls T B,
    rmap (λ ln, rmap parse_tile (chars ln)) tls = Ok T →
    rmap (λ ln, rmap parse_background_tile (chars ln)) bls = Ok B →
    print_row <$> zip2 T B = zip_with merge_lines tls bls.
Proof.
  induction tls as [|tl tls IH]; intros bls T B HT HB; cbn [rmap] in HT.
  - by injection HT as <-.
  - inv_bind HT. inv_bind HT. injection HT as <-. destruct bls as [|bl bls]; cbn [rmap] in HB.
    + by injection HB as <-.
    + inv_bind HB. inv_bind HB. injection HB as <-.
      unfold zip2. cbn [zip_with fmap list_fmap]. f_equal.
      * by apply print_row_parsed.
      * by apply IH.
Qed.

(** X4. Printing a level just parsed gives, line by line, its tile rows
    with every dot replaced by the background character below it; a line
    stops with the shorter of the two rows, and the lines with the shorter
    of the two layers. *)
Theorem State_str_of_parsed (level_str : string) (σ0 : Store) (st : State) (σ : Store) :
  parse_level level_str σ0 = (Some st, σ) →
  ∃ line0 n w,
    getitem (splitlines level_str) 0 = Ok line0 ∧
    parse_header line0 = Ok (n, w) ∧
    State_str st σ =
    Ok (str_join nl
          (zip_with merge_lines
             (slice (splitlines level_str) 1 (n + 1))
             (slice (splitlines level_str) (n + 1) (n * 2 + 1)))).
Proof.
  intros Hparse. pose proof (parse_level_holds _ _ _ _ Hparse) as (Ha & _).
  destruct (parse_level_Some _ _ _ _ Hparse)
    as (line0 & n & w & row0 & trows & brows & Hline0 & Hhd & Ht & Hb & -> & ->).
  exists line0, n, w. split_and!; [done|done|].
  rewrite (State_str_view _ _ Ha). unfold view.
  cbn [g_tiles g_background tiles background tile_rows bg_rows].
  rewrite !rows_at_seq. by rewrite (print_rows_parsed _ _ _ _ Ht Hb).
Qed.

Lemma State_str_of_parsed_witness :
  parse_level push_level empty_store = (Some push_state, push_store) ∧
  State_str push_state push_store = Ok "px.o"%string.
Proof.
  assert (parse_level push_level empty_store = (Some push_state, push_store)) as Hparse
    by (by vm_compute).
  split; [exact Hparse|].
  destruct (State_str_of_parsed push_level empty_store push_state push_store Hparse)
    as (line0 & n & w & Hline0 & Hhd & Hs).
  assert (line0 = "1 4"%string) as -> by (vm_compute in Hline0; congruence).
  assert (n = 1) as -> by (vm_compute in Hhd; congruence).
  rewrite Hs. by vm_compute.
Defined.

(** ** The positions of a grid *)

Lemma NoDup_range (n : Z) : NoDup (range n).
Proof.
  unfold range. apply NoDup_fmap_2_strong; [|apply NoDup_seq].
  intros a b _ _ Hab. lia.
Qed.

Lemma length_range (n : Z) : List.length (range n) = Z.to_nat n.
Proof. unfold range. by rewrite length_fmap, length_seq. Qed.

Lemma length_bind_const {A B : Type} (f : A → list B) (m : nat) (l : list A) :
  (∀ a, List.length (f a) = m) → List.length (l ≫= f) = (List.length l * m)%nat.
Proof.
  intros Hf. induction l as [|a l IH]; [done|]. cbn [mbind list_bind].
  rewrite length_app, Hf. change (list_bind _ _ f l) with (l ≫= f). rewrite IH.
  cbn [List.length]. lia.
Qed.

(** X5. [positions] yields exactly the positions that [is_inbounds]
    accepts, each of them once: [length × width] positions in all. *)
Theorem positions_are_the_inbounds (self : State) :
  (∀ p, p ∈ positions self ↔ is_inbounds self p = true) ∧
  NoDup (positions self) ∧
  List.length (positions self) = (Z.to_nat (length self) * Z.to_nat (width self))%nat.
Proof.
  split; [apply elem_of_positions|]. split.
  - unfold positions. apply NoDup_bind; [| |apply NoDup_range].
    + intros i1 i2 p _ _ (j1 & Hp1 & _)%list_elem_of_bind (j2 & Hp2 & _)%list_elem_of_bind.
      apply list_elem_of_singleton in Hp1, Hp2. congruence.
    + intros i _. apply NoDup_bind; [| |apply NoDup_range].
      * intros j1 j2 p _ _ Hp1%list_elem_of_singleton Hp2%list_elem_of_singleton.
        congruence.
      * intros j _. apply NoDup_singleton.
  - unfold positions. rewrite (length_bind_const _ (Z.to_nat (width self))).
    + by rewrite length_range.
    + intros i. rewrite (length_bind_const _ 1%nat); [|done]. rewrite length_range. lia.
Qed.

(** ** One move, one undo *)

(** X6. An undo right after a successful move returns true and gives
    back the game as it was before the move, each snapshot of which holds
    the grid it held. *)
Theorem undo_after_move (g : Game) (d : Vector2) (σ : Store) (g' : Game) (σ' : Store) :
  Forall (allocated σ) (state g) →
  Game_move g d σ = Ok (true, g', σ') →
  Game_undo g' = (true, g) ∧
  view σ' <$> state g = view σ <$> state g.
Proof.
  intros Hall Hm. pose proof (Game_move_extends _ _ _ _ _ _ Hm) as Hext.
  apply Game_move_Ok in Hm as (cur & c & σ1 & Hcur & _ & _ & _ & ->). split.
  - apply current_Ok in Hcur as [older Hst]. destruct g as [sts]. cbn [state] in *.
    subst sts. apply Game_undo_last. by destruct older.
  - apply Forall_fmap_ext_1. eapply Forall_impl; [exact Hall|].
    intros st Hst. by apply extends_view.
Qed.

Lemma undo_after_move_witness :
  Forall (allocated corridor_store) (state corridor_game) ∧
  Game_move corridor_game RIGHT corridor_store =
    Ok (true, corridor_stepped, corridor_stepped_store) ∧
  Game_undo corridor_stepped = (true, corridor_game).
Proof.
  assert (Forall (allocated corridor_store) (state corridor_game)) as Hall
    by repeat constructor.
  assert (Game_move corridor_game RIGHT corridor_store =
          Ok (true, corridor_stepped, corridor_stepped_store)) as Hm by (by vm_compute).
  split; [exact Hall|]. split; [exact Hm|].
  by destruct (undo_after_move corridor_game RIGHT corridor_store _ _ Hall Hm).
Defined.

(** ** The first snapshot *)

Lemma run_first_snapshot (cs : list command) :
  ∀ g σ g' σ' st older,
    state g = st :: older → run cs g σ = Ok (g', σ') →
    extends σ σ' ∧ ∃ older', state g' = st :: older'.
Proof.
  induction cs as [|[d|] cs IH]; intros g σ g' σ' st older Hst; cbn [run].
  - intros [= <- <-]. split; [done|]. by exists older.
  - intros H. inv_bind H. destruct a as [[b g1] σ1]. cbn [fst snd] in H.
    pose proof (Game_move_extends _ _ _ _ _ _ E) as Hext.
    apply Game_move_Ok in E as (_ & c & _ & _ & _ & _ & _ & ->).
    assert (∃ older1, state (if b then {| state := state g ++ [c] |} else g) = st :: older1)
      as [older1 Hst1].
    { destruct b; cbn [state]; rewrite Hst; eauto. }
    destruct (IH _ _ _ _ _ _ Hst1 H) as [Hext' Hres]. split; [by etrans|done].
  - assert (∃ older1, state (Game_undo g).2 = st :: older1) as [older1 Hst1].
    { unfold Game_undo. case_bool_decide as Hlen; cbn [snd state]; [|by eauto].
      rewrite Hst in *. destruct older as [|s older _] using rev_ind; [cbn in Hlen; lia|].
      rewrite app_comm_cons, removelast_last. eauto. }
    apply (IH _ _ _ _ _ _ Hst1).
Qed.

(** X7. Whatever moves and undos are run, the history is never empty and
    its first snapshot is the initial state, holding the grid it held at
    the start: no undo pops it, and [game.state[-1]] never raises. *)
Theorem history_keeps_initial_state (initial_state : State) (σ : Store)
    (cs : list command) (g' : Game) (σ' : Store) :
  allocated σ initial_state →
  run cs (Game_init initial_state) σ = Ok (g', σ') →
  (∃ newer, state g' = initial_state :: newer) ∧
  view σ' initial_state = view σ initial_state ∧
  ∃ cur, current g' = Ok cur.
Proof.
  intros Ha Hrun.
  destruct (run_first_snapshot cs (Game_init initial_state) σ g' σ' initial_state []
              eq_refl Hrun) as (Hext & newer & Hst).
  split_and!; [by exists newer|by apply extends_view|].
  destruct (state g') as [|s sts _] eqn:Hs using rev_ind; [done|].
  exists s. apply current_Ok. by exists sts.
Qed.

Lemma history_keeps_initial_state_witness :
  allocated push_store push_state ∧
  run push_commands (Game_init push_state) push_store = Ok push_end ∧
  ∃ newer, state push_end.1 = push_state :: newer.
Proof.
  assert (allocated push_store push_state) as Ha by repeat constructor.
  assert (run push_commands (Game_init push_state) push_store = Ok push_end) as Hrun
    by (by vm_compute).
  split; [exact Ha|]. split; [exact Hrun|].
  by destruct (history_keeps_initial_state push_state push_store push_commands
                 push_end.1 push_end.2 Ha Hrun) as (Hfirst & _).
Defined.

(** ** Walls and edges *)

Lemma move_player_stopped (self : State) (p d : Vector2) (h : list (list Tile)) :
  is_inbounds self (Vector2_add p d) = false ∨
  access (Vector2_add p d) (tiles self) h = Ok WALL →
  move_player self p d h = Ok (false, h).
Proof.
  intros [Hout|Hwall]; unfold move_player.
  - by rewrite Hout.
  - rewrite Hwall. by destruct (is_inbounds _ _).
Qed.

(** X8. In a rectangular grid each player of which faces the edge of the
    grid or a wall, a move returns false and leaves the history and the
    current grid as they were; a step off the grid does not wrap around to
    the other side. *)
Theorem move_into_wall_or_edge (g : Game) (d : Vector2) (σ : Store) (cur : State) :
  current g = Ok cur → allocated σ cur → rectangular σ cur →
  (∀ p, is_inbounds cur p = true →
        access p (tiles cur) (tile_rows σ) = Ok PLAYER →
        is_inbounds cur (Vector2_add p d) = false ∨
        access (Vector2_add p d) (tiles cur) (tile_rows σ) = Ok WALL) →
  ∃ σ', Game_move g d σ = Ok (false, g, σ') ∧ view σ' cur = view σ cur.
Proof.
  intros Hcur Ha Hr Hfaces. apply Game_move_all_fail; try done.
  intros p h Hp Hplayer c Hacc Hin. apply move_player_stopped.
  rewrite Hin, Hacc. by apply Hfaces.
Qed.

Lemma move_into_wall_or_edge_witness :
  (∃ σ', Game_move (Game_init cell_state) RIGHT cell_store =
           Ok (false, Game_init cell_state, σ')) ∧
  (∃ σ', Game_move (Game_init cell_state) LEFT cell_store =
           Ok (false, Game_init cell_state, σ')) ∧
  access (Vector2_add (mkVector2 0 0) LEFT) (tiles cell_state) (tile_rows cell_store) =
    Ok WALL.
Proof.
  assert (allocated cell_store cell_state) as Ha by repeat constructor.
  assert (rectangular cell_store cell_state) as Hr by repeat constructor.
  split; [|split; [|reflexivity]].
  - destruct (move_into_wall_or_edge (Game_init cell_state) RIGHT cell_store cell_state
                eq_refl Ha Hr) as (σ' & Hm & _); [|by exists σ'].
    intros p Hp%elem_of_positions Hplayer. cbn in Hp.
    repeat (apply elem_of_cons in Hp as [->|Hp]); try discriminate Hplayer;
      [by right|by apply elem_of_nil in Hp].
  - destruct (move_into_wall_or_edge (Game_init cell_state) LEFT cell_store cell_state
                eq_refl Ha Hr) as (σ' & Hm & _); [|by exists σ'].
    intros p Hp%elem_of_positions Hplayer. cbn in Hp.
    repeat (apply elem_of_cons in Hp as [->|Hp]); try discriminate Hplayer;
      [by left|by apply elem_of_nil in Hp].
Defined.

(** ** Properties of the grid that every run keeps *)

Lemma Game_move_keeps (P : Grid → Prop) (g : Game) (d : Vector2) (σ : Store) (b : bool)
    (g' : Game) (σ' : Store) :
  keeps P → holds P σ g → Game_move g d σ = Ok (b, g', σ') → holds P σ' g'.
Proof.
  intros HP Hall Hm. pose proof (Game_move_extends _ _ _ _ _ _ Hm) as Hext.
  assert (holds P σ' g) as Hold.
  { eapply Forall_impl; [exact Hall|]. intros st (Ha & Hnd & Hb).
    split; [by eapply extends_allocated|]. split; [done|].
    by rewrite (extends_view _ _ _ Hext Ha). }
  apply Game_move_Ok in Hm as (cur & c & σ1 & Hcur & Hc & Hs & Hbg & ->).
  destruct b; [|done]. unfold holds. cbn [state].
  apply Forall_app. split; [done|]. constructor; [|constructor].
  pose proof (current_elem_of _ _ Hcur) as Hin.
  unfold holds in Hall. rewrite Forall_forall in Hall.
  destruct (Hall _ Hin) as (Ha & Hnd & Hb).
  destruct (deepcopy_Ok _ _ _ _ Hc) as (Hext1 & _ & _ & Ft & Fb & Hv & Nt & _).
  assert (allocated σ1 c) as Hac.
  { split; (eapply Forall_impl; [eassumption|]); intros; simpl in *; lia. }
  apply move_scan_Ok in Hs as [[? _]|(_ & p & Hp%elem_of_positions & Hplayer & Hmp)];
    [done|].
  pose proof (frame_length _ _ _ (move_player_frame _ _ _ _ _ _ Hmp)) as Hlen.
  destruct σ' as [h' bg']. cbn [tile_rows bg_rows] in *. subst bg'.
  split; [|split; [by apply Nt|]].
  - destruct Hac as [Hat Hab]. split; [|done]. cbn [tile_rows]. by rewrite Hlen.
  - apply (HP c p d σ1 h'); try done; [by apply Nt|]. by rewrite (Hv Ha).
Qed.

Lemma Game_undo_keeps (P : Grid → Prop) (g : Game) (σ : Store) :
  holds P σ g → holds P σ (Game_undo g).2.
Proof.
  intros Hall. destruct (Game_undo_state g) as [newer Hst].
  unfold holds in *. rewrite Hst in Hall. by apply Forall_app in Hall as [? _].
Qed.

Lemma run_keeps (P : Grid → Prop) (cs : list command) :
  keeps P → ∀ g σ g' σ', holds P σ g → run cs g σ = Ok (g', σ') → holds P σ' g'.
Proof.
  intros HP. induction cs as [|[d|] cs IH]; intros g σ g' σ' Hh; cbn [run].
  - by intros [= <- <-].
  - intros H. inv_bind H. destruct a as [[b g1] σ1]. cbn [fst snd] in H.
    eapply IH; [|exact H]. by eapply Game_move_keeps.
  - apply IH. by apply Game_undo_keeps.
Qed.

Lemma parse_level_keeps (P : Grid → Prop) (level_str : string) (σ0 : Store) (st : State)
    (σ : Store) :
  parse_level level_str σ0 = (Some st, σ) → P (view σ st) → holds P σ (Game_init st).
Proof.
  intros Hp HP. destruct (parse_level_holds _ _ _ _ Hp) as (Ha & Hnd & _).
  constructor; [done|constructor].
Qed.

Lemma frame_rows_at_length {A : Type} (ls a : list loc) (h h' : list (list A)) :
  frame ls h h' → List.length <$> rows_at h' a = List.length <$> rows_at h a.
Proof.
  intros Hf. unfold rows_at. rewrite <- !list_fmap_compose. apply list_fmap_ext.
  intros _ l _. cbn. pose proof (frame_row_length _ _ _ l Hf) as Hl.
  destruct (h' !! l), (h !! l); cbn in *; congruence.
Qed.

Lemma run_background_shape (level_str : string) (σ0 : Store) (st : State)
    (σ : Store) (cs : list command) (g : Game) (σ1 : Store) :
  parse_level level_str σ0 = (Some st, σ) →
  run cs (Game_init st) σ = Ok (g, σ1) →
  ∀ s, s ∈ state g →
    length s = length st ∧ width s = width st ∧
    g_background (view σ1 s) = g_background (view σ st) ∧
    List.length <$> g_tiles (view σ1 s) = List.length <$> g_tiles (view σ st) ∧
    ∀ p, access p (background s) (bg_rows σ1) = access p (background st) (bg_rows σ).
Proof.
  intros Hp Hrun s Hs.
  set (P := λ G : Grid,
         g_length G = length st ∧ g_width G = width st ∧
         g_background G = g_background (view σ st) ∧
         List.length <$> g_tiles G = List.length <$> g_tiles (view σ st)).
  assert (keeps P) as HP.
  { intros c p d τ h' _ _ _ _ Hmp (HL & HW & HB & HS). unfold P, view in *.
    cbn [g_length g_width g_background g_tiles tile_rows bg_rows] in *.
    split; [done|]. split; [done|]. split; [done|].
    by rewrite (frame_rows_at_length _ _ _ _ (move_player_frame _ _ _ _ _ _ Hmp)). }
  assert (holds P σ (Game_init st)) as H0 by (by apply (parse_level_keeps P _ _ _ _ Hp)).
  pose proof (run_keeps P cs HP _ _ _ _ H0 Hrun) as Hg.
  unfold holds in Hg. rewrite Forall_forall in Hg.
  destruct (Hg s Hs) as ([_ Hab] & _ & HL & HW & HB & HS).
  destruct (parse_level_holds _ _ _ _ Hp) as ([_ Hab0] & _ & _).
  split; [done|]. split; [done|]. split; [done|]. split; [done|].
  intros p. rewrite !access_grid_get by done.
  unfold view in HB. cbn [g_background] in HB. by rewrite HB.
Qed.

(** X9. Along every run from a parsed level, each snapshot of the history
    has the dimensions of the parsed grid, tile rows of the lengths it had,
    and its background layer: no move or undo writes a target, and the
    targets read at any position are those of the parsed level. *)
Theorem background_and_shape_fixed (level_str : string) (σ0 : Store) (st : State)
    (σ : Store) (cs : list command) (g : Game) (σ1 : Store) :
  parse_level level_str σ0 = (Some st, σ) →
  run cs (Game_init st) σ = Ok (g, σ1) →
  ∀ s, s ∈ state g →
    length s = length st ∧ width s = width st ∧
    g_background (view σ1 s) = g_background (view σ st) ∧
    List.length <$> g_tiles (view σ1 s) = List.length <$> g_tiles (view σ st) ∧
    ∀ p, access p (background s) (bg_rows σ1) = access p (background st) (bg_rows σ).
Proof. apply run_background_shape. Qed.

Lemma background_and_shape_fixed_witness :
  parse_level push_level empty_store = (Some push_state, push_store) ∧
  run push_commands (Game_init push_state) push_store = Ok push_end ∧
  ∀ s, s ∈ state push_end.1 →
    g_background (view push_end.2 s) = [[BG_EMPTY; BG_EMPTY; BG_EMPTY; TARGET]].
Proof.
  assert (parse_level push_level empty_store = (Some push_state, push_store)) as Hp
    by (by vm_compute).
  assert (run push_commands (Game_init push_state) push_store = Ok push_end) as Hrun
    by (by vm_compute).
  split; [exact Hp|]. split; [exact Hrun|]. intros s Hs.
  by destruct (background_and_shape_fixed push_level empty_store push_state push_store
                 push_commands push_end.1 push_end.2 Hp Hrun s Hs) as (_ & _ & -> & _).
Defined.

(** ** What a step writes *)

Lemma move_player_cells (self : State) (p d : Vector2) (h h' : list (list Tile)) :
  NoDup (tiles self) → is_inbounds self p = true →
  access p (tiles self) h = Ok PLAYER →
  move_player self p d h = Ok (true, h') →
  ∃ t, has_room self h p d t ∧
       ∀ q, 0 ≤ x q → 0 ≤ y q →
            access q (tiles self) h' =
            after_step p d t (λ q, access q (tiles self) h) q.
Proof.
  intros Hnd [[Hpx _] [Hpy _]]%is_inbounds_true Hplayer Hm.
  apply move_player_Ok in Hm
    as [[? _]|(_ & Hin & t & h0 & h1 & Ht & Hnw & Hcase & H1 & H2)]; [done|].
  pose proof Hin as [[Htx _] [Hty _]]%is_inbounds_true.
  set (target := Vector2_add p d) in *. exists t.
  destruct Hcase as [[Hnb ->]|[-> Hb]].
  - split; [by split_and!|]. intros q Hqx Hqy. unfold after_step. fold target.
    destruct (decide (q = target)) as [->|Hqt]; [by apply (access_set_eq _ _ _ _ _ H2)|].
    rewrite (access_set_ne target q _ _ _ _ Hnd Htx Hty Hqx Hqy (not_eq_sym Hqt) H2).
    destruct (decide (q = p)) as [->|Hqp]; [by apply (access_set_eq _ _ _ _ _ H1)|].
    rewrite (access_set_ne p q _ _ _ _ Hnd Hpx Hpy Hqx Hqy (not_eq_sym Hqp) H1).
    by rewrite decide_False by (by intros [? _]).
  - apply move_box_Ok in Hb
      as [[? _]|(_ & Hin2 & u & hA & Hu & Hnw2 & Hnb2 & HA & H0)]; [done|].
    pose proof Hin2 as [[Hnx _] [Hny _]]%is_inbounds_true.
    set (next := Vector2_add target d) in *.
    split.
    { split; [done|]. split; [done|]. split; [done|]. intros _. split; [done|].
      by exists u. }
    intros q Hqx Hqy. unfold after_step. fold target. fold next.
    destruct (decide (q = target)) as [->|Hqt]; [by apply (access_set_eq _ _ _ _ _ H2)|].
    rewrite (access_set_ne target q _ _ _ _ Hnd Htx Hty Hqx Hqy (not_eq_sym Hqt) H2).
    destruct (decide (q = p)) as [->|Hqp]; [by apply (access_set_eq _ _ _ _ _ H1)|].
    rewrite (access_set_ne p q _ _ _ _ Hnd Hpx Hpy Hqx Hqy (not_eq_sym Hqp) H1).
    destruct (decide (q = next)) as [->|Hqn].
    + rewrite decide_True by done. by apply (access_set_eq _ _ _ _ _ H0).
    + rewrite decide_False by (by intros [_ ?]).
      rewrite (access_set_ne next q _ _ _ _ Hnd Hnx Hny Hqx Hqy (not_eq_sym Hqn) H0).
      by rewrite (access_set_ne target q _ _ _ _ Hnd Htx Hty Hqx Hqy (not_eq_sym Hqt) HA).
Qed.

Lemma Game_move_cells (g : Game) (d : Vector2) (σ : Store) (g' : Game) (σ' : Store)
    (cur : State) :
  current g = Ok cur → allocated σ cur → NoDup (tiles cur) →
  Game_move g d σ = Ok (true, g', σ') →
  ∃ c p t,
    state g' = state g ++ [c] ∧
    is_inbounds cur p = true ∧
    access p (tiles cur) (tile_rows σ) = Ok PLAYER ∧
    has_room cur (tile_rows σ) p d t ∧
    ∀ q, 0 ≤ x q → 0 ≤ y q →
         access q (tiles c) (tile_rows σ') =
         after_step p d t (λ q, access q (tiles cur) (tile_rows σ)) q.
Proof.
  intros Hcur Ha Hnd Hm.
  apply Game_move_Ok in Hm as (cur' & c & σ1 & Hcur' & Hc & Hs & _ & ->).
  unfold current in *. rewrite Hcur in Hcur'. injection Hcur' as <-.
  destruct (deepcopy_Ok _ _ _ _ Hc) as (_ & _ & _ & _ & _ & _ & Nt & _).
  apply move_scan_Ok in Hs as [[? _]|(_ & p & Hp%elem_of_positions & Hplayer & Hmp)];
    [done|].
  destruct (move_player_cells c p d _ _ (Nt Hnd) Hp Hplayer Hmp)
    as (t & (Hin & Ht & Hnw & Hbox) & Hcells).
  exists c, p, t. split; [done|].
  rewrite (deepcopy_is_inbounds _ _ _ _ _ Hc) in Hp.
  rewrite (deepcopy_is_inbounds _ _ _ _ _ Hc) in Hin.
  rewrite (deepcopy_access _ _ _ _ _ Ha Hc) in Hplayer.
  rewrite (deepcopy_access _ _ _ _ _ Ha Hc) in Ht.
  split; [done|]. split; [done|]. split.
  { split; [done|]. split; [done|]. split; [done|]. intros Hb.
    destruct (Hbox Hb) as (Hin2 & u & Hu & Hu1 & Hu2).
    rewrite (deepcopy_is_inbounds _ _ _ _ _ Hc) in Hin2.
    rewrite (deepcopy_access _ _ _ _ _ Ha Hc) in Hu. split; [done|]. by exists u. }
  intros q Hqx Hqy. rewrite (Hcells q Hqx Hqy). unfold after_step.
  by rewrite (deepcopy_access _ _ _ _ _ Ha Hc).
Qed.

(** X10. A move that returns true appends one snapshot. It differs from the
    grid the move was made in at three cells at most: a player stood at
    [p] with room ahead; the cell ahead now holds the player, [p] (if it
    is another cell) is empty, a box that was ahead is one cell further,
    and every other cell holds what it held. *)
Theorem move_effect (g : Game) (d : Vector2) (σ : Store) (g' : Game) (σ' : Store)
    (cur : State) :
  current g = Ok cur → allocated σ cur → NoDup (tiles cur) →
  Game_move g d σ = Ok (true, g', σ') →
  ∃ c p t,
    state g' = state g ++ [c] ∧ current g' = Ok c ∧
    is_inbounds cur p = true ∧
    access p (tiles cur) (tile_rows σ) = Ok PLAYER ∧
    has_room cur (tile_rows σ) p d t ∧
    ∀ q, 0 ≤ x q → 0 ≤ y q →
         access q (tiles c) (tile_rows σ') =
         after_step p d t (λ q, access q (tiles cur) (tile_rows σ)) q.
Proof.
  intros Hcur Ha Hnd Hm.
  destruct (Game_move_cells g d σ g' σ' cur Hcur Ha Hnd Hm)
    as (c & p & t & Hst & Hp & Hplayer & Hroom & Hcells).
  exists c, p, t. split; [done|]. split; [|done].
  apply current_Ok. by exists (state g).
Qed.

Lemma move_effect_witness :
  current (Game_init push_state) = Ok push_state ∧
  allocated push_store push_state ∧ NoDup (tiles push_state) ∧
  ∃ g' σ' c,
    Game_move (Game_init push_state) RIGHT push_store = Ok (true, g', σ') ∧
    current g' = Ok c ∧
    access (mkVector2 0 0) (tiles c) (tile_rows σ') = Ok EMPTY ∧
    access (mkVector2 0 1) (tiles c) (tile_rows σ') = Ok PLAYER ∧
    access (mkVector2 0 2) (tiles c) (tile_rows σ') = Ok BOX ∧
    access (mkVector2 0 3) (tiles c) (tile_rows σ') = Ok EMPTY.
Proof.
  assert (allocated push_store push_state) as Ha by repeat constructor.
  assert (NoDup (tiles push_state)) as Hnd by (apply NoDup_singleton).
  split; [reflexivity|]. split; [exact Ha|]. split; [exact Hnd|].
  destruct (Game_move (Game_init push_state) RIGHT push_store) as [[[b g'] σ']|e] eqn:Hm;
    [|by vm_compute in Hm].
  destruct b; [|by vm_compute in Hm].
  destruct (move_effect (Game_init push_state) RIGHT push_store g' σ' push_state
              eq_refl Ha Hnd Hm) as (c & p & t & _ & Hc & Hp & Hplayer & Hroom & Hcells).
  exists g', σ', c. split; [done|]. split; [done|].
  apply elem_of_positions in Hp. cbn in Hp.
  repeat (apply elem_of_cons in Hp as [->|Hp]); try discriminate Hplayer;
    [|by apply elem_of_nil in Hp].
  destruct Hroom as (_ & Ht & _). injection Ht as <-.
  split_and!; by rewrite Hcells.
Defined.

(** ** Walls *)

Lemma after_step_wall (p d : Vector2) (t : Tile) (before : Vector2 → result Tile)
    (q : Vector2) :
  before p = Ok PLAYER → before (Vector2_add p d) = Ok t → t ≠ WALL →
  (t = BOX → ∃ u, before (Vector2_add (Vector2_add p d) d) = Ok u ∧ u ≠ WALL) →
  after_step p d t before q = Ok WALL ↔ before q = Ok WALL.
Proof.
  intros Hp Ht Hnw Hbox. unfold after_step.
  destruct (decide (q = Vector2_add p d)) as [->|_]; [rewrite Ht; split; congruence|].
  destruct (decide (q = p)) as [->|_]; [rewrite Hp; split; congruence|].
  destruct (decide _) as [[Hb ->]|_]; [|done].
  destruct (Hbox Hb) as (u & -> & Hu). split; congruence.
Qed.

(** X11. Walls never move: along every run from a parsed level, each
    snapshot of the history has a wall at a position exactly where the
    parsed grid has one. *)
Theorem walls_never_move (level_str : string) (σ0 : Store) (st : State) (σ : Store)
    (cs : list command) (g : Game) (σ1 : Store) :
  parse_level level_str σ0 = (Some st, σ) →
  run cs (Game_init st) σ = Ok (g, σ1) →
  ∀ s q, s ∈ state g → 0 ≤ x q → 0 ≤ y q →
    access q (tiles s) (tile_rows σ1) = Ok WALL ↔
    access q (tiles st) (tile_rows σ) = Ok WALL.
Proof.
  intros Hp Hrun s q Hs Hqx Hqy.
  set (P := λ G : Grid,
         ∀ q, 0 ≤ x q → 0 ≤ y q →
              grid_get (g_tiles G) q = Ok WALL ↔
              access q (tiles st) (tile_rows σ) = Ok WALL).
  assert (keeps P) as HP.
  { intros c p d τ h' [Hat _] Hnd Hin Hplayer Hmp HG r Hrx Hry.
    rewrite <- (HG r Hrx Hry). unfold view. cbn [g_tiles tile_rows].
    pose proof (frame_length _ _ _ (move_player_frame _ _ _ _ _ _ Hmp)) as Hlen.
    rewrite <- !access_grid_get by (by rewrite ?Hlen).
    destruct (move_player_cells c p d _ _ Hnd Hin Hplayer Hmp)
      as (t & (_ & Ht & Hnw & Hbox) & Hcells).
    rewrite (Hcells r Hrx Hry). apply after_step_wall; try done.
    intros Hb. destruct (Hbox Hb) as (_ & u & Hu & Hu1 & _). by exists u. }
  assert (holds P σ (Game_init st)) as H0.
  { apply (parse_level_keeps P _ _ _ _ Hp). intros r Hrx Hry.
    destruct (parse_level_holds _ _ _ _ Hp) as ([Hat _] & _ & _).
    unfold view. cbn [g_tiles]. by rewrite <- access_grid_get. }
  pose proof (run_keeps P cs HP _ _ _ _ H0 Hrun) as Hg.
  unfold holds in Hg. rewrite Forall_forall in Hg.
  destruct (Hg s Hs) as ([Hat _] & _ & HG).
  rewrite <- (HG q Hqx Hqy). unfold view. cbn [g_tiles]. by rewrite <- access_grid_get.
Qed.

Lemma walls_never_move_witness :
  parse_level corridor empty_store = (Some corridor_state, corridor_store) ∧
  run [Move RIGHT; Move LEFT] corridor_game corridor_store = Ok corridor_walked ∧
  ∀ s, s ∈ state corridor_walked.1 →
       access (mkVector2 0 0) (tiles s) (tile_rows corridor_walked.2) = Ok WALL.
Proof.
  assert (parse_level corridor empty_store = (Some corridor_state, corridor_store)) as Hp
    by (by vm_compute).
  assert (run [Move RIGHT; Move LEFT] corridor_game corridor_store = Ok corridor_walked)
    as Hrun by (by vm_compute).
  split; [exact Hp|]. split; [exact Hrun|]. intros s Hs.
  by apply (walls_never_move corridor empty_store corridor_state corridor_store
              [Move RIGHT; Move LEFT] corridor_walked.1 corridor_walked.2 Hp Hrun
              s (mkVector2 0 0) Hs).
Defined.

(** ** Players *)

Lemma access_count (t : Tile) (q : Vector2) (a : list loc) (h : list (list Tile)) :
  Forall (λ l, (l < List.length h)%nat) a → access q a h = Ok t →
  (1 ≤ count_tile t (rows_at h a))%nat.
Proof.
  intros Hall Hq. rewrite access_grid_get in Hq by done. unfold grid_get in Hq.
  inv_bind Hq. rename a0 into row.
  apply getitem_Ok in E as (i & _ & Hi). apply getitem_Ok in Hq as (k & _ & Hk).
  unfold count_tile.
  assert (t ∈ filter (λ u, u = t) (mjoin (rows_at h a))) as Hin.
  { apply list_elem_of_filter. split; [done|]. apply list_elem_of_join.
    exists row. split; by eapply list_elem_of_lookup_2. }
  destruct (filter _ _); [by apply elem_of_nil in Hin|cbn; lia].
Qed.

Lemma move_player_players (self : State) (p d : Vector2) (h h' : list (list Tile)) :
  NoDup (tiles self) → Forall (λ l, (l < List.length h)%nat) (tiles self) →
  is_inbounds self p = true → access p (tiles self) h = Ok PLAYER →
  move_player self p d h = Ok (true, h') →
  (count_tile PLAYER (rows_at h' (tiles self)) ≤ count_tile PLAYER (rows_at h (tiles self)))%nat ∧
  (1 ≤ count_tile PLAYER (rows_at h' (tiles self)))%nat.
Proof.
  intros Hnd Hall Hin Hplayer Hm.
  pose proof Hin as [[Hpx _] [Hpy _]]%is_inbounds_true.
  pose proof (frame_length _ _ _ (move_player_frame _ _ _ _ _ _ Hm)) as Hlen.
  apply move_player_Ok in Hm
    as [[? _]|(_ & [[Htx _] [Hty _]]%is_inbounds_true & t & h0 & h1 & Ht & Hnw & Hcase & H1 & H2)];
    [done|].
  set (target := Vector2_add p d) in *.
  split; [|apply (access_count PLAYER target); [by rewrite Hlen|by apply (access_set_eq _ _ _ _ _ H2)]].
  destruct Hcase as [[Hnb ->]|[-> Hb]].
  - pose proof (set_count PLAYER _ _ _ _ _ _ Hnd Hall Hplayer H1) as C1.
    pose proof (set_allocated _ _ _ _ _ _ H1 Hall) as Hall1.
    assert (∃ o, access target (tiles self) h1 = Ok o) as [o Ho].
    { destruct (decide (target = p)) as [Heq|Hne].
      - exists EMPTY. rewrite Heq. by apply (access_set_eq _ _ _ _ _ H1).
      - exists t.
        by rewrite (access_set_ne p target _ _ _ _ Hnd Hpx Hpy Htx Hty (not_eq_sym Hne) H1). }
    pose proof (set_count PLAYER _ _ _ _ _ _ Hnd Hall1 Ho H2) as C2.
    rewrite is_tile_eq in C1, C2. rewrite (is_tile_ne PLAYER EMPTY) in C1 by done. lia.
  - apply move_box_Ok in Hb
      as [[? _]|(_ & [[Hnx _] [Hny _]]%is_inbounds_true & u & hA & Hu & _ & Hnb2 & HA & H0)];
      [done|].
    set (next := Vector2_add target d) in *.
    assert (target ≠ p) as Htp by (intros Heq; rewrite Heq in Ht; congruence).
    assert (next ≠ target) as Hnt by (intros Heq; rewrite Heq in Hu; congruence).
    assert (next ≠ p) as Hnp.
    { intros Heq. by apply Htp, Vector2_add_fixed. }
    pose proof (set_allocated _ _ _ _ _ _ HA Hall) as HallA.
    pose proof (set_allocated _ _ _ _ _ _ H0 HallA) as Hall0.
    pose proof (set_allocated _ _ _ _ _ _ H1 Hall0) as Hall1.
    pose proof (set_count PLAYER _ _ _ _ _ _ Hnd Hall Ht HA) as CA.
    pose proof (access_set_ne target next _ _ _ _ Hnd Htx Hty Hnx Hny (not_eq_sym Hnt) HA)
      as HnextA. rewrite Hu in HnextA.
    pose proof (set_count PLAYER _ _ _ _ _ _ Hnd HallA HnextA H0) as C0.
    assert (access p (tiles self) h0 = Ok PLAYER) as Hp0.
    { rewrite (access_set_ne next p _ _ _ _ Hnd Hnx Hny Hpx Hpy Hnp H0).
      by rewrite (access_set_ne target p _ _ _ _ Hnd Htx Hty Hpx Hpy Htp HA). }
    pose proof (set_count PLAYER _ _ _ _ _ _ Hnd Hall0 Hp0 H1) as C1.
    assert (access target (tiles self) h1 = Ok EMPTY) as Ht1.
    { rewrite (access_set_ne p target _ _ _ _ Hnd Hpx Hpy Htx Hty (not_eq_sym Htp) H1).
      rewrite (access_set_ne next target _ _ _ _ Hnd Hnx Hny Htx Hty Hnt H0).
      by apply (access_set_eq _ _ _ _ _ HA). }
    pose proof (set_count PLAYER _ _ _ _ _ _ Hnd Hall1 Ht1 H2) as C2.
    rewrite !is_tile_eq in *.
    rewrite !(is_tile_ne PLAYER EMPTY), !(is_tile_ne PLAYER BOX) in * by done. lia.
Qed.

(** X12. No move makes a player: along every run from a parsed level, no
    snapshot holds more players than the parsed grid, and none is without
    a player if the parsed grid has one; a level with one player keeps
    exactly one. Where there are several, a move may lose one: a player
    steps onto the cell of another. *)
Theorem players_never_appear (level_str : string) (σ0 : Store) (st : State) (σ : Store)
    (cs : list command) (g : Game) (σ1 : Store) :
  parse_level level_str σ0 = (Some st, σ) →
  run cs (Game_init st) σ = Ok (g, σ1) →
  ∀ s, s ∈ state g →
    (players σ1 s ≤ players σ st)%nat ∧
    ((1 ≤ players σ st)%nat → (1 ≤ players σ1 s)%nat) ∧
    (players σ st = 1%nat → players σ1 s = 1%nat).
Proof.
  intros Hp Hrun s Hs.
  set (P := λ G : Grid,
         (count_tile PLAYER (g_tiles G) ≤ players σ st)%nat ∧
         ((1 ≤ players σ st)%nat → (1 ≤ count_tile PLAYER (g_tiles G))%nat)).
  assert (keeps P) as HP.
  { intros c p d τ h' [Hat _] Hnd Hin Hplayer Hmp [Hle Hge].
    destruct (move_player_players c p d _ _ Hnd Hat Hin Hplayer Hmp) as [Hle' Hge'].
    unfold P, view in *. cbn [g_tiles tile_rows] in *. split; [lia|done]. }
  assert (holds P σ (Game_init st)) as H0.
  { apply (parse_level_keeps P _ _ _ _ Hp). by split. }
  pose proof (run_keeps P cs HP _ _ _ _ H0 Hrun) as Hg.
  unfold holds in Hg. rewrite Forall_forall in Hg.
  destruct (Hg s Hs) as (_ & _ & Hle & Hge). fold (players σ1 s) in Hle, Hge.
  split; [done|]. split; [done|]. intros H1. lia.
Qed.

Lemma players_never_appear_witness :
  parse_level two_players empty_store = (Some two_players_state, two_players_store) ∧
  players two_players_store two_players_state = 2%nat ∧
  ∃ g σ1 s,
    run [Move LEFT] (Game_init two_players_state) two_players_store = Ok (g, σ1) ∧
    current g = Ok s ∧
    (players σ1 s ≤ players two_players_store two_players_state)%nat ∧
    players σ1 s = 1%nat.
Proof.
  assert (parse_level two_players empty_store = (Some two_players_state, two_players_store))
    as Hp by (by vm_compute).
  split; [exact Hp|]. split; [reflexivity|].
  destruct (run [Move LEFT] (Game_init two_players_state) two_players_store)
    as [[g σ1]|e] eqn:Hrun; [|by vm_compute in Hrun].
  destruct (current g) as [s|e] eqn:Hcur;
    [|by vm_compute in Hrun; injection Hrun as <- <-].
  exists g, σ1, s. split; [done|]. split; [done|].
  pose proof (players_never_appear two_players empty_store two_players_state
                two_players_store [Move LEFT] g σ1 Hp Hrun s
                (current_elem_of g s Hcur)) as (Hle & _).
  split; [exact Hle|].
  vm_compute in Hrun. injection Hrun as <- <-. vm_compute in Hcur. injection Hcur as <-.
  reflexivity.
Defined.

(** ** When a move succeeds *)

Lemma has_room_move_player (self : State) (p d : Vector2) (h : list (list Tile)) (t : Tile) :
  readable self h → is_inbounds self p = true → has_room self h p d t →
  ∃ h', move_player self p d h = Ok (true, h').
Proof.
  intros Hr Hp (Hin & Ht & Hnw & Hbox). unfold move_player.
  rewrite Hin. cbn [negb]. rewrite Ht. cbn [rbind].
  rewrite bool_decide_eq_false_2 by done. case_bool_decide as Hb.
  - destruct (Hbox Hb) as (Hin2 & u & Hu & Hu1 & Hu2).
    rewrite move_box_unfold. cbv zeta. rewrite Hin2. cbn [negb]. rewrite Hu. cbn [rbind].
    rewrite !bool_decide_eq_false_2 by done.
    destruct (set_readable self _ EMPTY h Hr Hin) as (hA & -> & HrA). cbn [rbind].
    destruct (set_readable self _ BOX hA HrA Hin2) as (h0 & -> & Hr0).
    cbn [rbind fst snd negb].
    destruct (set_readable self p EMPTY h0 Hr0 Hp) as (h1 & -> & Hr1). cbn [rbind].
    destruct (set_readable self _ PLAYER h1 Hr1 Hin) as (h2 & -> & _). by eexists.
  - destruct (set_readable self p EMPTY h Hr Hp) as (h1 & -> & Hr1). cbn [rbind].
    destruct (set_readable self _ PLAYER h1 Hr1 Hin) as (h2 & -> & _). by eexists.
Qed.

Lemma move_player_has_room (self : State) (p d : Vector2) (h h' : list (list Tile)) :
  move_player self p d h = Ok (true, h') → ∃ t, has_room self h p d t.
Proof.
  intros Hm. apply move_player_Ok in Hm
    as [[? _]|(_ & Hin & t & h0 & h1 & Ht & Hnw & Hcase & _)]; [done|].
  exists t. split; [done|]. split; [done|]. split; [done|]. intros Hb.
  destruct Hcase as [[? _]|[_ Hbox]]; [done|].
  apply move_box_Ok in Hbox as [[? _]|(_ & Hin2 & u & _ & Hu & Hu1 & Hu2 & _)]; [done|].
  split; [done|]. by exists u.
Qed.

Lemma move_scan_true (self : State) (d : Vector2) (ps : list Vector2)
    (h : list (list Tile)) :
  readable self h → Forall (λ p, is_inbounds self p = true) ps →
  (∃ p t, p ∈ ps ∧ access p (tiles self) h = Ok PLAYER ∧ has_room self h p d t) →
  ∃ h', move_scan self d ps h = Ok (true, h').
Proof.
  intros Hr. induction ps as [|p0 ps IH]; intros Hall (p & t & Hp & Hplayer & Hroom).
  { by apply elem_of_nil in Hp. }
  apply Forall_cons in Hall as [Hp0 Hall]. cbn [move_scan].
  destruct (Hr p0 Hp0) as [t0 Ht0]. rewrite Ht0. cbn [rbind].
  case_bool_decide as Hpl.
  - destruct (move_player_total self p0 d h Hr Hp0) as [[b h1] Hm].
    rewrite Hm. cbn [rbind fst snd]. destruct b; [by eexists|].
    apply move_player_Ok in Hm as Hm'. destruct Hm' as [[_ ->]|[? _]]; [|done].
    apply IH; [done|]. exists p, t. split; [|done].
    apply elem_of_cons in Hp as [->|Hp]; [|done].
    destruct (has_room_move_player self p0 d h t Hr Hp0 Hroom) as [h' Hm'].
    congruence.
  - apply IH; [done|]. exists p, t. split; [|done].
    apply elem_of_cons in Hp as [->|Hp]; [|done]. congruence.
Qed.

Lemma Game_move_room (g : Game) (d : Vector2) (σ : Store) (cur : State) :
  current g = Ok cur → allocated σ cur → rectangular σ cur →
  ∃ b g' σ',
    Game_move g d σ = Ok (b, g', σ') ∧
    (b = true ↔
     ∃ p t, is_inbounds cur p = true ∧
            access p (tiles cur) (tile_rows σ) = Ok PLAYER ∧
            has_room cur (tile_rows σ) p d t).
Proof.
  intros Hcur Ha Hr.
  destruct (deepcopy_total cur σ Ha) as (c & σ1 & Hc).
  pose proof (rectangular_readable _ _ (deepcopy_rectangular _ _ _ _ Ha Hr Hc)) as Hrc.
  assert (Forall (λ p, is_inbounds c p = true) (positions c)) as Hpos.
  { apply Forall_forall. intros p. by rewrite elem_of_positions. }
  assert (∀ p t, has_room c (tile_rows σ1) p d t ↔ has_room cur (tile_rows σ) p d t)
    as Hroom.
  { intros p t. unfold has_room.
    rewrite !(deepcopy_is_inbounds _ _ _ _ _ Hc).
    by rewrite !(deepcopy_access _ _ _ _ _ Ha Hc). }
  destruct (move_scan_total c d (positions c) (tile_rows σ1) Hrc Hpos) as [[b h'] Hs].
  exists b, (if b then {| state := state g ++ [c] |} else g),
    {| tile_rows := h'; bg_rows := bg_rows σ1 |}.
  split.
  { unfold Game_move. unfold current in Hcur. rewrite Hcur. cbn [rbind].
    rewrite Hc. cbn [rbind fst snd]. rewrite Hs. cbn [rbind fst snd]. by destruct b. }
  split.
  - intros ->.
    apply move_scan_Ok in Hs as [[? _]|(_ & p & Hp%elem_of_positions & Hplayer & Hmp)];
      [done|].
    destruct (move_player_has_room _ _ _ _ _ Hmp) as [t Ht]. exists p, t.
    rewrite (deepcopy_is_inbounds _ _ _ _ _ Hc) in Hp.
    rewrite (deepcopy_access _ _ _ _ _ Ha Hc) in Hplayer.
    split; [done|]. split; [done|]. by apply Hroom.
  - intros (p & t & Hp & Hplayer & Ht).
    destruct (move_scan_true c d (positions c) (tile_rows σ1) Hrc Hpos) as [h'' Hs'];
      [|congruence].
    exists p, t. split; [apply elem_of_positions; by rewrite (deepcopy_is_inbounds _ _ _ _ _ Hc)|].
    split; [by rewrite (deepcopy_access _ _ _ _ _ Ha Hc)|]. by apply Hroom.
Qed.

(** X13. In a rectangular grid a move raises nothing, and it returns true
    exactly when some player has room: the cell ahead of it is in the grid
    and no wall, and a box there has behind it a cell of the grid with
    neither a wall nor a box. *)
Theorem move_succeeds_iff_room (g : Game) (d : Vector2) (σ : Store) (cur : State) :
  current g = Ok cur → allocated σ cur → rectangular σ cur →
  ∃ b g' σ',
    Game_move g d σ = Ok (b, g', σ') ∧
    (b = true ↔
     ∃ p t, is_inbounds cur p = true ∧
            access p (tiles cur) (tile_rows σ) = Ok PLAYER ∧
            has_room cur (tile_rows σ) p d t).
Proof. apply Game_move_room. Qed.

Lemma move_succeeds_iff_room_witness :
  current (Game_init push_state) = Ok push_state ∧
  allocated push_store push_state ∧ rectangular push_store push_state ∧
  has_room push_state (tile_rows push_store) (mkVector2 0 0) RIGHT BOX ∧
  ∃ g' σ', Game_move (Game_init push_state) RIGHT push_store = Ok (true, g', σ').
Proof.
  assert (allocated push_store push_state) as Ha by repeat constructor.
  assert (rectangular push_store push_state) as Hr by repeat constructor.
  assert (has_room push_state (tile_rows push_store) (mkVector2 0 0) RIGHT BOX) as Hroom.
  { split; [reflexivity|]. split; [reflexivity|]. split; [discriminate|].
    intros _. split; [reflexivity|]. exists EMPTY. split; [reflexivity|].
    split; discriminate. }
  split; [reflexivity|]. split; [exact Ha|]. split; [exact Hr|]. split; [exact Hroom|].
  destruct (move_succeeds_iff_room (Game_init push_state) RIGHT push_store push_state
              eq_refl Ha Hr) as (b & g' & σ' & Hm & Hb).
  exists g', σ'. rewrite Hm. f_equal. f_equal. f_equal. apply Hb.
  exists (mkVector2 0 0), BOX. split; [reflexivity|]. split; [reflexivity|]. exact Hroom.
Defined.

(** ** What the parser accepts *)

Lemma slice_tile_lines {A : Type} (a0 : A) (l1 l2 : list A) :
  slice (a0 :: l1 ++ l2) 1 (Z.of_nat (List.length l1) + 1) = l1.
Proof.
  unfold slice, slice_bound. cbn [List.length]. rewrite length_app.
  rewrite !bool_decide_eq_false_2 by lia.
  replace (Z.to_nat (Z.min 1 _)) with 1%nat by lia.
  replace (Z.to_nat (Z.min (Z.of_nat (List.length l1) + 1) _))
    with (S (List.length l1)) by lia.
  cbn [drop]. rewrite drop_0. replace (S _ - 1)%nat with (List.length l1) by lia.
  by rewrite take_app_length.
Qed.

Lemma slice_background_lines {A : Type} (a0 : A) (l1 l2 : list A) :
  slice (a0 :: l1 ++ l2) (Z.of_nat (List.length l1) + 1)
        (Z.of_nat (List.length l1) * 2 + 1) =
  take (List.length l1) l2.
Proof.
  unfold slice, slice_bound. cbn [List.length]. rewrite length_app.
  rewrite !bool_decide_eq_false_2 by lia.
  replace (Z.to_nat (Z.min (Z.of_nat (List.length l1) + 1) _))
    with (S (List.length l1)) by lia.
  cbn [drop]. rewrite drop_app_length.
  destruct (decide (List.length l1 ≤ List.length l2)%nat) as [Hle|Hgt].
  - f_equal. lia.
  - rewrite !take_ge by lia. done.
Qed.

Lemma existsb_false_Forall {A : Type} (f : A → bool) (l : list A) :
  Forall (λ a, f a = false) l → existsb f l = false.
Proof. induction 1 as [|a l Ha _ IH]; [done|]. cbn. by rewrite Ha, IH. Qed.

Lemma bad_row_false (ok : list ascii) (ln : string) :
  Forall (λ c, c ∈ ok) (chars ln) → bad_row ok ln = false.
Proof.
  intros Hall. unfold bad_row. apply existsb_false_Forall.
  eapply Forall_impl; [exact Hall|]. intros c Hc. cbv beta.
  by rewrite bool_decide_eq_true_2.
Qed.

(** X14. A text is accepted when its first line is a header that
    [parse_header] reads as two integers (literals that [int] converts, of
    no more than [int_max_str_digits] digits), the first of which counts
    the non-empty block of tile lines that follows, and the tile lines and
    the (at most as many) lines after them are written in the characters
    of their layer. The grid then has
    as many rows as the header says, the width of its first tile line, and
    holds, character by character, the tiles and the markings of the
    lines. The second number of the header is not looked at. *)
Theorem parse_level_accepts (level_str header : string) (tile_lines after : list string)
    (n w : Z) (σ0 : Store) :
  splitlines level_str = header :: tile_lines ++ after →
  parse_header header = Ok (n, w) →
  n = Z.of_nat (List.length tile_lines) → tile_lines ≠ [] →
  Forall (λ ln, Forall (λ c, c ∈ tile_chars) (chars ln)) tile_lines →
  Forall (λ ln, Forall (λ c, c ∈ background_chars) (chars ln))
         (take (List.length tile_lines) after) →
  ∃ st σ,
    parse_level level_str σ0 = (Some st, σ) ∧
    length st = n ∧
    Some (width st) = Z.of_nat ∘ String.length <$> head tile_lines ∧
    Forall2 (λ ln row, Forall2 (λ c t, parse_tile c = Ok t) (chars ln) row)
            tile_lines (g_tiles (view σ st)) ∧
    Forall2 (λ ln row, Forall2 (λ c b, parse_background_tile c = Ok b) (chars ln) row)
            (take (List.length tile_lines) after) (g_background (view σ st)).
Proof.
  intros Hlines Hhd -> Hne Htiles Hbg.
  assert (rejects level_str = false) as Hrej.
  { unfold rejects. rewrite Hlines, Hhd. cbn [fst].
    rewrite slice_tile_lines, slice_background_lines.
    rewrite (existsb_false_Forall (bad_row tile_chars)), (existsb_false_Forall (bad_row background_chars)).
    - by rewrite bool_decide_eq_false_2.
    - eapply Forall_impl; [exact Hbg|]. intros ln. apply bad_row_false.
    - eapply Forall_impl; [exact Htiles|]. intros ln. apply bad_row_false. }
  rewrite <- (raises_parse_level_try level_str σ0) in Hrej.
  destruct (parse_level_try level_str σ0) as [[st σ]|e] eqn:Htry; [|done].
  assert (parse_level level_str σ0 = (Some st, σ)) as Hparse.
  { unfold parse_level. by rewrite Htry. }
  exists st, σ. split; [done|].
  destruct (parse_level_Some _ _ _ _ Hparse)
    as (line0 & n' & w' & row0 & trows & brows & Hline0 & Hhd' & Ht & Hb & -> & ->).
  rewrite Hlines, getitem_first in Hline0. injection Hline0 as <-.
  rewrite Hhd in Hhd'. injection Hhd' as <- <-.
  rewrite Hlines, slice_tile_lines in Ht. rewrite Hlines, slice_background_lines in Hb.
  pose proof (rmap_Forall2 _ _ _ Ht) as Hrows.
  pose proof (rmap_Forall2 _ _ _ Hb) as Hbrows.
  unfold view. cbn [length width g_tiles g_background tiles background tile_rows bg_rows].
  rewrite !rows_at_seq.
  split; [by rewrite (Forall2_length _ _ _ Hrows)|]. split.
  - destruct tile_lines as [|ln0 lns]; [done|].
    apply Forall2_cons_1 in Hrows as [Hrow0 _]. cbn.
    by rewrite (rmap_length _ _ _ Hrow0), chars_length.
  - split.
    + eapply Forall2_impl; [exact Hrows|]. intros ln row. apply rmap_Forall2.
    + eapply Forall2_impl; [exact Hbrows|]. intros ln row. apply rmap_Forall2.
Qed.

Lemma parse_level_accepts_witness :
  splitlines push_level = "1 4"%string :: ["px.."%string] ++ ["...o"%string] ∧
  parse_header "1 4" = Ok (1, 4) ∧
  ∃ st σ,
    parse_level push_level empty_store = (Some st, σ) ∧
    length st = 1 ∧ width st = 4 ∧
    g_tiles (view σ st) = [[PLAYER; BOX; EMPTY; EMPTY]].
Proof.
  assert (splitlines push_level = "1 4"%string :: ["px.."%string] ++ ["...o"%string])
    as Hlines by reflexivity.
  assert (parse_header "1 4" = Ok (1, 4)) as Hhd by reflexivity.
  split; [exact Hlines|]. split; [exact Hhd|].
  destruct (parse_level_accepts push_level "1 4" ["px.."%string] ["...o"%string] 1 4
              empty_store Hlines Hhd eq_refl)
    as (st & σ & Hparse & HL & HW & Ht & _).
  - discriminate.
  - repeat constructor.
  - repeat constructor.
  - exists st, σ. split; [exact Hparse|]. split; [exact HL|].
    split; [by injection HW|].
    vm_compute in Hparse. injection Hparse as <- <-. reflexivity.
Defined.

(** ** Writing a cell, then reading *)

(** X15. [Vector2.set] succeeds exactly where [Vector2.access] does. After
    [p.set(a, val)] the cell reads [val], through [p] and through every
    index of [a] that names the same row object; only rows of [a] changed
    and none changed its length; and when no row occurs twice in [a],
    every other cell at non-negative coordinates reads what it read. *)
Theorem Vector2_set_then_access {A : Type} (p : Vector2) (a : list loc) (h : list (list A)) :
  (∀ val, (∃ h', set p a val h = Ok h') ↔ ∃ old, access p a h = Ok old) ∧
  ∀ val h', set p a val h = Ok h' →
    access p a h' = Ok val ∧
    (∀ i, getitem a i = getitem a (x p) → access (mkVector2 i (y p)) a h' = Ok val) ∧
    frame a h h' ∧
    (NoDup a → 0 ≤ x p → 0 ≤ y p →
     ∀ q, 0 ≤ x q → 0 ≤ y q → q ≠ p → access q a h' = access q a h).
Proof.
  split.
  - intros val. split.
    + intros [h' (l & row & k & Hl & Hrow & Hk & _)%set_Ok].
      destruct (row !! k) as [old|] eqn:Hold.
      * exists old. apply access_Ok. exists l, row. split; [done|]. split; [done|].
        apply getitem_Ok. by exists k.
      * apply norm_index_Some in Hk as [Hk _]. apply lookup_ge_None in Hold. lia.
    + intros [old Hold]. by eapply set_after_access.
  - intros val h' Hset. split; [by eapply access_set_eq|]. split; [|split].
    + intros i Hi. apply set_Ok in Hset as (l & row & k & Hl & Hrow & Hk & ->).
      apply access_Ok. exists l, (<[k:=val]> row). cbn [x y]. split; [congruence|]. split.
      * apply list_lookup_insert_eq. by eapply lookup_lt_Some.
      * apply getitem_Ok. exists k. rewrite length_insert. split; [done|].
        apply list_lookup_insert_eq. by apply norm_index_Some in Hk as [? _].
    + eapply set_frame, Hset.
    + intros Hnd Hpx Hpy q Hqx Hqy Hne.
      by apply (access_set_ne p q a val h h' Hnd Hpx Hpy Hqx Hqy (not_eq_sym Hne)).
Qed.

Lemma Vector2_set_then_access_witness :
  ∃ h', set (mkVector2 (-1) 1) [0; 1]%nat BOX [[EMPTY; EMPTY]; [WALL; EMPTY]] = Ok h' ∧
        access (mkVector2 (-1) 1) [0; 1]%nat h' = Ok BOX ∧
        access (mkVector2 1 1) [0; 1]%nat h' = Ok BOX ∧
        h' = [[EMPTY; EMPTY]; [WALL; BOX]].
Proof.
  exists [[EMPTY; EMPTY]; [WALL; BOX]].
  assert (set (mkVector2 (-1) 1) [0; 1]%nat BOX [[EMPTY; EMPTY]; [WALL; EMPTY]] =
          Ok [[EMPTY; EMPTY]; [WALL; BOX]]) as Hset by reflexivity.
  destruct (Vector2_set_then_access (mkVector2 (-1) 1) [0; 1]%nat
              [[EMPTY; EMPTY]; [WALL; EMPTY]]) as [_ Hafter].
  destruct (Hafter BOX _ Hset) as (Hp & Hrow & _).
  split; [exact Hset|]. split; [exact Hp|]. split; [|reflexivity].
  apply (Hrow 1). reflexivity.
Defined.

(** ** A step and the step back *)

Lemma Game_move_current (g : Game) (d : Vector2) (σ : Store) (g' : Game) (σ' : Store)
    (cur : State) :
  sound σ g → separated g → current g = Ok cur →
  Game_move g d σ = Ok (true, g', σ') →
  ∃ c, state g' = state g ++ [c] ∧ current g' = Ok c ∧
       sound σ' g' ∧ separated g' ∧
       allocated σ' c ∧ rectangular σ' c ∧ NoDup (tiles c) ∧
       ∀ q, is_inbounds c q = is_inbounds cur q.
Proof.
  intros Hsound Hsep Hcur Hm.
  destruct (Game_move_total g d σ Hsound) as (b' & g'' & σ'' & Hm' & Hsound').
  rewrite Hm in Hm'. injection Hm' as <- <- <-.
  destruct Hsound as (_ & Hall & _).
  destruct (Game_move_separated g d σ g' σ' Hsep Hall Hm)
    as (cur' & c & σ1 & Hcur' & Hc & _ & Hst & Hsep' & Hall').
  rewrite Hcur in Hcur'. injection Hcur' as <-.
  exists c. split; [done|].
  assert (current g' = Ok c) as Hc' by (apply current_Ok; by exists (state g)).
  split; [done|]. split; [done|]. split; [done|].
  pose proof (current_elem_of _ _ Hc') as Hin.
  destruct Hsound' as (_ & Ha' & Hr'). rewrite Forall_forall in Ha', Hr'.
  split; [by apply Ha'|]. split; [by apply Hr'|]. split.
  - destruct Hsep' as [Hnd _]. eapply NoDup_join_elem; [exact Hnd|].
    apply list_elem_of_fmap. by exists c.
  - intros q. by eapply deepcopy_is_inbounds.
Qed.

(** X16. In a game all of whose snapshots have a rectangular tile layer
    and share no row, where the current grid has one player, with an empty
    cell of the grid ahead, a move and the opposite move both return true
    and lead to a grid that holds, cell by cell, what the grid held before
    the two moves; the history is two snapshots longer. *)
Theorem step_there_and_back (g : Game) (σ : Store) (cur : State) (p d d' : Vector2) :
  sound σ g → separated g → current g = Ok cur →
  is_inbounds cur p = true →
  (∀ q, is_inbounds cur q = true →
        access q (tiles cur) (tile_rows σ) = Ok PLAYER ↔ q = p) →
  is_inbounds cur (Vector2_add p d) = true →
  access (Vector2_add p d) (tiles cur) (tile_rows σ) = Ok EMPTY →
  Vector2_add (Vector2_add p d) d' = p →
  ∃ g1 σ1 g2 σ2 c2,
    Game_move g d σ = Ok (true, g1, σ1) ∧
    Game_move g1 d' σ1 = Ok (true, g2, σ2) ∧
    current g2 = Ok c2 ∧
    List.length (state g2) = (List.length (state g) + 2)%nat ∧
    ∀ q, 0 ≤ x q → 0 ≤ y q →
         access q (tiles c2) (tile_rows σ2) = access q (tiles cur) (tile_rows σ).
Proof.
  intros Hsound Hsep Hcur Hp Huniq Hin Hfree Hback.
  assert (access p (tiles cur) (tile_rows σ) = Ok PLAYER) as Hplayer by (by apply Huniq).
  assert (Vector2_add p d ≠ p) as Hne by (intros Heq; rewrite Heq in Hfree; congruence).
  pose proof Hp as [[Hpx _] [Hpy _]]%is_inbounds_true.
  pose proof Hin as [[Htx _] [Hty _]]%is_inbounds_true.
  set (target := Vector2_add p d) in *.
  pose proof Hsound as (_ & Hall & Hrect).
  pose proof (current_elem_of _ _ Hcur) as Hcin.
  rewrite Forall_forall in Hall, Hrect.
  pose proof (Hall _ Hcin) as Ha. pose proof (Hrect _ Hcin) as Hr.
  assert (NoDup (tiles cur)) as Hnd.
  { destruct Hsep as [Hnd _]. eapply NoDup_join_elem; [exact Hnd|].
    apply list_elem_of_fmap. by exists cur. }
  (* the step *)
  destruct (Game_move_room g d σ cur Hcur Ha Hr) as (b & g1 & σ1 & Hm1 & Hb1).
  assert (b = true) as ->.
  { apply Hb1. exists p, EMPTY. split; [done|]. split; [done|].
    split; [done|]. split; [done|]. split; done. }
  destruct (Game_move_current g d σ g1 σ1 cur Hsound Hsep Hcur Hm1)
    as (c1 & Hst1 & Hcur1 & Hsound1 & Hsep1 & Ha1 & Hr1 & Hnd1 & Hin1).
  destruct (Game_move_cells g d σ g1 σ1 cur Hcur Ha Hnd Hm1)
    as (c1' & p0 & t0 & Hst1' & Hp0 & Hplayer0 & (_ & Ht0 & _) & Hcells1).
  rewrite Hst1 in Hst1'. apply app_inj_tail in Hst1' as [_ <-].
  apply Huniq in Hplayer0; [|done]. subst p0. fold target in Ht0, Hcells1.
  rewrite Hfree in Ht0. injection Ht0 as <-.
  assert (access target (tiles c1) (tile_rows σ1) = Ok PLAYER) as Hplayer1.
  { rewrite Hcells1 by done. unfold after_step. fold target. by rewrite decide_True. }
  assert (access p (tiles c1) (tile_rows σ1) = Ok EMPTY) as Hempty1.
  { rewrite Hcells1 by done. unfold after_step. fold target.
    rewrite decide_False by done. by rewrite decide_True. }
  (* the step back *)
  destruct (Game_move_room g1 d' σ1 c1 Hcur1 Ha1 Hr1) as (b & g2 & σ2 & Hm2 & Hb2).
  assert (b = true) as ->.
  { apply Hb2. exists target, EMPTY. split; [by rewrite Hin1|]. split; [done|].
    unfold has_room. rewrite Hback. split; [by rewrite Hin1|]. split; [done|].
    split; done. }
  destruct (Game_move_current g1 d' σ1 g2 σ2 c1 Hsound1 Hsep1 Hcur1 Hm2)
    as (c2 & Hst2 & Hcur2 & _).
  destruct (Game_move_cells g1 d' σ1 g2 σ2 c1 Hcur1 Ha1 Hnd1 Hm2)
    as (c2' & p2 & t2 & Hst2' & Hp2 & Hplayer2 & (_ & Ht2 & _) & Hcells2).
  rewrite Hst2 in Hst2'. apply app_inj_tail in Hst2' as [_ <-].
  assert (p2 = target) as ->.
  { rewrite Hin1 in Hp2. pose proof Hp2 as [[? _] [? _]]%is_inbounds_true.
    rewrite Hcells1 in Hplayer2 by done. unfold after_step in Hplayer2.
    fold target in Hplayer2.
    destruct (decide (p2 = target)) as [|Hn1]; [done|].
    destruct (decide (p2 = p)) as [|Hn2]; [done|].
    rewrite decide_False in Hplayer2 by (by intros [? _]).
    by apply Huniq in Hplayer2. }
  rewrite Hback, Hempty1 in Ht2. injection Ht2 as <-.
  exists g1, σ1, g2, σ2, c2. split; [done|]. split; [done|]. split; [done|]. split.
  { rewrite Hst2, Hst1, !length_app. cbn [List.length]. lia. }
  intros q Hqx Hqy. rewrite Hcells2 by done. unfold after_step. rewrite Hback.
  destruct (decide (q = p)) as [->|Hqp]; [done|].
  destruct (decide (q = target)) as [->|Hqt]; [done|].
  rewrite decide_False by (by intros [? _]).
  rewrite Hcells1 by done. unfold after_step. fold target.
  rewrite !decide_False; try done. by intros [? _].
Qed.

Lemma step_there_and_back_witness :
  sound corridor_store corridor_game ∧ separated corridor_game ∧
  ∃ g1 σ1 g2 σ2 c2,
    Game_move corridor_game RIGHT corridor_store = Ok (true, g1, σ1) ∧
    Game_move g1 LEFT σ1 = Ok (true, g2, σ2) ∧
    current g2 = Ok c2 ∧
    access (mkVector2 0 1) (tiles c2) (tile_rows σ2) = Ok PLAYER.
Proof.
  assert (sound corridor_store corridor_game) as Hsound.
  { split; [done|]. split; repeat constructor. }
  assert (separated corridor_game) as Hsep.
  { split; cbn; apply NoDup_singleton. }
  split; [exact Hsound|]. split; [exact Hsep|].
  destruct (step_there_and_back corridor_game corridor_store corridor_state
              (mkVector2 0 1) RIGHT LEFT Hsound Hsep eq_refl eq_refl)
    as (g1 & σ1 & g2 & σ2 & c2 & Hm1 & Hm2 & Hc2 & _ & Hcells); try reflexivity.
  - intros q Hq%elem_of_positions. cbn in Hq.
    repeat (apply elem_of_cons in Hq as [->|Hq]); [| |  |by apply elem_of_nil in Hq];
      split; intros H; try discriminate H; reflexivity.
  - exists g1, σ1, g2, σ2, c2. split; [exact Hm1|]. split; [exact Hm2|].
    split; [exact Hc2|]. by rewrite Hcells.
Defined.

(** ** Winning *)

Lemma Game_move_background (g : Game) (d : Vector2) (σ : Store) (g' : Game) (σ' : Store)
    (cur c : State) :
  current g = Ok cur → allocated σ cur →
  Game_move g d σ = Ok (true, g', σ') → current g' = Ok c →
  (∀ q, is_inbounds c q = is_inbounds cur q) ∧
  ∀ q, access q (background c) (bg_rows σ') = access q (background cur) (bg_rows σ).
Proof.
  intros Hcur Ha Hm Hc.
  apply Game_move_Ok in Hm as (cur' & c' & σ1 & Hcur' & Hcopy & _ & Hbg & ->).
  rewrite Hcur in Hcur'. injection Hcur' as <-.
  apply current_Ok in Hc as [older Hst]. cbn [state] in Hst.
  apply app_inj_tail in Hst as [_ ->].
  split; [intros q; by eapply deepcopy_is_inbounds|]. intros q.
  destruct (deepcopy_Ok _ _ _ _ Hcopy) as (_ & _ & _ & _ & Fb & Hv & _).
  pose proof (Hv Ha) as Hview. destruct Ha as [_ Hab].
  rewrite Hbg. rewrite !access_grid_get; [|done|].
  - apply (f_equal g_background) in Hview. unfold view in Hview.
    cbn [g_background] in Hview. by rewrite Hview.
  - eapply Forall_impl; [exact Fb|]. intros; simpl in *; lia.
Qed.

(** X17. A level that is not won becomes won only by a push: if [win] is
    false before a move that returns true and true after it, the player
    had a box ahead, and the cell the box was pushed to is a target. *)
Theorem won_only_by_push (g : Game) (d : Vector2) (σ : Store) (g' : Game) (σ' : Store)
    (cur c : State) :
  current g = Ok cur → allocated σ cur → NoDup (tiles cur) →
  Game_move g d σ = Ok (true, g', σ') → current g' = Ok c →
  win cur σ = Ok false → win c σ' = Ok true →
  ∃ p, is_inbounds cur p = true ∧
       access p (tiles cur) (tile_rows σ) = Ok PLAYER ∧
       access (Vector2_add p d) (tiles cur) (tile_rows σ) = Ok BOX ∧
       access (Vector2_add (Vector2_add p d) d) (background cur) (bg_rows σ) = Ok TARGET.
Proof.
  intros Hcur Ha Hnd Hm Hc Hlost Hwon.
  destruct (Game_move_background g d σ g' σ' cur c Hcur Ha Hm Hc) as [Hin Hbg].
  destruct (Game_move_cells g d σ g' σ' cur Hcur Ha Hnd Hm)
    as (c' & p & t & Hst & Hp & Hplayer & (Htin & Ht & Hnw & Hbox) & Hcells).
  apply current_Ok in Hc as [older Hst']. rewrite Hst in Hst'.
  apply app_inj_tail in Hst' as [_ ->].
  apply win_Ok in Hwon as [Hwon _]. specialize (Hwon eq_refl).
  exists p. split; [done|]. split; [done|].
  destruct (decide (t = BOX)) as [->|Hnb].
  - split; [done|]. destruct (Hbox eq_refl) as (Hnin & u & Hu & _ & Hub).
    rewrite <- Hbg. apply Hwon; [by rewrite Hin|].
    pose proof Hnin as [[? _] [? _]]%is_inbounds_true.
    rewrite Hcells by done. unfold after_step.
    assert (Vector2_add (Vector2_add p d) d ≠ Vector2_add p d) as Hn1
      by (intros Heq; rewrite Heq in Hu; congruence).
    assert (Vector2_add (Vector2_add p d) d ≠ p) as Hn2.
    { intros Heq%Vector2_add_fixed. rewrite Heq in Ht. congruence. }
    rewrite !decide_False by done. by rewrite decide_True.
  - exfalso. apply win_Ok in Hlost as [_ Hlost]. enough (false = true) by done.
    apply Hlost. intros q Hq Hqbox. rewrite <- Hbg. apply Hwon; [by rewrite Hin|].
    pose proof Hq as [[? _] [? _]]%is_inbounds_true.
    rewrite Hcells by done. unfold after_step.
    rewrite decide_False by (intros ->; congruence).
    rewrite decide_False by (intros ->; congruence).
    by rewrite decide_False by (by intros [? _]).
Qed.

Lemma won_only_by_push_witness :
  allocated goal_store goal_state ∧ NoDup (tiles goal_state) ∧
  win goal_state goal_store = Ok false ∧
  ∃ g' σ' c,
    Game_move (Game_init goal_state) RIGHT goal_store = Ok (true, g', σ') ∧
    current g' = Ok c ∧ win c σ' = Ok true ∧
    access (Vector2_add (mkVector2 0 0) RIGHT) (tiles goal_state) (tile_rows goal_store) =
      Ok BOX.
Proof.
  assert (allocated goal_store goal_state) as Ha by repeat constructor.
  assert (NoDup (tiles goal_state)) as Hnd by apply NoDup_singleton.
  split; [exact Ha|]. split; [exact Hnd|]. split; [reflexivity|].
  destruct (Game_move (Game_init goal_state) RIGHT goal_store) as [[[b g'] σ']|e] eqn:Hm;
    [|by vm_compute in Hm].
  destruct b; [|by vm_compute in Hm].
  destruct (current g') as [c|e] eqn:Hc; [|by vm_compute in Hm; injection Hm as <- <-].
  assert (win c σ' = Ok true) as Hwon.
  { vm_compute in Hm. injection Hm as <- <-. vm_compute in Hc. by injection Hc as <-. }
  exists g', σ', c. split; [done|]. split; [done|]. split; [done|].
  destruct (won_only_by_push (Game_init goal_state) RIGHT goal_store g' σ' goal_state c
              eq_refl Ha Hnd Hm Hc eq_refl Hwon) as (p & Hp & Hplayer & Hbox & _).
  apply elem_of_positions in Hp. cbn in Hp.
  repeat (apply elem_of_cons in Hp as [->|Hp]); try discriminate Hplayer;
    [exact Hbox|by apply elem_of_nil in Hp].
Defined.

(** ** What the renderer draws *)

Lemma draw_cell_blit (state : State) (σ : Store) (p : Vector2) (c : call) :
  c ∈ (draw_cell state σ p).1 →
  ∃ img, c = blit img (cell_size * y p) (cell_size * x p).
Proof.
  unfold draw_cell, dbind, lift, emit, dret. cbv zeta. cbn [fst snd].
  destruct (access p (tiles state) (tile_rows σ)) as [t|e]; cbn [fst snd app];
    [|by intros ?%elem_of_nil].
  destruct (access p (background state) (bg_rows σ)) as [b|e];
    destruct t; try destruct b;
    repeat (rewrite ?bool_decide_eq_true_2 by done;
            rewrite ?bool_decide_eq_false_2 by done; cbn [fst snd app]);
    intros Hc; repeat (apply elem_of_cons in Hc as [->|Hc]; [by eexists|]);
    by apply elem_of_nil in Hc.
Qed.

Lemma draw_cell_Ok (state : State) (σ : Store) (p : Vector2) (t : Tile)
    (b : BackgroundTile) :
  access p (tiles state) (tile_rows σ) = Ok t →
  access p (background state) (bg_rows σ) = Ok b →
  (draw_cell state σ p).2 = Ok tt ∧
  ∃ img, blit img (cell_size * y p) (cell_size * x p) ∈ (draw_cell state σ p).1.
Proof.
  intros Ht Hb. unfold draw_cell, dbind, lift, emit, dret. cbv zeta. cbn [fst snd].
  rewrite Ht, Hb. cbn [fst snd app].
  destruct t, b;
    repeat (rewrite ?bool_decide_eq_true_2 by done;
            rewrite ?bool_decide_eq_false_2 by done; cbn [fst snd app]);
    (split; [done|]); eexists; apply elem_of_cons; by left.
Qed.

Lemma dfor_elem_of {A : Type} (xs : list A) (body : A → drawn unit) (c : call) :
  c ∈ (dfor xs body).1 → ∃ a, a ∈ xs ∧ c ∈ (body a).1.
Proof.
  induction xs as [|a xs IH]; cbn [dfor]; [by intros ?%elem_of_nil|].
  unfold dbind. destruct (body a) as [cs [[]|e]] eqn:Ha; cbn [fst snd].
  - intros [Hc|Hc]%elem_of_app.
    + exists a. rewrite Ha. split; [by left|done].
    + destruct (IH Hc) as (a' & Ha' & Hc'). exists a'. split; [by right|done].
  - intros Hc. exists a. rewrite Ha. split; [by left|done].
Qed.

Lemma dfor_Ok {A : Type} (xs : list A) (body : A → drawn unit) :
  (∀ a, a ∈ xs → (body a).2 = Ok tt) →
  (dfor xs body).2 = Ok tt ∧ ∀ a c, a ∈ xs → c ∈ (body a).1 → c ∈ (dfor xs body).1.
Proof.
  induction xs as [|a xs IH]; intros Hall; cbn [dfor].
  - split; [done|]. by intros a c ?%elem_of_nil.
  - destruct IH as [IH1 IH2]; [intros a' Ha'; apply Hall; by right|].
    unfold dbind. rewrite (Hall a) by (by left). cbn [fst snd]. split; [done|].
    intros a' c [->|Ha']%elem_of_cons Hc; apply elem_of_app; [by left|right].
    by apply (IH2 a').
Qed.

Lemma update_state_cells (state : State) (σ : Store) :
  (∀ img px py, blit img px py ∈ (update_state state σ).1 →
     ∃ p, is_inbounds state p = true ∧
          px = cell_size * y p ∧ py = cell_size * x p ∧
          0 ≤ px ∧ px + cell_size ≤ screen_x (Renderer_init state) ∧
          0 ≤ py ∧ py + cell_size ≤ screen_y (Renderer_init state)) ∧
  ((∀ p, is_inbounds state p = true →
         (∃ t, access p (tiles state) (tile_rows σ) = Ok t) ∧
         (∃ b, access p (background state) (bg_rows σ) = Ok b)) →
   (update_state state σ).2 = Ok tt ∧
   head (update_state state σ).1 = Some (fill 50 50 50) ∧
   last (update_state state σ).1 = Some update ∧
   ∀ p, is_inbounds state p = true →
        ∃ img, blit img (cell_size * y p) (cell_size * x p) ∈ (update_state state σ).1).
Proof.
  split.
  - intros img px py Hc.
    assert (blit img px py ∈ (dfor (positions state) (draw_cell state σ)).1) as Hin.
    { unfold update_state, dbind, emit in Hc. cbn [fst snd] in Hc.
      destruct (dfor _ _) as [cs [[]|e]]; cbn [fst snd app] in *.
      - apply elem_of_cons in Hc as [?|Hc]; [done|].
        apply elem_of_app in Hc as [?|Hc]; [done|].
        by apply list_elem_of_singleton in Hc.
      - by apply elem_of_cons in Hc as [?|Hc]. }
    apply dfor_elem_of in Hin as (p & Hp%elem_of_positions & Hc').
    apply draw_cell_blit in Hc' as (img' & [= -> -> ->]).
    exists p. split; [done|].
    apply is_inbounds_true in Hp as [Hx Hy].
    unfold Renderer_init, cell_size. cbn [screen_x screen_y]. lia.
  - intros Hread.
    destruct (dfor_Ok (positions state) (draw_cell state σ)) as [Hok Hall].
    { intros p Hp%elem_of_positions. destruct (Hread p Hp) as [[t Ht] [b Hb]].
      by destruct (draw_cell_Ok state σ p t b Ht Hb). }
    unfold update_state, dbind, emit. cbn [fst snd]. rewrite Hok. cbn [fst snd app].
    split; [done|]. split; [done|]. split.
    { rewrite app_comm_cons. by rewrite last_snoc. }
    intros p Hp. destruct (Hread p Hp) as [[t Ht] [b Hb]].
    destruct (draw_cell_Ok state σ p t b Ht Hb) as [_ [img Himg]].
    exists img. apply elem_of_cons. right. apply elem_of_app. left.
    apply (Hall p); [by apply elem_of_positions|done].
Qed.

(** X18. Every image that [update_state] draws is drawn at the corner of a
    cell of the grid, column first ([cell_size] times the column, then
    [cell_size] times the row), inside the window that [Renderer(state)]
    opens. Where both layers can be read at every position, it raises
    nothing, starts by filling the window and ends by updating the
    display, and draws at the corner of every cell. *)
Theorem update_state_draws_cells (state : State) (σ : Store) :
  (∀ img px py, blit img px py ∈ (update_state state σ).1 →
     ∃ p, is_inbounds state p = true ∧
          px = cell_size * y p ∧ py = cell_size * x p ∧
          0 ≤ px ∧ px + cell_size ≤ screen_x (Renderer_init state) ∧
          0 ≤ py ∧ py + cell_size ≤ screen_y (Renderer_init state)) ∧
  ((∀ p, is_inbounds state p = true →
         (∃ t, access p (tiles state) (tile_rows σ) = Ok t) ∧
         (∃ b, access p (background state) (bg_rows σ) = Ok b)) →
   (update_state state σ).2 = Ok tt ∧
   head (update_state state σ).1 = Some (fill 50 50 50) ∧
   last (update_state state σ).1 = Some update ∧
   ∀ p, is_inbounds state p = true →
        ∃ img, blit img (cell_size * y p) (cell_size * x p) ∈ (update_state state σ).1).
Proof. apply update_state_cells. Qed.

Lemma update_state_draws_cells_witness :
  (update_state goal_state goal_store).1 =
    [fill 50 50 50; blit playerImg 0 0; blit crateImg 80 0;
     blit groundImg 160 0; blit targetImg 160 0; update] ∧
  screen_x (Renderer_init goal_state) = 240 ∧
  screen_y (Renderer_init goal_state) = 80 ∧
  ∃ img, blit img (cell_size * 2) (cell_size * 0) ∈ (update_state goal_state goal_store).1.
Proof.
  split; [reflexivity|]. split; [reflexivity|]. split; [reflexivity|].
  destruct (update_state_draws_cells goal_state goal_store) as [_ Hdraw].
  destruct Hdraw as (_ & _ & _ & Hcell).
  - intros p Hp%elem_of_positions. cbn in Hp.
    repeat (apply elem_of_cons in Hp as [->|Hp]); [| | |by apply elem_of_nil in Hp];
      split; eexists; reflexivity.
  - apply (Hcell (mkVector2 0 2)). reflexivity.
Defined.

(** ** The frames of a game *)

(** X19. The window is opened once, for the parsed grid. Along every run,
    whatever [update_state] draws of the current grid lies inside that
    window; and when the parsed tile layer is rectangular and its
    background can be read at every position, drawing the current grid
    raises nothing. *)
Theorem frames_fit_window (level_str : string) (σ0 : Store) (st : State) (σ : Store)
    (cs : list command) (g : Game) (σ1 : Store) (cur : State) :
  parse_level level_str σ0 = (Some st, σ) →
  run cs (Game_init st) σ = Ok (g, σ1) → current g = Ok cur →
  (∀ img px py, blit img px py ∈ (update_state cur σ1).1 →
     0 ≤ px ∧ px + cell_size ≤ screen_x (Renderer_init st) ∧
     0 ≤ py ∧ py + cell_size ≤ screen_y (Renderer_init st)) ∧
  (rectangular σ st →
   (∀ p, is_inbounds st p = true →
         ∃ b, access p (background st) (bg_rows σ) = Ok b) →
   (update_state cur σ1).2 = Ok tt).
Proof.
  intros Hp Hrun Hcur. pose proof (current_elem_of _ _ Hcur) as Hin.
  destruct (run_background_shape level_str σ0 st σ cs g σ1 Hp Hrun cur Hin)
    as (HL & HW & _ & _ & Hbg).
  destruct (update_state_cells cur σ1) as [Hblits Hok]. split.
  - intros img px py Hc.
    destruct (Hblits img px py Hc) as (p & _ & _ & _ & ? & ? & ? & ?).
    unfold Renderer_init in *. cbn [screen_x screen_y] in *. rewrite <- HL, <- HW. done.
  - intros Hrect Hread. apply Hok. clear Hok Hblits. intros p Hpin.
    assert (is_inbounds st p = true) as Hpin'.
    { unfold is_inbounds in *. by rewrite <- HL, <- HW. }
    split; [|rewrite Hbg; by apply Hread].
    assert (sound σ (Game_init st)) as Hsound.
    { destruct (parse_level_holds _ _ _ _ Hp) as (Ha & _).
      split; [done|]. split; (constructor; [done|constructor]). }
    destruct (run_total cs _ _ Hsound) as (g' & σ' & Hrun' & (_ & _ & Hr')).
    rewrite Hrun in Hrun'. injection Hrun' as <- <-.
    rewrite Forall_forall in Hr'.
    by apply (rectangular_readable σ1 cur (Hr' cur Hin)).
Qed.

Lemma frames_fit_window_witness :
  parse_level push_level empty_store = (Some push_state, push_store) ∧
  run push_commands (Game_init push_state) push_store = Ok push_end ∧
  rectangular push_store push_state ∧
  ∃ cur, current push_end.1 = Ok cur ∧ (update_state cur push_end.2).2 = Ok tt.
Proof.
  assert (parse_level push_level empty_store = (Some push_state, push_store)) as Hp
    by (by vm_compute).
  assert (run push_commands (Game_init push_state) push_store = Ok push_end) as Hrun
    by (by vm_compute).
  assert (rectangular push_store push_state) as Hr by repeat constructor.
  split; [exact Hp|]. split; [exact Hrun|]. split; [exact Hr|].
  destruct (current push_end.1) as [cur|e] eqn:Hcur; [|by vm_compute in Hcur].
  exists cur. split; [reflexivity|].
  destruct (frames_fit_window push_level empty_store push_state push_store
              push_commands push_end.1 push_end.2 cur Hp Hrun Hcur) as [_ Hok].
  apply Hok; [exact Hr|]. clear.
  intros p Hpin%elem_of_positions. cbn in Hpin.
  repeat (apply elem_of_cons in Hpin as [->|Hpin]); [| | | |by apply elem_of_nil in Hpin];
    eexists; reflexivity.
Defined.

(** ** Which player moves *)

Lemma move_player_false_no_room (self : State) (p d : Vector2) (h h' : list (list Tile)) :
  move_player self p d h = Ok (false, h') → ¬ ∃ t, has_room self h p d t.
Proof.
  intros Hm (t & Hin & Ht & Hnw & Hbox). unfold move_player in Hm.
  rewrite Hin in Hm. cbn [negb] in Hm. rewrite Ht in Hm. cbn [rbind] in Hm.
  rewrite bool_decide_eq_false_2 in Hm by done.
  case_bool_decide as Hb.
  - destruct (Hbox Hb) as (Hin2 & u & Hu & Hu1 & Hu2).
    rewrite move_box_unfold in Hm. cbv zeta in Hm. rewrite Hin2 in Hm.
    cbn [negb] in Hm. rewrite Hu in Hm. cbn [rbind] in Hm.
    rewrite !bool_decide_eq_false_2 in Hm by done.
    destruct (set _ _ EMPTY h) as [hA|]; [|done]. cbn [rbind] in Hm.
    destruct (set _ _ BOX hA) as [h0|]; [|done]. cbn [rbind fst snd negb] in Hm.
    destruct (set p _ EMPTY h0) as [h1|]; [|done]. cbn [rbind] in Hm.
    by destruct (set _ _ PLAYER h1).
  - destruct (set p _ EMPTY h) as [h1|]; [|done]. cbn [rbind] in Hm.
    by destruct (set _ _ PLAYER h1).
Qed.

Lemma move_scan_first (self : State) (d : Vector2) (ps : list Vector2)
    (h h' : list (list Tile)) :
  move_scan self d ps h = Ok (true, h') →
  ∃ ps1 p ps2,
    ps = ps1 ++ p :: ps2 ∧
    access p (tiles self) h = Ok PLAYER ∧
    move_player self p d h = Ok (true, h') ∧
    ∀ q, q ∈ ps1 → access q (tiles self) h = Ok PLAYER →
         ¬ ∃ t, has_room self h q d t.
Proof.
  induction ps as [|p0 ps IH]; [done|]. cbn [move_scan]. intros Hs.
  inv_bind Hs. rename a into t0. case_bool_decide as Hpl.
  - subst t0. inv_bind Hs. destruct a as [b h1]. cbn [fst snd] in Hs. destruct b.
    + injection Hs as <-. exists [], p0, ps. split; [done|]. split; [done|].
      split; [done|]. by intros q ?%elem_of_nil.
    + pose proof E0 as Hfail. apply move_player_Ok in E0 as [[_ ->]|[? _]]; [|done].
      destruct (IH Hs) as (ps1 & p & ps2 & -> & Hp & Hm & Hbefore).
      exists (p0 :: ps1), p, ps2. split; [done|]. split; [done|]. split; [done|].
      intros q [->|Hq]%elem_of_cons Hq'; [|by apply Hbefore].
      by eapply move_player_false_no_room.
  - destruct (IH Hs) as (ps1 & p & ps2 & -> & Hp & Hm & Hbefore).
    exists (p0 :: ps1), p, ps2. split; [done|]. split; [done|]. split; [done|].
    intros q [->|Hq]%elem_of_cons Hq'; [congruence|by apply Hbefore].
Qed.

Lemma Game_move_first (g : Game) (d : Vector2) (σ : Store) (g' : Game)
    (σ' : Store) (cur : State) :
  current g = Ok cur → allocated σ cur → NoDup (tiles cur) →
  Game_move g d σ = Ok (true, g', σ') →
  ∃ c ps1 p ps2 t,
    current g' = Ok c ∧
    positions cur = ps1 ++ p :: ps2 ∧
    access p (tiles cur) (tile_rows σ) = Ok PLAYER ∧
    has_room cur (tile_rows σ) p d t ∧
    (∀ q, q ∈ ps1 → access q (tiles cur) (tile_rows σ) = Ok PLAYER →
          ¬ ∃ u, has_room cur (tile_rows σ) q d u) ∧
    ∀ q, 0 ≤ x q → 0 ≤ y q →
         access q (tiles c) (tile_rows σ') =
         after_step p d t (λ q, access q (tiles cur) (tile_rows σ)) q.
Proof.
  intros Hcur Ha Hnd Hm.
  apply Game_move_Ok in Hm as (cur' & c & σ1 & Hcur' & Hc & Hs & _ & ->).
  rewrite Hcur in Hcur'. injection Hcur' as <-.
  destruct (deepcopy_Ok _ _ _ _ Hc) as (_ & HL & HW & _ & _ & _ & Nt & _).
  assert (positions c = positions cur) as Hpos by (unfold positions; by rewrite HL, HW).
  assert (∀ p t, has_room c (tile_rows σ1) p d t ↔ has_room cur (tile_rows σ) p d t)
    as Hroom.
  { intros p t. unfold has_room.
    rewrite !(deepcopy_is_inbounds _ _ _ _ _ Hc).
    by rewrite !(deepcopy_access _ _ _ _ _ Ha Hc). }
  apply move_scan_first in Hs as (ps1 & p & ps2 & Hps & Hplayer & Hmp & Hbefore).
  assert (is_inbounds c p = true) as Hp.
  { apply elem_of_positions. rewrite Hps. apply elem_of_app. right. by left. }
  destruct (move_player_cells c p d _ _ (Nt Hnd) Hp Hplayer Hmp) as (t & Ht & Hcells).
  exists c, ps1, p, ps2, t.
  split; [apply current_Ok; by exists (state g)|].
  split; [by rewrite <- Hpos|].
  split; [by rewrite <- (deepcopy_access _ _ _ _ _ Ha Hc)|].
  split; [by apply Hroom|]. split.
  - intros q Hq Hq' [u Hu]. apply (Hbefore q Hq).
    + by rewrite (deepcopy_access _ _ _ _ _ Ha Hc).
    + exists u. by apply Hroom.
  - intros q Hqx Hqy. rewrite (Hcells q Hqx Hqy). unfold after_step.
    by rewrite (deepcopy_access _ _ _ _ _ Ha Hc).
Qed.

(** X20. Where the grid holds several players, the one a move steps with is
    the first, in the order of [positions] (row by row, left to right),
    that has room: no player before it has room, and the new grid is the
    old one after the step of that player. *)
Theorem first_player_with_room_moves (g : Game) (d : Vector2) (σ : Store) (g' : Game)
    (σ' : Store) (cur : State) :
  current g = Ok cur → allocated σ cur → NoDup (tiles cur) →
  Game_move g d σ = Ok (true, g', σ') →
  ∃ c ps1 p ps2 t,
    current g' = Ok c ∧
    positions cur = ps1 ++ p :: ps2 ∧
    access p (tiles cur) (tile_rows σ) = Ok PLAYER ∧
    has_room cur (tile_rows σ) p d t ∧
    (∀ q, q ∈ ps1 → access q (tiles cur) (tile_rows σ) = Ok PLAYER →
          ¬ ∃ u, has_room cur (tile_rows σ) q d u) ∧
    ∀ q, 0 ≤ x q → 0 ≤ y q →
         access q (tiles c) (tile_rows σ') =
         after_step p d t (λ q, access q (tiles cur) (tile_rows σ)) q.
Proof. apply Game_move_first. Qed.

Lemma first_player_with_room_moves_witness :
  current (Game_init two_players_state) = Ok two_players_state ∧
  allocated two_players_store two_players_state ∧ NoDup (tiles two_players_state) ∧
  ∃ g' σ' c,
    Game_move (Game_init two_players_state) RIGHT two_players_store = Ok (true, g', σ') ∧
    current g' = Ok c ∧
    g_tiles (view σ' c) = [[EMPTY; PLAYER; EMPTY]].
Proof.
  assert (allocated two_players_store two_players_state) as Ha by repeat constructor.
  assert (NoDup (tiles two_players_state)) as Hnd by apply NoDup_singleton.
  split; [reflexivity|]. split; [exact Ha|]. split; [exact Hnd|].
  destruct (Game_move (Game_init two_players_state) RIGHT two_players_store)
    as [[[b g'] σ']|e] eqn:Hm; [|by vm_compute in Hm].
  destruct b; [|by vm_compute in Hm].
  destruct (first_player_with_room_moves (Game_init two_players_state) RIGHT
              two_players_store g' σ' two_players_state eq_refl Ha Hnd Hm)
    as (c & _ & _ & _ & _ & Hc & _).
  exists g', σ', c. split; [reflexivity|]. split; [exact Hc|].
  vm_compute in Hm. injection Hm as <- <-. vm_compute in Hc. injection Hc as <-.
  reflexivity.
Defined.

(** ** The engine works on the grid by value *)

Lemma set_grid_set {A : Type} (p : Vector2) (a : list loc) (v : A) (h : list (list A)) :
  NoDup a → Forall (λ l, (l < List.length h)%nat) a →
  match set p a v h with
  | Ok h' => grid_set (rows_at h a) p v = Ok (rows_at h' a) ∧
             List.length h' = List.length h
  | Raise e => grid_set (rows_at h a) p v = Raise e
  end.
Proof.
  intros Hnd Hall. unfold set, grid_set, getitem, rows_at.
  rewrite length_fmap.
  destruct (norm_index (List.length a) (x p)) as [k|] eqn:Hk; [|reflexivity].
  apply norm_index_Some in Hk as [Hk _].
  destruct (lookup_lt_is_Some_2 a k Hk) as [l Hl].
  rewrite list_lookup_fmap, Hl. cbn [rbind fmap option_fmap option_map].
  rewrite Forall_forall in Hall.
  pose proof (Hall l (list_elem_of_lookup_2 _ _ _ Hl)) as Hlt.
  destruct (lookup_lt_is_Some_2 h l Hlt) as [row Hrow].
  unfold read_row. rewrite Hrow. cbn [rbind from_option id].
  destruct (setitem row (y p) v) as [row'|e]; [|reflexivity]. cbn [rbind].
  rewrite length_insert. split; [|done]. f_equal.
  symmetry. by apply (rows_at_insert a h k l row').
Qed.

Lemma alike_is_inbounds (s1 s2 : State) (h1 h2 : list (list Tile)) (q : Vector2) :
  alike s1 h1 s2 h2 → is_inbounds s1 q = is_inbounds s2 q.
Proof. intros (HL & HW & _). unfold is_inbounds. by rewrite HL, HW. Qed.

Lemma alike_access (s1 s2 : State) (h1 h2 : list (list Tile)) (q : Vector2) :
  alike s1 h1 s2 h2 → access q (tiles s1) h1 = access q (tiles s2) h2.
Proof.
  intros (_ & _ & _ & _ & A1 & A2 & Hrows). rewrite !access_grid_get by done.
  by rewrite Hrows.
Qed.

Lemma alike_set (s1 s2 : State) (h1 h2 : list (list Tile)) (q : Vector2) (v : Tile) :
  alike s1 h1 s2 h2 →
  match set q (tiles s1) v h1, set q (tiles s2) v h2 with
  | Ok h1', Ok h2' => alike s1 h1' s2 h2'
  | Raise e1, Raise e2 => e1 = e2
  | _, _ => False
  end.
Proof.
  intros (HL & HW & N1 & N2 & A1 & A2 & Hrows).
  pose proof (set_grid_set q (tiles s1) v h1 N1 A1) as H1.
  pose proof (set_grid_set q (tiles s2) v h2 N2 A2) as H2.
  rewrite Hrows in H1.
  destruct (set q (tiles s1) v h1) as [h1'|e1], (set q (tiles s2) v h2) as [h2'|e2].
  - destruct H1 as [H1 L1], H2 as [H2 L2]. rewrite H1 in H2. injection H2 as H2.
    unfold alike. rewrite L1, L2. done.
  - destruct H1 as [H1 _]. congruence.
  - destruct H2 as [H2 _]. congruence.
  - congruence.
Qed.

Ltac alike_write H q v :=
  let Hs := fresh "Hs" in
  lazymatch type of H with
  | alike ?s1 ?h1 ?s2 ?h2 =>
      pose proof (alike_set s1 s2 h1 h2 q v H) as Hs;
      destruct (set q (tiles s1) v h1), (set q (tiles s2) v h2); try done;
      cbn [rbind]
  end.

Lemma alike_move_box (depth : nat) (s1 s2 : State) (h1 h2 : list (list Tile))
    (p d : Vector2) :
  alike s1 h1 s2 h2 →
  alike_result s1 s2 (move_box depth s1 p d h1) (move_box depth s2 p d h2).
Proof.
  intros H. rewrite !move_box_unfold. cbv zeta.
  rewrite (alike_is_inbounds _ _ _ _ (Vector2_add p d) H).
  rewrite (alike_access _ _ _ _ (Vector2_add p d) H).
  destruct (is_inbounds s2 _); cbn [negb]; [|by split].
  destruct (access _ (tiles s2) h2) as [t|e]; cbn [rbind]; [|done].
  case_bool_decide; [by split|]. case_bool_decide; [by split|].
  alike_write H p EMPTY. alike_write Hs (Vector2_add p d) BOX.
Qed.

Lemma alike_move_player (s1 s2 : State) (h1 h2 : list (list Tile)) (p d : Vector2) :
  alike s1 h1 s2 h2 →
  alike_result s1 s2 (move_player s1 p d h1) (move_player s2 p d h2).
Proof.
  intros H. unfold move_player.
  rewrite (alike_is_inbounds _ _ _ _ (Vector2_add p d) H).
  rewrite (alike_access _ _ _ _ (Vector2_add p d) H).
  destruct (is_inbounds s2 _); cbn [negb]; [|by split].
  destruct (access _ (tiles s2) h2) as [t|e]; cbn [rbind]; [|done].
  case_bool_decide; [by split|]. case_bool_decide.
  - pose proof (alike_move_box recursion_limit s1 s2 h1 h2 (Vector2_add p d) d H) as Hb.
    destruct (move_box recursion_limit s1 _ d h1) as [[b1 k1]|e1],
             (move_box recursion_limit s2 _ d h2) as [[b2 k2]|e2]; try done.
    destruct Hb as [Hb Hk]. cbn [fst snd] in Hb, Hk. subst b2. cbn [rbind fst snd].
    destruct b1; cbn [negb]; [|by split].
    alike_write Hk p EMPTY. alike_write Hs (Vector2_add p d) PLAYER.
  - alike_write H p EMPTY. alike_write Hs (Vector2_add p d) PLAYER.
Qed.

Lemma alike_move_scan (s1 s2 : State) (d : Vector2) (ps : list Vector2) :
  ∀ h1 h2, alike s1 h1 s2 h2 →
    alike_result s1 s2 (move_scan s1 d ps h1) (move_scan s2 d ps h2).
Proof.
  induction ps as [|p ps IH]; intros h1 h2 H; cbn [move_scan]; [by split|].
  rewrite (alike_access _ _ _ _ p H).
  destruct (access p (tiles s2) h2) as [t|e]; cbn [rbind]; [|done].
  case_bool_decide; [|by apply IH].
  pose proof (alike_move_player s1 s2 h1 h2 p d H) as Hm.
  destruct (move_player s1 p d h1) as [[b1 k1]|e1],
           (move_player s2 p d h2) as [[b2 k2]|e2]; try done.
  destruct Hm as [Hb Hk]. cbn [fst snd] in Hb, Hk. subst b2. cbn [rbind fst snd].
  destruct b1; [by split|by apply IH].
Qed.

Lemma Game_move_again (g : Game) (d : Vector2) (σ : Store) (g1 : Game) (σ1 : Store) :
  Forall (allocated σ) (state g) → separated g →
  Game_move g d σ = Ok (true, g1, σ1) →
  ∃ g2 σ2 c1 c2,
    Game_undo g1 = (true, g) ∧
    Game_move g d σ1 = Ok (true, g2, σ2) ∧
    current g1 = Ok c1 ∧ current g2 = Ok c2 ∧
    view σ2 c2 = view σ1 c1 ∧
    ∀ q, access q (tiles c2) (tile_rows σ2) = access q (tiles c1) (tile_rows σ1).
Proof.
  intros Hall Hsep Hm. pose proof (Game_move_extends _ _ _ _ _ _ Hm) as Hext.
  apply Game_move_Ok in Hm as (cur & c1 & σa & Hcur & Hc1 & Hs1 & Hbg1 & ->).
  pose proof (current_elem_of _ _ Hcur) as Hcin.
  rewrite Forall_forall in Hall. pose proof (Hall _ Hcin) as Ha.
  assert (NoDup (tiles cur)) as Hnd.
  { destruct Hsep as [Hnd _]. eapply NoDup_join_elem; [exact Hnd|].
    apply list_elem_of_fmap. by exists cur. }
  pose proof (extends_allocated _ _ _ Hext Ha) as Ha1.
  destruct (deepcopy_total cur σ1 Ha1) as (c2 & σb & Hc2).
  destruct (deepcopy_Ok _ _ _ _ Hc1) as (_ & L1 & W1 & F1 & _ & V1 & N1 & _).
  destruct (deepcopy_Ok _ _ _ _ Hc2) as (_ & L2 & W2 & F2 & _ & V2 & N2 & _).
  specialize (V1 Ha). specialize (V2 Ha1).
  rewrite (extends_view _ _ _ Hext Ha) in V2.
  assert (alike c1 (tile_rows σa) c2 (tile_rows σb)) as Halike.
  { split; [congruence|]. split; [congruence|]. split; [by apply N1|].
    split; [by apply N2|]. split; [|split].
    - eapply Forall_impl; [exact F1|]. intros; simpl in *; lia.
    - eapply Forall_impl; [exact F2|]. intros; simpl in *; lia.
    - apply (f_equal g_tiles) in V1, V2. unfold view in V1, V2.
      cbn [g_tiles] in V1, V2. congruence. }
  assert (positions c2 = positions c1) as Hpos.
  { unfold positions. by rewrite L1, W1, L2, W2. }
  pose proof (alike_move_scan c1 c2 d (positions c1) _ _ Halike) as Hscan.
  rewrite Hs1 in Hscan.
  destruct (move_scan c2 d (positions c1) (tile_rows σb)) as [[b2 h2]|e2] eqn:Hs2;
    [|done].
  destruct Hscan as [Hb Hafter]. cbn [fst snd] in Hb, Hafter. subst b2.
  exists {| state := state g ++ [c2] |}, {| tile_rows := h2; bg_rows := bg_rows σb |},
    c1, c2.
  split.
  { destruct g as [sts]. cbn [state] in *. apply Game_undo_last.
    intros ->. by apply elem_of_nil in Hcin. }
  split.
  { unfold Game_move. unfold current in Hcur. rewrite Hcur. cbn [rbind].
    rewrite Hc2. cbn [rbind fst snd]. rewrite Hpos, Hs2. done. }
  split; [apply current_Ok; by exists (state g)|].
  split; [apply current_Ok; by exists (state g)|].
  split.
  - destruct Hafter as (HL & HW & _ & _ & _ & _ & Hrows).
    unfold view. cbn [tile_rows bg_rows]. rewrite Hbg1, Hrows, HL, HW. f_equal.
    apply (f_equal g_background) in V1, V2. unfold view in V1, V2.
    cbn [g_background] in V1, V2. congruence.
  - intros q. symmetry. by apply (alike_access _ _ _ _ q Hafter).
Qed.

(** X21. In every game reached from a parsed level, after a move that
    returned true and an undo, the same move returns true again and leads
    to the grid that the undo popped: the same dimensions, the same tiles
    and the same background, read alike at every position.  The outcome
    of a move is that of the grid by value, not of the row objects that
    hold it. *)
Theorem undo_then_redo (level_str : string) (σ0 : Store) (st : State) (σ : Store)
    (cs : list command) (g : Game) (σ1 : Store) (d : Vector2) (g1 : Game) (σ2 : Store) :
  parse_level level_str σ0 = (Some st, σ) →
  run cs (Game_init st) σ = Ok (g, σ1) →
  Game_move g d σ1 = Ok (true, g1, σ2) →
  ∃ g2 σ3 c1 c2,
    Game_undo g1 = (true, g) ∧
    Game_move g d σ2 = Ok (true, g2, σ3) ∧
    current g1 = Ok c1 ∧ current g2 = Ok c2 ∧
    view σ3 c2 = view σ2 c1 ∧
    ∀ q, access q (tiles c2) (tile_rows σ3) = access q (tiles c1) (tile_rows σ2).
Proof.
  intros Hp Hrun Hm.
  destruct (parse_level_separated _ _ _ _ Hp) as [Hsep0 Hall0].
  destruct (run_separated cs _ _ _ _ Hsep0 Hall0 Hrun) as [Hsep Hall].
  exact (Game_move_again g d σ1 g1 σ2 Hall Hsep Hm).
Qed.

Lemma undo_then_redo_witness :
  parse_level ragged empty_store = (Some ragged_state, ragged_store) ∧
  run [] (Game_init ragged_state) ragged_store = Ok (ragged_game, ragged_store) ∧
  ∃ g1 σ2 g2 σ3,
    Game_move ragged_game RIGHT ragged_store = Ok (true, g1, σ2) ∧
    Game_undo g1 = (true, ragged_game) ∧
    Game_move ragged_game RIGHT σ2 = Ok (true, g2, σ3).
Proof.
  assert (parse_level ragged empty_store = (Some ragged_state, ragged_store)) as Hp
    by (by vm_compute).
  assert (run [] (Game_init ragged_state) ragged_store = Ok (ragged_game, ragged_store))
    as Hrun by reflexivity.
  split; [exact Hp|]. split; [exact Hrun|].
  destruct (Game_move ragged_game RIGHT ragged_store) as [[[b g1] σ2]|e] eqn:Hm;
    [|by vm_compute in Hm].
  destruct b; [|by vm_compute in Hm].
  destruct (undo_then_redo ragged empty_store ragged_state ragged_store [] ragged_game
              ragged_store RIGHT g1 σ2 Hp Hrun Hm)
    as (g2 & σ3 & _ & _ & Hundo & Hm2 & _).
  exists g1, σ2, g2, σ3. split; [reflexivity|]. split; [exact Hundo|exact Hm2].
Defined.
